(** * ComfyUI-APIimage: configuration store, model registry and the Gemini node

    A shallow embedding of [config.py] (persistent configuration, model
    lists), of [GeminiImageGenerate] in [nodes_gemini.py] ([generate] and
    [INPUT_TYPES]), of the two nodes of [nodes_config.py], of
    [APIImageSave.save_images] in [nodes_save.py] and of [_ensure_packages]
    in [__init__.py], followed by the properties proved about them.

    Conventions of the embedding.
    - A Python [str] is a Rocq [string], one [ascii] per character (code
      points below 256).
    - A Python [dict] with string keys is a [gmap string _]; equality of
      [gmap]s is equality of Python dicts (same keys, same values, order of
      insertion ignored).
    - The file [api_config.json], when [json.load] accepts it, holds a
      document of the shape the program writes: an optional [api_configs]
      object whose values are backend entries, next to top-level keys the
      program never reads.  In a backend entry the key [custom_models], when
      present, is a list of strings; every other key (recognised or not) is
      carried as a string and never inspected.
    - The module-level object [DEFAULT_CONFIG] is mutable and [dict.copy] is
      shallow, so the objects a loaded configuration is made of may be the
      very objects of [DEFAULT_CONFIG].  The embedding keeps the current
      contents of [DEFAULT_CONFIG] in the state and marks every object of a
      loaded configuration as either its own or as one of [DEFAULT_CONFIG]. *)

From Stdlib Require Import Ascii String DecimalString DecimalNat.
From stdpp Require Import gmap strings list fin_maps.

Open Scope string_scope.
Open Scope list_scope.

(** ** Python string helpers *)

Module PyStr.

(** [str.isspace] on one character (code points below 256). *)
Definition is_space (a : ascii) : bool :=
  let n := nat_of_ascii a in
  (((9 <=? n) && (n <=? 13)) || ((28 <=? n) && (n <=? 32))
   || (n =? 133) || (n =? 160))%nat.

Fixpoint lstrip (s : string) : string :=
  match s with
  | EmptyString => EmptyString
  | String a s' => if is_space a then lstrip s' else s
  end.

Fixpoint rstrip (s : string) : string :=
  match s with
  | EmptyString => EmptyString
  | String a s' =>
      match rstrip s' with
      | EmptyString => if is_space a then EmptyString else String a EmptyString
      | r => String a r
      end
  end.

(** [s.strip()] *)
Definition strip (s : string) : string := rstrip (lstrip s).

(** Truth value of a string: [bool(s)]. *)
Definition truthy (s : string) : bool :=
  match s with EmptyString => false | _ => true end.

(** [not s or not s.strip()] *)
Definition blank (s : string) : bool :=
  negb (truthy s) || negb (truthy (strip s)).

(** [s.startswith(p)] *)
Fixpoint startswith (p s : string) : bool :=
  match p, s with
  | EmptyString, _ => true
  | String a p', String b s' => if Ascii.eqb a b then startswith p' s' else false
  | String _ _, EmptyString => false
  end.

(** [sub in s] *)
Fixpoint contains (sub s : string) : bool :=
  startswith sub s
  || match s with
     | EmptyString => false
     | String _ s' => contains sub s'
     end.

(** [s.lower()] on the ASCII letters. *)
Definition lower_char (a : ascii) : ascii :=
  let n := nat_of_ascii a in
  if ((65 <=? n) && (n <=? 90))%nat then ascii_of_nat (n + 32) else a.

Fixpoint lower (s : string) : string :=
  match s with
  | EmptyString => EmptyString
  | String a s' => String (lower_char a) (lower s')
  end.

(** [s[:n]] *)
Fixpoint take (n : nat) (s : string) : string :=
  match n, s with
  | S n', String a s' => String a (take n' s')
  | _, _ => EmptyString
  end.

(** [sep.join(l)] *)
Fixpoint join (sep : string) (l : list string) : string :=
  match l with
  | [] => EmptyString
  | [x] => x
  | x :: rest => x +:+ sep +:+ join sep rest
  end.

(** [s[:1]], as an optional character. *)
Definition first_char (s : string) : option ascii :=
  match s with String a _ => Some a | EmptyString => None end.

End PyStr.

(** ** config.py *)

Module Config.

(** A backend entry as a JSON value. *)
Record entry := Entry {
  fields : gmap string string;
  custom_models : option (list string)
}.

(** A parsed configuration file. *)
Record document := Document {
  api_configs : option (gmap string entry);
  unknown_keys : gmap string string
}.

(** What is on disk at [CONFIG_FILE]: no file; a file whose loading raises
    inside the [try] of [load_config] (text that [json.load] rejects, which
    includes a file cut short: [json.dump] of a dict starts with an opening
    brace whose closing brace is the last character written, so no proper
    prefix of its output parses; or JSON of another shape than the one
    above, on which the migration raises); or a document. *)
Inductive file_state :=
  | Missing
  | Unreadable
  | Holds (d : document).

(** The state the functions of [config.py] read and write: the file and the
    current contents of [DEFAULT_CONFIG["api_configs"]]. *)
Record world := World {
  CONFIG_FILE : file_state;
  default_config : gmap string entry
}.

Definition BUILTIN_MODELS : gmap string (list string) :=
  list_to_map [
    ("Gemini Native", ["gemini-2.5-flash-image"; "gemini-3-pro-image-preview"]);
    ("Grok API", ["grok-imagine-image"; "grok-imagine-image-pro"]);
    ("OpenAI Compatible", ["dall-e-3"; "dall-e-2"; "gpt-image-1"]);
    ("Qwen Image", ["qwen-image-plus"; "qwen-image-edit"]);
    ("GLM Image", ["glm-image"; "cogview-4-250304"])
  ].

Definition default_entry (base_url model_name : string) : entry :=
  Entry (list_to_map [("api_key", ""); ("base_url", base_url);
                      ("model_name", model_name)])
        (Some []).

(** [DEFAULT_CONFIG["api_configs"]] as the module text defines it. *)
Definition DEFAULT_CONFIG : gmap string entry :=
  list_to_map [
    ("Gemini Native", default_entry "(SDK - Automatic)" "gemini-2.5-flash-image");
    ("Grok API", default_entry "https://api.x.ai" "grok-imagine-image-pro");
    ("OpenAI Compatible", default_entry "https://api.openai.com" "dall-e-3");
    ("Qwen Image",
      default_entry "https://dashscope.aliyuncs.com/api/v1" "qwen-image-plus");
    ("GLM Image", default_entry "https://open.bigmodel.cn/api" "glm-image")
  ].

(** The state right after the module is imported. *)
Definition fresh_world (f : file_state) : world := World f DEFAULT_CONFIG.

(** *** Objects and sharing *)

(** A list object: one of the configuration at hand only, or the list held
    by [DEFAULT_CONFIG["api_configs"][b]["custom_models"]]. *)
Inductive list_obj :=
  | OwnList (l : list string)
  | DefaultList (b : string).

(** An entry dict that belongs to the configuration at hand only. *)
Record own_entry := OwnE {
  oe_fields : gmap string string;
  oe_customs : option list_obj
}.

(** An entry object: its own, or [DEFAULT_CONFIG["api_configs"][b]]. *)
Inductive entry_obj :=
  | OwnEntry (e : own_entry)
  | DefaultEntry (b : string).

(** The [api_configs] dict of a configuration: its own, or
    [DEFAULT_CONFIG["api_configs"]] itself. *)
Inductive dict_obj :=
  | OwnDict (m : gmap string entry_obj)
  | DefaultDict.

(** A configuration as [load_config] returns it: the top-level dict is
    always a new one and always has the key [api_configs]. *)
Record config_obj := ConfigObj {
  cfg_api_configs : dict_obj;
  cfg_unknown_keys : gmap string string
}.

(** The local configuration together with the contents of
    [DEFAULT_CONFIG["api_configs"]]. *)
Record frame := Frame {
  config : config_obj;
  store : gmap string entry
}.

Section Values.
Variable D : gmap string entry.

Definition list_value (lo : list_obj) : list string :=
  match lo with
  | OwnList l => l
  | DefaultList b => default [] (D !! b ≫= custom_models)
  end.

Definition own_value (e : own_entry) : entry :=
  Entry (oe_fields e) (list_value <$> oe_customs e).

Definition entry_value (eo : entry_obj) : entry :=
  match eo with
  | OwnEntry e => own_value e
  | DefaultEntry b => default (Entry ∅ None) (D !! b)
  end.

Definition dict_value (d : dict_obj) : gmap string entry :=
  match d with
  | OwnDict m => entry_value <$> m
  | DefaultDict => D
  end.

(** What [json.dump] writes for a configuration. *)
Definition config_value (c : config_obj) : document :=
  Document (Some (dict_value (cfg_api_configs c))) (cfg_unknown_keys c).
End Values.

(** [json.load] builds new objects throughout. *)
Definition json_load_entry (e : entry) : own_entry :=
  OwnE (fields e) (OwnList <$> custom_models e).

(** [DEFAULT_CONFIG["api_configs"][b].copy()]: a new dict, the same list. *)
Definition copy_entry (b : string) (d : entry) : own_entry :=
  OwnE (fields d)
       (match custom_models d with
        | Some _ => Some (DefaultList b)
        | None => None
        end).

(** [DEFAULT_CONFIG["api_configs"].copy()]: a new dict, the same entries. *)
Definition copy_api_configs (D : gmap string entry) : gmap string entry_obj :=
  map_imap (λ b _, Some (DefaultEntry b)) D.

(** [DEFAULT_CONFIG.copy()], and [DEFAULT_CONFIG] itself where it is only
    read: a top-level dict whose [api_configs] is the shared one. *)
Definition DEFAULT_CONFIG_copy : config_obj := ConfigObj DefaultDict ∅.

(** *** save_config *)

(** How the attempt to write the file ends: the [with] block runs to its
    end; [open] raises (the file is not touched); or an exception leaves the
    block after [open(CONFIG_FILE, "w")] has emptied the file and before
    [json.dump] has written everything.  All exceptions are logged and
    swallowed. *)
Inductive io_outcome :=
  | WriteDone
  | OpenFailed
  | WriteInterrupted.

Definition save_config (o : io_outcome) (c : config_obj) (w : world) : world :=
  match o with
  | WriteDone =>
      World (Holds (config_value (default_config w) c)) (default_config w)
  | OpenFailed => w
  | WriteInterrupted => World Unreadable (default_config w)
  end.

(** *** load_config *)

(** [for k, v in defaults.items(): if k not in entry: entry[k] = v], on the
    keys other than [custom_models]. *)
Definition fill_fields (defaults f : gmap string string) : gmap string string :=
  map_fold (λ k v acc, match acc !! k with
                       | Some _ => acc
                       | None => <[k := v]> acc
                       end) f defaults.

(** The body of the [else] branch for an entry found in the file: the key
    [custom_models] is set to a new empty list when absent, so that the loop
    over the defaults never copies that key. *)
Definition migrate_entry (defaults : entry) (e : own_entry) : own_entry :=
  OwnE (fill_fields (fields defaults) (oe_fields e))
       (match oe_customs e with
        | None => Some (OwnList [])
        | Some lo => Some lo
        end).

(** [for api_type, defaults in DEFAULT_CONFIG["api_configs"].items(): ...] *)
Definition migrate (D : gmap string entry) (m : gmap string own_entry)
  : gmap string own_entry :=
  map_fold (λ api_type defaults acc,
              match acc !! api_type with
              | None => <[api_type := copy_entry api_type defaults]> acc
              | Some e => <[api_type := migrate_entry defaults e]> acc
              end) m D.

Definition load_config (o : io_outcome) (w : world) : config_obj * world :=
  match CONFIG_FILE w with
  | Missing => (DEFAULT_CONFIG_copy, save_config o DEFAULT_CONFIG_copy w)
  | Unreadable => (DEFAULT_CONFIG_copy, w)
  | Holds doc =>
      match api_configs doc with
      | None =>
          (ConfigObj (OwnDict (copy_api_configs (default_config w)))
                     (unknown_keys doc), w)
      | Some m =>
          (ConfigObj
             (OwnDict (OwnEntry <$>
                         migrate (default_config w) (json_load_entry <$> m)))
             (unknown_keys doc), w)
      end
  end.

(** *** Reading and writing through the loaded configuration *)

(** [config["api_configs"].get(b)]: the entry object under [b], if any. *)
Definition dict_lookup (fr : frame) (b : string) : option entry_obj :=
  match cfg_api_configs (config fr) with
  | OwnDict m => m !! b
  | DefaultDict =>
      match store fr !! b with
      | Some _ => Some (DefaultEntry b)
      | None => None
      end
  end.

(** [config["api_configs"][b] = e] for an entry [e] just built.  When the
    dict is the one of [DEFAULT_CONFIG], the entry becomes one of
    [DEFAULT_CONFIG]. *)
Definition dict_insert (b : string) (e : own_entry) (fr : frame) : frame :=
  match cfg_api_configs (config fr) with
  | OwnDict m =>
      Frame (ConfigObj (OwnDict (<[b := OwnEntry e]> m))
                       (cfg_unknown_keys (config fr)))
            (store fr)
  | DefaultDict =>
      Frame (config fr) (<[b := own_value (store fr) e]> (store fr))
  end.

(** [cfg[k] = v] where [cfg] is [config["api_configs"][b]]: the entry object
    is changed in place, in [DEFAULT_CONFIG] when it lives there.  (No entry
    under [b]: the callers have inserted one before.) *)
Definition cfg_setitem (b k v : string) (fr : frame) : frame :=
  match dict_lookup fr b with
  | Some (OwnEntry e) =>
      dict_insert b (OwnE (<[k := v]> (oe_fields e)) (oe_customs e)) fr
  | Some (DefaultEntry b') =>
      Frame (config fr)
            (alter (λ d, Entry (<[k := v]> (fields d)) (custom_models d))
                   b' (store fr))
  | None => fr
  end.

(** [if v is not None: cfg[k] = v] *)
Definition cfg_setitem_opt (b k : string) (v : option string) (fr : frame)
  : frame :=
  match v with
  | Some s => cfg_setitem b k s fr
  | None => fr
  end.

(** [cfg.setdefault("custom_models", [])], for its effect on [cfg]. *)
Definition cfg_setdefault_customs (b : string) (fr : frame) : frame :=
  match dict_lookup fr b with
  | Some (OwnEntry e) =>
      match oe_customs e with
      | Some _ => fr
      | None => dict_insert b (OwnE (oe_fields e) (Some (OwnList []))) fr
      end
  | Some (DefaultEntry b') =>
      Frame (config fr)
            (alter (λ d, match custom_models d with
                         | Some _ => d
                         | None => Entry (fields d) (Some [])
                         end) b' (store fr))
  | None => fr
  end.

(** The list object [cfg["custom_models"]], if the key is there. *)
Definition cfg_customs (b : string) (fr : frame) : option list_obj :=
  match dict_lookup fr b with
  | Some (OwnEntry e) => oe_customs e
  | Some (DefaultEntry b') =>
      match store fr !! b' ≫= custom_models with
      | Some _ => Some (DefaultList b')
      | None => None
      end
  | None => None
  end.

(** [cfg.get("custom_models", [])] as a value. *)
Definition cfg_customs_value (b : string) (fr : frame) : list string :=
  match cfg_customs b fr with
  | Some lo => list_value (store fr) lo
  | None => []
  end.

(** A method call that changes the list [cfg["custom_models"]] in place
    ([append], [remove]): the list of [DEFAULT_CONFIG] when it is that one. *)
Definition customs_update (b : string) (g : list string → list string)
    (fr : frame) : frame :=
  match cfg_customs b fr, dict_lookup fr b with
  | Some (DefaultList b'), _ =>
      Frame (config fr)
            (alter (λ d, Entry (fields d) (g <$> custom_models d))
                   b' (store fr))
  | Some (OwnList l), Some (OwnEntry e) =>
      dict_insert b (OwnE (oe_fields e) (Some (OwnList (g l)))) fr
  | _, _ => fr
  end.

(** [l.remove(x)] for an [x] that occurs in [l]: the first occurrence goes. *)
Fixpoint remove_first (x : string) (l : list string) : list string :=
  match l with
  | [] => []
  | y :: l' => if decide (x = y) then l' else y :: remove_first x l'
  end.

(** The world once the function returns: the file, and [DEFAULT_CONFIG] as
    the frame left it. *)
Definition world_of (f : file_state) (fr : frame) : world :=
  World f (store fr).

(** *** get_api_config, set_api_config *)

Definition get_api_config (api_type : string) (o : io_outcome) (w : world)
  : entry * world :=
  let '(c, w1) := load_config o w in
  let fr := Frame c (default_config w1) in
  (default (Entry ∅ None) (entry_value (store fr) <$> dict_lookup fr api_type),
   w1).

(** The literal given to [.get(api_type, ...)] in [set_api_config]. *)
Definition fallback_entry : own_entry :=
  OwnE (list_to_map [("api_key", ""); ("base_url", ""); ("model_name", "")])
       (Some (OwnList [])).

(** [o1] is the outcome of the write [load_config] attempts when the file is
    missing, [o2] that of the final [save_config]. *)
Definition set_api_config (api_type : string)
    (api_key base_url model_name : option string)
    (o1 o2 : io_outcome) (w : world) : entry * world :=
  let '(c, w1) := load_config o1 w in
  let fr := Frame c (default_config w1) in
  let fr :=
    match dict_lookup fr api_type with
    | Some _ => fr
    | None =>
        dict_insert api_type
          (match store fr !! api_type with
           | Some d => copy_entry api_type d
           | None => fallback_entry
           end) fr
    end in
  let fr := cfg_setitem_opt api_type "api_key" api_key fr in
  let fr := cfg_setitem_opt api_type "base_url" base_url fr in
  let fr := cfg_setitem_opt api_type "model_name" model_name fr in
  (default (Entry ∅ None) (entry_value (store fr) <$> dict_lookup fr api_type),
   save_config o2 (config fr) (world_of (CONFIG_FILE w1) fr)).

(** *** get_model_list *)

(** The merging loop: [for m in custom: if m and m not in all_models:
    all_models.append(m)]. *)
Definition merge_models (builtin custom : list string) : list string :=
  foldl (λ all_models m,
           if PyStr.truthy m && bool_decide (m ∉ all_models)
           then all_models ++ [m]
           else all_models)
        builtin custom.

Definition get_model_list (api_type : string) (o : io_outcome) (w : world)
  : list string * world :=
  let builtin := default [] (BUILTIN_MODELS !! api_type) in
  let '(cfg, w1) := get_api_config api_type o w in
  let custom := default [] (custom_models cfg) in
  (merge_models builtin custom, w1).

(** *** add_custom_model, remove_custom_model *)

Definition add_custom_model (api_type model_name : string)
    (o1 o2 : io_outcome) (w : world) : bool * world :=
  if PyStr.blank model_name then (false, w)
  else
    let model_name := PyStr.strip model_name in
    let '(c, w1) := load_config o1 w in
    let fr := Frame c (default_config w1) in
    (* cfg = config.setdefault("api_configs", {}).setdefault(api_type, {}) *)
    let fr :=
      match dict_lookup fr api_type with
      | Some _ => fr
      | None => dict_insert api_type (OwnE ∅ None) fr
      end in
    (* customs = cfg.setdefault("custom_models", []) *)
    let fr := cfg_setdefault_customs api_type fr in
    if bool_decide (model_name ∈ cfg_customs_value api_type fr)
    then (false, world_of (CONFIG_FILE w1) fr)
    else
      let fr := customs_update api_type (λ l, l ++ [model_name]) fr in
      (true, save_config o2 (config fr) (world_of (CONFIG_FILE w1) fr)).

Definition remove_custom_model (api_type model_name : string)
    (o1 o2 : io_outcome) (w : world) : bool * world :=
  let '(c, w1) := load_config o1 w in
  let fr := Frame c (default_config w1) in
  if bool_decide (model_name ∈ cfg_customs_value api_type fr)
  then
    let fr := customs_update api_type (remove_first model_name) fr in
    (true, save_config o2 (config fr) (world_of (CONFIG_FILE w1) fr))
  else (false, w1).

(** *** The words of the specification *)

(** The effective model list as the specification words it: the builtin
    list followed by each custom model not already present. *)
Definition effective_models_spec (builtin custom : list string) : list string :=
  foldl (λ acc m, if bool_decide (m ∈ acc) then acc else acc ++ [m])
        builtin custom.

(** The catalog of a backend as the functions above show it: the persisted
    custom list and the effective list. *)
Definition catalog (api_type : string) (w : world) : list string * list string :=
  (default [] (custom_models (get_api_config api_type WriteDone w).1),
   (get_model_list api_type WriteDone w).1).

(** *** What the properties below are stated with *)

(** The configuration a call of [load_config] yields, as a value. *)
Definition loaded_value (o : io_outcome) (w : world) : document :=
  let '(c, w1) := load_config o w in config_value (default_config w1) c.

(** Its backend entries, and the custom list of one backend. *)
Definition entries_of (o : io_outcome) (w : world) : gmap string entry :=
  default ∅ (api_configs (loaded_value o w)).

Definition customs_of (o : io_outcome) (w : world) (b : string) : list string :=
  default [] (entries_of o w !! b ≫= custom_models).

(** The entry of a backend as the file has it, before any migration. *)
Definition file_entry (w : world) (b : string) : option entry :=
  match CONFIG_FILE w with
  | Holds doc => api_configs doc ≫= (.!! b)
  | _ => None
  end.

(** Every entry of [DEFAULT_CONFIG] has the key [custom_models]: true of the
    module text, and kept by the functions above. *)
Definition defaults_ok (D : gmap string entry) : Prop :=
  map_Forall (λ _ d, is_Some (custom_models d)) D.

(** Migration of one backend, on values: the entry of the file [oe] and the
    entry of [DEFAULT_CONFIG] [od]. *)
Definition fill (oe od : option entry) : option entry :=
  match oe, od with
  | Some e, Some d =>
      Some (Entry (fields e ∪ fields d) (Some (default [] (custom_models e))))
  | Some e, None => Some e
  | None, _ => od
  end.

(** [e[k] = v], [if v is not None: e[k] = v] on values. *)
Definition setitem (k v : string) (e : entry) : entry :=
  Entry (<[k := v]> (fields e)) (custom_models e).

Definition setitem_opt (k : string) (v : option string) (e : entry) : entry :=
  match v with Some s => setitem k s e | None => e end.

(** The value of [fallback_entry]. *)
Definition fallback_value : entry :=
  Entry (list_to_map [("api_key", ""); ("base_url", ""); ("model_name", "")])
        (Some []).

(** A list method applied to the custom list of an entry, and
    [setdefault("custom_models", [])], on values. *)
Definition on_customs (h : list string → list string) (e : entry) : entry :=
  Entry (fields e) (h <$> custom_models e).

Definition setdefault_customs (e : entry) : entry :=
  Entry (fields e) (Some (default [] (custom_models e))).

(** The value of the entry under [b] in a frame. *)
Definition frame_entry (fr : frame) (b : string) : option entry :=
  entry_value (store fr) <$> dict_lookup fr b.

(** The sharing [load_config] sets up: an object of [DEFAULT_CONFIG] is only
    ever found under its own backend name, and it exists. *)
Definition list_ok (D : gmap string entry) (b : string) (c : option list_obj)
  : Prop :=
  match c with
  | Some (DefaultList b') => b' = b ∧ is_Some (D !! b ≫= custom_models)
  | _ => True
  end.

Definition entry_ok (D : gmap string entry) (b : string) (eo : entry_obj)
  : Prop :=
  match eo with
  | DefaultEntry b' => b' = b ∧ is_Some (D !! b)
  | OwnEntry e => list_ok D b (oe_customs e)
  end.

Definition frame_ok (fr : frame) : Prop :=
  match cfg_api_configs (config fr) with
  | DefaultDict => True
  | OwnDict m => ∀ b eo, m !! b = Some eo → entry_ok (store fr) b eo
  end.

Definition fresh_customs (c : option list_obj) : Prop :=
  match c with Some (DefaultList _) => False | _ => True end.

(** [fr'] is [fr] after a step that acts as [g] on the value of the entry
    under [b] and leaves every other entry and the top-level keys alone. *)
Definition evolves (b : string) (g : option entry → option entry)
    (fr fr' : frame) : Prop :=
  frame_ok fr'
  ∧ frame_entry fr' b = g (frame_entry fr b)
  ∧ (∀ b2, b2 ≠ b → frame_entry fr' b2 = frame_entry fr b2)
  ∧ cfg_unknown_keys (config fr') = cfg_unknown_keys (config fr).

(** *** Sample states *)

(** A file written by hand: one backend with a proxy endpoint, a custom
    model and a key the schema does not know, next to an unknown top-level
    key. *)
Definition sample_document : document :=
  Document
    (Some (list_to_map
       [("Gemini Native",
         Entry (list_to_map [("api_key", "AIzaSy-old");
                             ("base_url", "https://proxy.example");
                             ("note", "mine")])
               (Some ["my-model"]))]))
    (list_to_map [("ui_theme", "dark")]).

Definition sample_world : world := fresh_world (Holds sample_document).

(** A file whose custom list holds an empty string. *)
Definition empty_name_world : world :=
  fresh_world
    (Holds (Document
              (Some (list_to_map [("Gemini Native", Entry ∅ (Some [""]))]))
              ∅)).

(** *** What the further properties are stated with *)

(** The entry [e] of a configuration has every key of the default entry [d]
    and a custom list: migration of [e] against [d] changes nothing. *)
Definition covers (e d : entry) : Prop :=
  (∀ k, is_Some (fields d !! k) → is_Some (fields e !! k))
  ∧ is_Some (custom_models e).

(** Every backend of [DEFAULT_CONFIG] has an entry in the configuration,
    which covers the one of [DEFAULT_CONFIG]. *)
Definition covered (fr : frame) : Prop :=
  ∀ b d, store fr !! b = Some d → ∃ e, frame_entry fr b = Some e ∧ covers e d.

(** What a step that acts as [G] on the entry under [b] does to
    [DEFAULT_CONFIG]: its entry under [b] is left alone, or changed by [G],
    or it is the entry of the configuration; the others are left alone. *)
Definition store_step (b : string) (G : entry → entry) (fr fr' : frame) : Prop :=
  (∀ d', store fr' !! b = Some d' →
     store fr !! b = Some d'
     ∨ (∃ d, store fr !! b = Some d ∧ d' = G d)
     ∨ frame_entry fr' b = Some d')
  ∧ ∀ b2, b2 ≠ b → store fr' !! b2 = store fr !! b2.

(** [G] only adds keys and keeps the custom list in place. *)
Definition grows (G : entry → entry) : Prop :=
  ∀ e d, covers e d → covers (G e) d ∧ covers (G e) (G d).

(** The invariant the functions of [config.py] keep on the frame. *)
Definition sound (fr : frame) : Prop :=
  frame_ok fr ∧ defaults_ok (store fr) ∧ covered fr.

(** The entry under [b] is [DEFAULT_CONFIG]'s own, or a copy of it that
    holds [DEFAULT_CONFIG]'s list. *)
Definition shares_list (fr : frame) (b : string) : Prop :=
  dict_lookup fr b = Some (DefaultEntry b)
  ∨ ∃ e, dict_lookup fr b = Some (OwnEntry e)
         ∧ oe_customs e = Some (DefaultList b).

End Config.

(** ** nodes_gemini.py *)

Module Gemini.

(** *** Exceptions, effects *)

Inductive exn :=
  | ValueError (msg : string)
  | ImportError (msg : string)
  | RuntimeError (msg : string)
  | UnboundLocalError (name : string).

Inductive outcome (A : Type) :=
  | Returned (a : A)
  | Raised (e : exn).
Arguments Returned {A} a.
Arguments Raised {A} e.

(** Raw image bytes, a PIL image, the host's image batch and mask: their
    contents are never looked at here. *)
Definition bytes := string.
Definition pil := string.
Definition tensor := list string.
Definition mask_tensor := string.

(** An element of the [contents] list. *)
Inductive content :=
  | Prompt (s : string)
  | Picture (p : pil).

(** [GenerateContentConfig]: the response modalities are constant; the
    image configuration holds the two optional knobs. *)
Record gen_config := GenConfig {
  image_size : option string;
  aspect_ratio_knob : option string
}.

(** What [generate] does to the outside, in order.  ([logger.info] calls
    are left out.) *)
Inductive event :=
  | CreateClient (api_key : string) (base_url : option string)
  | BackendCall (model : string) (contents : list content) (cfg : gen_config)
  | LogWarning (msg : string)
  | LogError (msg : string).

(** A computation that logs events and returns or raises. *)
Definition M (A : Type) : Type := list event * outcome A.

Definition ret {A} (a : A) : M A := ([], Returned a).
Definition raise {A} (e : exn) : M A := ([], Raised e).
Definition emit (ev : event) : M unit := ([ev], Returned tt).
Definition bind {A B} (m : M A) (k : A → M B) : M B :=
  match m with
  | (l, Returned a) => let '(l', r) := k a in (l ++ l', r)
  | (l, Raised e) => (l, Raised e)
  end.

Notation "'do' x <- m ; k" := (bind m (λ x, k))
  (at level 10, x name, m at level 100, k at level 200).
Notation "'run' m ; k" := (bind m (λ _, k))
  (at level 10, m at level 100, k at level 200).

(** *** The response of the SDK *)

Record safety_rating := SafetyRating {
  category : string;
  probability : string;
  blocked : bool            (* [hasattr(r, 'blocked') and r.blocked] *)
}.

Record candidate := Candidate {
  finish_reason : option string;   (* [str(cand.finish_reason)] when there *)
  safety_ratings : list safety_rating
}.

(** [part.inline_data.data]: bytes, a str ([base64.b64decode] gives bytes or
    raises), or something else. *)
Inductive raw_data :=
  | RawBytes (b : bytes)
  | RawStr (decoded : string + bytes)
  | RawOther.

Record blob := Blob {
  as_image : option bytes;   (* PNG bytes of [part.as_image()]; [None]: raises *)
  data : raw_data
}.

Record part := Part {
  thought : bool;            (* [hasattr(part, 'thought') and part.thought] *)
  text : option string;
  inline_data : option blob
}.

Record response_t := Response {
  parts : list part;
  candidates : list candidate
}.

(** *** The surroundings of [generate] *)

Record environment := Env {
  (** [Some e]: importing the SDK or PIL raises [ImportError e]. *)
  sdk_import : option string;
  (** [utils.sanitize_url], taken to return. *)
  sanitize_url : string → string;
  (** [genai.Client] on the key and the endpoint: [Some e] when it raises
      [e]. *)
  new_client : string → option string → option string;
  (** [utils.tensor_to_pil]: the exception text, or the images. *)
  tensor_to_pil : tensor → string + list pil;
  (** [utils.mask_to_pil]: the exception text, or an image or [None]. *)
  mask_to_pil : mask_tensor → string + option pil;
  (** [client.models.generate_content] at the call of index [gen_idx]: the
      text of the exception it raises, or its response. *)
  generate_content :
    nat → string → list content → gen_config → string + response_t
}.

Definition MODEL_REF_IMAGE_LIMITS : gmap string (nat * nat) :=
  list_to_map [("gemini-2.5-flash-image", (0, 3));
               ("gemini-3-pro-image-preview", (0, 14))].

(** Modelled from the spec: [utils.validate_ref_images], whose file is not
    among the sources.  Section 4.3: fails with a constraint-violation error
    of the InvalidInput kind when the count of reference images falls
    outside the registered inclusive (min, max) of the model; a model absent
    from the table imposes no constraint.  No reference batch counts as zero
    images. *)
Definition validate_ref_images (backend model : string)
    (ref_images : option tensor) (limits : gmap string (nat * nat)) : M unit :=
  let count := match ref_images with Some t => length t | None => 0 end in
  match limits !! model with
  | Some (lo, hi) =>
      if ((lo <=? count) && (count <=? hi))%nat then ret tt
      else raise (ValueError ("[APIImage " +:+ backend +:+
                    "] Reference image count is outside the range accepted by model '"
                    +:+ model +:+ "'."))
  | None => ret tt
  end.

(** *** generate *)

(** The [except] clause around [generate_content]. *)
Definition classify_error (effective_model error_str : string) : exn :=
  if PyStr.contains "401" error_str || PyStr.contains "UNAUTHENTICATED" error_str
  then RuntimeError ("[APIImage Gemini] Authentication failed (401). " +:+
                     "Please check your Google API key.")
  else if PyStr.contains "404" error_str || PyStr.contains "NOT_FOUND" error_str
  then RuntimeError ("[APIImage Gemini] Model '" +:+ effective_model +:+
                     "' not found (404).")
  else if PyStr.contains "403" error_str
          || PyStr.contains "PERMISSION_DENIED" error_str
  then RuntimeError ("[APIImage Gemini] Permission denied (403). " +:+
                     "Check billing at: https://aistudio.google.com")
  else if PyStr.contains "429" error_str
          || PyStr.contains "RESOURCE_EXHAUSTED" error_str
  then RuntimeError ("[APIImage Gemini] API quota exceeded (429). " +:+
                     "Wait for quota reset or switch to a different model.")
  else if PyStr.contains "503" error_str || PyStr.contains "UNAVAILABLE" error_str
  then RuntimeError
         "[APIImage Gemini] Model overloaded (503). Retry in 1-2 minutes."
  else if PyStr.contains "timed out" (PyStr.lower error_str)
          || PyStr.contains "timeout" (PyStr.lower error_str)
  then RuntimeError "[APIImage Gemini] Network timeout. Check your connection."
  else RuntimeError ("[APIImage Gemini] API Error: " +:+ error_str).

(** The local variables the loop carries: the two accumulators and
    [response], unbound before the first iteration. *)
Record loop_state := LoopState {
  all_images_data : list bytes;
  all_text_messages : list string;
  response : option response_t
}.

(** The nested [try] blocks that turn an inline part into bytes. *)
Definition extract_image (b : blob) : M (option bytes) :=
  match as_image b with
  | Some png => ret (Some png)
  | None =>
      match data b with
      | RawBytes raw => ret (Some raw)
      | RawStr (inr raw) => ret (Some raw)
      | RawStr (inl e2) =>
          run emit (LogError ("[Gemini] Failed to extract image: " +:+ e2));
          ret None
      | RawOther => ret None
      end
  end.

(** One turn of [for part in response.parts]. *)
Definition parse_part (st : loop_state) (p : part) : M loop_state :=
  if thought p then ret st
  else
    match text p with
    | Some t =>
        ret (LoopState (all_images_data st) (all_text_messages st ++ [t])
                       (response st))
    | None =>
        match inline_data p with
        | Some b =>
            do img <- extract_image b;
            ret (match img with
                 | Some i => LoopState (all_images_data st ++ [i])
                                       (all_text_messages st) (response st)
                 | None => st
                 end)
        | None => ret st
        end
    end.

Fixpoint parse_parts (st : loop_state) (ps : list part) : M loop_state :=
  match ps with
  | [] => ret st
  | p :: ps' => do st' <- parse_part st p; parse_parts st' ps'
  end.

(** [for gen_idx in range(num_images)], with [n] turns left. *)
Fixpoint api_loop (E : environment) (effective_model : string)
    (contents : list content) (cfg : gen_config)
    (n gen_idx : nat) (st : loop_state) : M loop_state :=
  match n with
  | O => ret st
  | S n' =>
      run emit (BackendCall effective_model contents cfg);
      match generate_content E gen_idx effective_model contents cfg with
      | inl error_str => raise (classify_error effective_model error_str)
      | inr resp =>
          do st' <- parse_parts (LoopState (all_images_data st)
                                           (all_text_messages st) (Some resp))
                                (parts resp);
          api_loop E effective_model contents cfg n' (S gen_idx) st'
      end
  end.

Definition newline : string := String (ascii_of_nat 10) EmptyString.

(** What one candidate adds to [error_parts]. *)
Definition candidate_error_parts (cand : candidate) : list string :=
  (match finish_reason cand with
   | Some reason_str =>
       if PyStr.truthy reason_str
          && negb (bool_decide (reason_str ∈ ["STOP"; "FinishReason.STOP"]))
       then ["Blocked: " +:+ reason_str]
       else []
   | None => []
   end)
  ++
  (let blocked_cats :=
     (λ r, category r +:+ "=" +:+ probability r)
       <$> filter (λ r, blocked r = true) (safety_ratings cand) in
   match blocked_cats with
   | [] => []
   | _ => ["Safety: " +:+ PyStr.join ", " blocked_cats]
   end).

(** Lines 279 to 315: the text, the failure when no image was extracted,
    the result otherwise.  The host tensor returned is
    [utils.bytes_to_tensor] of the byte strings listed here. *)
Definition finish (st : loop_state) : M (list bytes * string) :=
  let text_response :=
    match all_text_messages st with
    | [] => ""
    | msgs => PyStr.join newline msgs
    end in
  match all_images_data st with
  | [] =>
      match response st with
      | None => raise (UnboundLocalError "response")
      | Some resp =>
          let error_parts := concat (candidate_error_parts <$> candidates resp) in
          let error_parts :=
            match all_text_messages st with
            | [] => error_parts
            | _ => error_parts ++
                     ["Model response: " +:+ PyStr.take 500 text_response]
            end in
          let error_parts :=
            match error_parts with
            | [] => ["No image data in response"]
            | _ => error_parts
            end in
          raise (RuntimeError ("[APIImage Gemini] Generation failed: " +:+
                               PyStr.join " | " error_parts))
      end
  | imgs => ret (imgs, text_response)
  end.

(** Lines 188 to 208: the [contents] list. *)
Definition prepare_contents (E : environment) (prompt : string)
    (ref_images : option tensor) (mask : option mask_tensor)
  : M (list content) :=
  let contents := [Prompt prompt] in
  do contents <-
    match ref_images with
    | Some t =>
        match tensor_to_pil E t with
        | inr batch_pil => ret (contents ++ (Picture <$> batch_pil))
        | inl e =>
            run emit (LogWarning ("[Gemini] Failed to process ref_images: "
                                  +:+ e));
            ret contents
        end
    | None => ret contents
    end;
  match mask with
  | Some m =>
      match mask_to_pil E m with
      | inr (Some mask_pil) => ret (contents ++ [Picture mask_pil])
      | inr None => ret contents
      | inl e =>
          run emit (LogWarning ("[Gemini] Failed to process mask: " +:+ e));
          ret contents
      end
  | None => ret contents
  end.

(** [s if s and s != "Default" else absent] *)
Definition knob (s : string) : option string :=
  if PyStr.truthy s && negb (bool_decide (s = "Default")) then Some s else None.

Definition effective_model_of (custom_model model_name : string) : string :=
  if PyStr.truthy custom_model && PyStr.truthy (PyStr.strip custom_model)
  then PyStr.strip custom_model
  else model_name.

(** The [http_options] the client gets: [{"base_url": effective_url}] when
    [sanitize_url(base_url)] is not empty. *)
Definition http_options (E : environment) (base_url : string) : option string :=
  if PyStr.truthy (sanitize_url E base_url)
  then Some (sanitize_url E base_url) else None.

(** [generate].  The [import torch] of its first line is taken to succeed:
    the host that calls the node is built on it.  [seed] is only logged. *)
Definition generate (E : environment) (prompt api_key model_name : string)
    (num_images : Z) (aspect_ratio resolution base_url : string)
    (ref_images : option tensor) (mask : option mask_tensor)
    (custom_model : string) (seed : Z) : M (list bytes * string) :=
  if PyStr.blank prompt then
    raise (ValueError ("[APIImage Gemini] Prompt is empty. " +:+
      "Please enter a text prompt describing the image you want to generate."))
  else if PyStr.blank api_key then
    raise (ValueError ("[APIImage Gemini] API Key is not set. " +:+
      "Please provide a valid Google API key (format: AIzaSy...). " +:+
      "Get one at: https://aistudio.google.com/apikey"))
  else
    let effective_model := effective_model_of custom_model model_name in
    match sdk_import E with
    | Some e =>
        raise (ImportError ("[APIImage Gemini] Missing required package: " +:+
                            e +:+ ". " +:+
                            "Please run: pip install google-genai Pillow"))
    | None =>
        run emit (CreateClient (PyStr.strip api_key)
                               (http_options E base_url));
        match new_client E (PyStr.strip api_key) (http_options E base_url) with
        | Some e =>
            raise (RuntimeError
                     ("[APIImage Gemini] Failed to create Gemini client: " +:+
                      e +:+ ". " +:+ "Please verify your API key is valid."))
        | None =>
            let cfg := GenConfig (knob resolution) (knob aspect_ratio) in
            run validate_ref_images "Gemini" effective_model ref_images
                                    MODEL_REF_IMAGE_LIMITS;
            do contents <- prepare_contents E prompt ref_images mask;
            do st <- api_loop E effective_model contents cfg
                              (Z.to_nat num_images) 0 (LoopState [] [] None);
            finish st
        end
    end.

(** The backend invocations in a trace. *)
Definition is_call (ev : event) : bool :=
  match ev with BackendCall _ _ _ => true | _ => false end.

Definition is_client (ev : event) : bool :=
  match ev with CreateClient _ _ => true | _ => false end.

Definition calls (tr : list event) : nat := length (filter (λ ev, is_call ev = true) tr).

(** *** What the properties below are stated with *)

(** Empty or made of whitespace only. *)
Definition whitespace_only (s : string) : Prop :=
  Forall (λ a, PyStr.is_space a = true) (list_ascii_of_string s).

(** The number of reference images of a request. *)
Definition ref_count (ref_images : option tensor) : nat :=
  match ref_images with Some t => length t | None => 0 end.

(** The stages before the reference images are looked at all pass. *)
Definition reaches_validation (E : environment)
    (prompt api_key base_url : string) : Prop :=
  PyStr.blank prompt = false ∧ PyStr.blank api_key = false
  ∧ sdk_import E = None
  ∧ new_client E (PyStr.strip api_key) (http_options E base_url) = None.

(** The inputs left once those whose conversion raises are set aside. *)
Definition usable_refs (E : environment) (ref_images : option tensor)
  : option tensor :=
  match ref_images with
  | Some t => match tensor_to_pil E t with inl _ => None | inr _ => Some t end
  | None => None
  end.

Definition usable_mask (E : environment) (mask : option mask_tensor)
  : option mask_tensor :=
  match mask with
  | Some m => match mask_to_pil E m with inl _ => None | inr _ => Some m end
  | None => None
  end.

(** The warnings the failed conversions produce. *)
Definition conversion_warnings (E : environment)
    (ref_images : option tensor) (mask : option mask_tensor) : list event :=
  match ref_images with
  | Some t =>
      match tensor_to_pil E t with
      | inl e => [LogWarning ("[Gemini] Failed to process ref_images: " +:+ e)]
      | inr _ => []
      end
  | None => []
  end
  ++
  match mask with
  | Some m =>
      match mask_to_pil E m with
      | inl e => [LogWarning ("[Gemini] Failed to process mask: " +:+ e)]
      | inr _ => []
      end
  | None => []
  end.

Definition is_warning (ev : event) : bool :=
  match ev with LogWarning _ => true | _ => false end.

Definition quiet (tr : list event) : Prop :=
  Forall (λ ev, is_warning ev = false) tr.

(** The images and the texts one response adds to the accumulators. *)
Definition part_images (p : part) : list bytes :=
  if thought p then []
  else match text p, inline_data p with
       | None, Some b =>
           match (extract_image b).2 with
           | Returned (Some i) => [i]
           | _ => []
           end
       | _, _ => []
       end.

Definition part_texts (p : part) : list string :=
  if thought p then []
  else match text p with Some t => [t] | None => [] end.

Definition images_of (r : response_t) : list bytes :=
  concat (part_images <$> parts r).

Definition texts_of (r : response_t) : list string :=
  concat (part_texts <$> parts r).

(** [text_response] for the responses [rs]. *)
Definition text_response_of (rs : list response_t) : string :=
  match concat (texts_of <$> rs) with
  | [] => ""
  | msgs => PyStr.join newline msgs
  end.

(** *** Sample surroundings *)

Definition image_part (b : bytes) : part :=
  Part false None (Some (Blob (Some b) RawOther)).

Definition text_part (t : string) : part := Part false (Some t) None.

(** Everything works and the backend answers as [backend] says. *)
Definition plain_env (backend : nat → string + response_t) : environment :=
  Env None (λ u, u) (λ _ _, None) (λ t, inr t) (λ m, inr (Some m))
      (λ gen_idx _ _ _, backend gen_idx).

(** The first call returns an image, every later call raises. *)
Definition second_call_fails : environment :=
  plain_env (λ gen_idx,
    match gen_idx with
    | 0 => inr (Response [image_part "PNG-1"]
                         [Candidate (Some "FinishReason.STOP") []])
    | _ => inl "500 INTERNAL"
    end).

(** The first response is blocked for safety, the later ones are a refusal
    in words; none carries an image. *)
Definition blocked_then_refused : environment :=
  plain_env (λ gen_idx,
    match gen_idx with
    | 0 => inr (Response []
                  [Candidate (Some "FinishReason.SAFETY")
                     [SafetyRating "HARM_CATEGORY_DANGEROUS_CONTENT" "HIGH"
                                   true]])
    | _ => inr (Response [text_part "I cannot draw that."]
                  [Candidate (Some "FinishReason.STOP") []])
    end).

(** The conversions of the reference images and of the mask both raise. *)
Definition conversions_fail : environment :=
  Env None (λ u, u) (λ _ _, None)
      (λ _, inl "cannot reshape tensor") (λ _, inl "mask has no pixels")
      (λ _ _ _ _, inr (Response [image_part "PNG-1"]
                                [Candidate (Some "FinishReason.STOP") []])).

(** *** What the further properties are stated with *)

(** The images the conversions hand over: those of the reference batch and
    that of the mask, none where the input is absent or its conversion
    raises (or, for the mask, gives [None]). *)
Definition converted_refs (E : environment) (ref_images : option tensor)
  : list pil :=
  match ref_images with
  | Some t => match tensor_to_pil E t with inr ps => ps | inl _ => [] end
  | None => []
  end.

Definition converted_mask (E : environment) (mask : option mask_tensor)
  : list pil :=
  match mask with
  | Some m => match mask_to_pil E m with inr (Some p) => [p] | _ => [] end
  | None => []
  end.

End Gemini.

(** ** nodes_config.py *)

(** [APIImageConfigLoader] *)
Module APIImageConfigLoader.
Import Config.

(** [x.strip() if x and x.strip() else saved] *)
Definition override (x saved : string) : string :=
  if PyStr.truthy x && PyStr.truthy (PyStr.strip x) then PyStr.strip x
  else saved.

(** [cfg.get(k, "")] *)
Definition cfg_get (cfg : entry) (k : string) : string :=
  default "" (fields cfg !! k).

(** [load]: the three outputs, the warnings logged, the state left.
    ([logger.info] calls are left out.) *)
Definition load (api_type api_key_override base_url_override model_override
                 : string) (o : io_outcome) (w : world)
  : (string * string * string) * list string * world :=
  let '(cfg, w1) := get_api_config api_type o w in
  let api_key := override api_key_override (cfg_get cfg "api_key") in
  let base_url := override base_url_override (cfg_get cfg "base_url") in
  let model_name := override model_override (cfg_get cfg "model_name") in
  ((api_key, base_url, model_name),
   (if PyStr.truthy api_key then []
    else ["[ConfigLoader] No API key found for " +:+ api_type +:+
          ". Please configure it."]),
   w1).

End APIImageConfigLoader.

(** [APIImageConfigSaver] *)
Module APIImageConfigSaver.
Import Config.

(** What [save_kwargs] gets for one input: [x.strip()] under its key when
    [x and x.strip()], no key otherwise. *)
Definition kwarg (x : string) : option string :=
  if PyStr.truthy x && PyStr.truthy (PyStr.strip x) then Some (PyStr.strip x)
  else None.

(** [list(save_kwargs.keys())]: the keys in the order of their insertion. *)
Definition kwarg_keys (api_key base_url model_name : option string)
  : list string :=
  match api_key with Some _ => ["api_key"] | None => [] end
  ++ match base_url with Some _ => ["base_url"] | None => [] end
  ++ match model_name with Some _ => ["model_name"] | None => [] end.

(** How an f-string prints a list of such keys: [['api_key', 'base_url']]. *)
Definition list_repr (ks : list string) : string :=
  "[" +:+ PyStr.join ", " ((λ k, "'" +:+ k +:+ "'") <$> ks) +:+ "]".

(** The outcomes of the writes one call of [save] may attempt: for each of
    the three functions of [config.py] it calls, the write of [load_config]
    on a missing file and the final [save_config]. *)
Record save_io := SaveIO {
  set_load : io_outcome;
  set_save : io_outcome;
  add_load : io_outcome;
  add_save : io_outcome;
  remove_load : io_outcome;
  remove_save : io_outcome
}.

(** [save]: the status and the state left. *)
Definition save (api_type api_key base_url model_name
                 add_custom_model_name remove_custom_model_name : string)
    (io : save_io) (w : world) : string * world :=
  let keys := kwarg_keys (kwarg api_key) (kwarg base_url) (kwarg model_name) in
  let '(status_parts, w) :=
    match keys with
    | [] => ([], w)
    | _ =>
        (["Saved config for " +:+ api_type +:+ ": " +:+ list_repr keys],
         (set_api_config api_type (kwarg api_key) (kwarg base_url)
                         (kwarg model_name) (set_load io) (set_save io) w).2)
    end in
  let '(status_parts, w) :=
    match kwarg add_custom_model_name with
    | Some n =>
        let '(added, w') :=
          add_custom_model api_type n (add_load io) (add_save io) w in
        (status_parts ++
           [if added then "Added custom model: " +:+ n
            else "Model already exists: " +:+ n],
         w')
    | None => (status_parts, w)
    end in
  let '(status_parts, w) :=
    match kwarg remove_custom_model_name with
    | Some n =>
        let '(removed, w') :=
          remove_custom_model api_type n (remove_load io) (remove_save io) w in
        (status_parts ++
           [if removed then "Removed custom model: " +:+ n
            else "Model not found: " +:+ n],
         w')
    | None => (status_parts, w)
    end in
  (match status_parts with
   | [] => "No changes to save"
   | _ => PyStr.join " | " status_parts
   end,
   w).

End APIImageConfigSaver.

(** ** nodes_gemini.py: the inputs of the node *)

Module GeminiImageGenerate.
Import Config.

(** The entries of the dict [INPUT_TYPES] returns that are computed from the
    configuration: the choices of [model_name] and their default, and the
    defaults of [api_key] and [base_url].  All its other entries are
    literals. *)
Record input_types := InputTypes {
  models : list string;
  model_default : string;
  api_key_default : string;
  base_url_default : string
}.

(** [INPUT_TYPES]; [o1] and [o2] are the outcomes of the writes its two
    loads attempt on a missing file. *)
Definition INPUT_TYPES (o1 o2 : io_outcome) (w : world) : input_types * world :=
  let '(models, w1) := get_model_list "Gemini Native" o1 w in
  let models :=
    match models with
    | [] => default ["gemini-2.5-flash-image"]
                    (BUILTIN_MODELS !! "Gemini Native")
    | _ => models
    end in
  let '(saved_config, w2) := get_api_config "Gemini Native" o2 w1 in
  let saved_key := default "" (fields saved_config !! "api_key") in
  let saved_url := default "" (fields saved_config !! "base_url") in
  (InputTypes models
              (match models with
               | m :: _ => m
               | [] => "gemini-2.5-flash-image"
               end)
              saved_key saved_url,
   w2).

End GeminiImageGenerate.

(** ** nodes_save.py *)

Module APIImageSave.

(** A host object that is only handed on ([prompt], the values of
    [extra_pnginfo]). *)
Definition pyobj := string.

(** The surroundings of [save_images]. *)
Record host := Host {
  (** [folder_paths.get_output_directory()]; [None] when the module
      [folder_paths] could not be imported. *)
  output_directory : option string;
  (** [os.path.dirname(os.path.abspath(__file__))] *)
  module_dir : string;
  (** [os.path.join] *)
  path_join : string → string → string;
  (** [os.makedirs(d, exist_ok=True)]: the text of the exception, if any. *)
  makedirs : string → option string;
  (** [utils.tensor_to_pil]: the exception text, or the images. *)
  tensor_to_pil : Gemini.tensor → string + list Gemini.pil;
  (** [datetime.now().strftime("%Y%m%d_%H%M%S")] in the turn of index [i]. *)
  now : nat → string;
  (** [from PIL import PngImagePlugin]: the text of the exception, if any. *)
  png_plugin : option string;
  (** [json.dumps]: the exception text, or the JSON text. *)
  json_dumps : pyobj → string + string;
  (** [img.save(filepath, pnginfo=metadata)] in the turn of index [i]: the
      text of the exception, if any. *)
  img_save : nat → string → Gemini.pil → list (string * string) → option string
}.

(** The exceptions that leave [save_images], by the call that raised. *)
Inductive failure :=
  | MakedirsRaised (e : string)
  | ConversionRaised (e : string)
  | ImportRaised (e : string)
  | DumpsRaised (e : string)
  | SaveRaised (e : string).

(** What [save_images] does to the file system, in order. *)
Inductive event :=
  | MakeDirs (d : string)
  | SaveImage (filepath : string) (img : Gemini.pil)
              (metadata : list (string * string)).

(** One element of [results]. *)
Record saved := Saved {
  filename : string;
  subfolder : string;
  type_ : string
}.

(** [f"{i:04d}"]: the decimal digits of [i], with zeros in front up to four
    characters. *)
Definition format_04d (i : nat) : string :=
  let s := NilEmpty.string_of_uint (Nat.to_uint i) in
  string_of_list_ascii (replicate (4 - String.length s) "0"%char) +:+ s.

(** [f"{filename_prefix}_{timestamp}_{i:04d}.png"] *)
Definition filename_of (filename_prefix timestamp : string) (i : nat) : string :=
  filename_prefix +:+ "_" +:+ timestamp +:+ "_" +:+ format_04d i +:+ ".png".

(** [for k, v in extra_pnginfo.items(): metadata.add_text(k, json.dumps(v))] *)
Fixpoint dump_items (h : host) (items : list (string * pyobj))
  : string + list (string * string) :=
  match items with
  | [] => inr []
  | (k, v) :: rest =>
      match json_dumps h v with
      | inl e => inl e
      | inr t =>
          match dump_items h rest with
          | inl e => inl e
          | inr l => inr ((k, t) :: l)
          end
      end
  end.

(** The text chunks of [metadata]: [prompt] first, then the items of
    [extra_pnginfo]. *)
Definition build_metadata (h : host) (prompt : option pyobj)
    (extra_pnginfo : option (list (string * pyobj)))
  : string + list (string * string) :=
  match
    match prompt with
    | Some p =>
        match json_dumps h p with
        | inl e => inl e
        | inr t => inr [("prompt", t)]
        end
    | None => inr []
    end
  with
  | inl e => inl e
  | inr l =>
      match extra_pnginfo with
      | Some items =>
          match dump_items h items with
          | inl e => inl e
          | inr l' => inr (l ++ l')
          end
      | None => inr l
      end
  end.

(** The directory the images go to. *)
Definition out_dir_of (h : host) (output_dir : string) : string :=
  if PyStr.truthy output_dir && PyStr.truthy (PyStr.strip output_dir)
  then PyStr.strip output_dir
  else match output_directory h with
       | Some d => d
       | None => path_join h (module_dir h) "output"
       end.

(** [for i, img in enumerate(pil_images)], from index [i] on: the calls
    made, then the exception or the list [results]. *)
Fixpoint save_loop (h : host) (filename_prefix out_dir : string)
    (prompt : option pyobj) (extra_pnginfo : option (list (string * pyobj)))
    (i : nat) (pil_images : list Gemini.pil) (results : list saved)
  : list event * (failure + list saved) :=
  match pil_images with
  | [] => ([], inr results)
  | img :: rest =>
      let fname := filename_of filename_prefix (now h i) i in
      let filepath := path_join h out_dir fname in
      match png_plugin h with
      | Some e => ([], inl (ImportRaised e))
      | None =>
          match build_metadata h prompt extra_pnginfo with
          | inl e => ([], inl (DumpsRaised e))
          | inr metadata =>
              match img_save h i filepath img metadata with
              | Some e => ([SaveImage filepath img metadata], inl (SaveRaised e))
              | None =>
                  let '(tr, r) :=
                    save_loop h filename_prefix out_dir prompt extra_pnginfo
                              (S i) rest
                              (results ++ [Saved fname "" "output"]) in
                  (SaveImage filepath img metadata :: tr, r)
              end
          end
      end
  end.

(** [save_images]: the calls made, then the exception or the list under
    [ui.images] of the dict returned. *)
Definition save_images (h : host) (images : Gemini.tensor)
    (filename_prefix output_dir : string)
    (prompt : option pyobj) (extra_pnginfo : option (list (string * pyobj)))
  : list event * (failure + list saved) :=
  let out_dir := out_dir_of h output_dir in
  match makedirs h out_dir with
  | Some e => ([MakeDirs out_dir], inl (MakedirsRaised e))
  | None =>
      match tensor_to_pil h images with
      | inl e => ([MakeDirs out_dir], inl (ConversionRaised e))
      | inr pil_images =>
          let '(tr, r) :=
            save_loop h filename_prefix out_dir prompt extra_pnginfo
                      0 pil_images [] in
          (MakeDirs out_dir :: tr, r)
      end
  end.

(** *** Sample surroundings *)

(** A host whose calls all succeed; the clock stands still. *)
Definition plain_host : host :=
  Host (Some "/comfy/output") "/plugins/apiimage"
       (λ d f, d +:+ "/" +:+ f) (λ _, None) (λ t, inr t)
       (λ _, "20260101_120000") None (λ v, inr v) (λ _ _ _ _, None).

(** The same host with a disk that takes one image and no more. *)
Definition disk_fills_up : host :=
  Host (Some "/comfy/output") "/plugins/apiimage"
       (λ d f, d +:+ "/" +:+ f) (λ _, None) (λ t, inr t)
       (λ _, "20260101_120000") None (λ v, inr v)
       (λ i _ _ _, match i with
                   | 0 => None
                   | _ => Some "No space left on device"
                   end).

(** *** What the properties below are stated with *)

(** The number a string of decimal digits stands for. *)
Definition digits_value (s : string) : option nat :=
  Nat.of_uint <$> NilEmpty.uint_of_string s.

End APIImageSave.

(** ** __init__.py *)

Module Init.

(** (import name, pip name) *)
Definition _REQUIRED_PACKAGES : list (string * string) :=
  [("PIL", "Pillow"); ("requests", "requests");
   ("google.genai", "google-genai"); ("xai_sdk", "xai_sdk");
   ("dashscope", "dashscope")].

(** How [importlib.import_module] ends. *)
Inductive import_result :=
  | Imported
  | ImportErrorRaised
  | OtherRaised (e : string).

(** The interpreter and [pip], acting on the state [St] of the Python
    installation: an import may load modules, an install may add packages
    that later imports find.  [check_call] stands for
    [subprocess.check_call([sys.executable, "-m", "pip", "install", p, "-q"])]
    and gives the text of the exception it raises, if any. *)
Record system (St : Type) := System {
  import_module : St → string → import_result * St;
  check_call : St → string → option string * St
}.
Arguments import_module {St} _ _ _.
Arguments check_call {St} _ _ _.

Inductive event :=
  | RunPip (pip_name : string)
  | LogWarning (msg : string).

(** [for import_name, pip_name in pkgs: ...]: the trace, the exception that
    leaves the loop if any, the state left. *)
Fixpoint ensure_loop {St : Type} (sys : system St) (pkgs : list (string * string))
    (s : St) : list event * option string * St :=
  match pkgs with
  | [] => ([], None, s)
  | (import_name, pip_name) :: rest =>
      match import_module sys s import_name with
      | (Imported, s1) => ensure_loop sys rest s1
      | (OtherRaised e, s1) => ([], Some e, s1)
      | (ImportErrorRaised, s1) =>
          match check_call sys s1 pip_name with
          | (None, s2) =>
              let '(tr, r, s3) := ensure_loop sys rest s2 in
              (RunPip pip_name :: tr, r, s3)
          | (Some e, s2) =>
              let '(tr, r, s3) := ensure_loop sys rest s2 in
              (RunPip pip_name
                 :: LogWarning ("[APIImage] Failed to install " +:+ pip_name
                                +:+ ": " +:+ e +:+ ". " +:+
                                "You can install it manually: pip install "
                                +:+ pip_name)
                 :: tr, r, s3)
          end
      end
  end.

Definition _ensure_packages {St : Type} (sys : system St) (s : St)
  : list event * option string * St :=
  ensure_loop sys _REQUIRED_PACKAGES s.

(** *** What the properties below are stated with *)

(** The packages [pip] was run for, in order, and the warnings logged. *)
Definition pip_runs (tr : list event) : list string :=
  omap (λ ev, match ev with RunPip p => Some p | _ => None end) tr.

Definition install_warnings (tr : list event) : list string :=
  omap (λ ev, match ev with LogWarning m => Some m | _ => None end) tr.

End Init.

(** * Properties *)

(** ** The configuration store and the model registry *)

Section ConfigProperties.
Import Config.

(** *** Migration, on values *)

Lemma fill_fields_union (d f : gmap string string) : fill_fields d f = f ∪ d.
Proof.
  unfold fill_fields.
  apply (map_fold_weak_ind (λ r m, r = f ∪ m)).
  - by rewrite (right_id_L ∅ (∪)).
  - intros k v m r Hk ->.
    destruct ((f ∪ m) !! k) as [y|] eqn:Hu.
    + apply lookup_union_Some_raw in Hu as [Hf|[_ Hm]]; [|congruence].
      apply map_eq; intros j. rewrite !lookup_union.
      destruct (decide (j = k)) as [->|Hne].
      * rewrite lookup_insert_eq, Hf, Hk. done.
      * by rewrite lookup_insert_ne.
    + apply lookup_union_None in Hu as [Hf _].
      by rewrite insert_union_r.
Qed.

Lemma migrate_lookup (D : gmap string entry) (m : gmap string own_entry) b :
  migrate D m !! b =
    match D !! b with
    | Some d => Some (match m !! b with
                      | None => copy_entry b d
                      | Some e => migrate_entry d e
                      end)
    | None => m !! b
    end.
Proof.
  unfold migrate. revert b.
  apply (map_fold_weak_ind (λ r D', ∀ b, r !! b = match D' !! b with
    | Some d => Some (match m !! b with
                      | None => copy_entry b d
                      | Some e => migrate_entry d e
                      end)
    | None => m !! b
    end)).
  - intros b. by rewrite lookup_empty.
  - intros i d D' r Hi IH b.
    pose proof (IH i) as Hri. rewrite Hi in Hri. rewrite Hri.
    destruct (decide (b = i)) as [->|Hne].
    + rewrite lookup_insert_eq. destruct (m !! i); by rewrite lookup_insert_eq.
    + rewrite (lookup_insert_ne D') by done.
      destruct (m !! i); rewrite lookup_insert_ne by done; apply IH.
Qed.

Lemma load_config_store o w : default_config (load_config o w).2 = default_config w.
Proof.
  unfold load_config. destruct (CONFIG_FILE w) as [| |doc]; simpl; try done.
  - by destruct o.
  - by destruct (api_configs doc).
Qed.

Lemma own_value_copy_entry D b d :
  D !! b = Some d → own_value D (copy_entry b d) = d.
Proof.
  intros Hb. destruct d as [f c]. unfold own_value, copy_entry; simpl.
  f_equal. destruct c as [l|]; simpl; [|done]. by rewrite Hb.
Qed.

Lemma own_value_migrate_entry D d e :
  own_value D (migrate_entry d (json_load_entry e)) =
    Entry (fields e ∪ fields d) (Some (default [] (custom_models e))).
Proof.
  unfold own_value, migrate_entry, json_load_entry; simpl.
  rewrite fill_fields_union. f_equal. by destruct (custom_models e).
Qed.

Lemma loaded_entries_lookup D (m : gmap string entry) b :
  (entry_value D <$> (OwnEntry <$> migrate D (json_load_entry <$> m))) !! b
  = fill (m !! b) (D !! b).
Proof.
  rewrite !lookup_fmap, migrate_lookup, lookup_fmap.
  destruct (D !! b) as [d|] eqn:HD, (m !! b) as [e|] eqn:Hm; simpl; try done.
  - by rewrite own_value_migrate_entry.
  - by rewrite own_value_copy_entry.
  - unfold own_value, json_load_entry; simpl. destruct e as [f [l|]]; done.
Qed.

Lemma copied_entries_lookup (D : gmap string entry) b :
  copy_api_configs D !! b = (λ _, DefaultEntry b) <$> D !! b.
Proof.
  unfold copy_api_configs. rewrite map_lookup_imap. by destruct (D !! b).
Qed.

Lemma copied_entries_value (D : gmap string entry) :
  entry_value D <$> copy_api_configs D = D.
Proof.
  apply map_eq; intros b. rewrite lookup_fmap, copied_entries_lookup.
  destruct (D !! b) as [d|] eqn:HD; simpl; [|done]. by rewrite HD.
Qed.

Lemma loaded_value_eq o w :
  loaded_value o w =
    match CONFIG_FILE w with
    | Holds doc =>
        Document (Some (match api_configs doc with
                        | None => default_config w
                        | Some m => merge fill m (default_config w)
                        end)) (unknown_keys doc)
    | _ => Document (Some (default_config w)) ∅
    end.
Proof.
  unfold loaded_value, load_config.
  destruct (CONFIG_FILE w) as [| |doc]; simpl.
  - by destruct o.
  - done.
  - destruct (api_configs doc) as [m|]; simpl; unfold config_value; simpl.
    + do 2 f_equal. apply map_eq; intros b.
      rewrite loaded_entries_lookup, lookup_merge.
      by destruct (m !! b), (default_config w !! b).
    + by rewrite copied_entries_value.
Qed.

Lemma fill_defaults (D : gmap string entry) :
  defaults_ok D → merge fill D D = D.
Proof.
  intros Hok. apply map_eq; intros b. rewrite lookup_merge.
  destruct (D !! b) as [d|] eqn:HD; simpl; [|done].
  destruct (Hok _ _ HD) as [l Hl]. destruct d as [f c]; simpl in *.
  subst c. simpl. by rewrite (idemp_L (∪)).
Qed.

(** C9.  Loading is idempotent and only adds.  For a process whose
    [DEFAULT_CONFIG] entries all carry [custom_models] (the module text, and
    every state the functions of [config.py] reach from it): two loads in a
    row return the same configuration; so does a load of the file written
    from what a load returned; [DEFAULT_CONFIG] is left as it was.  When the
    file holds a document, its unknown top-level keys come back unchanged,
    a missing [api_configs] becomes the one of [DEFAULT_CONFIG], and each
    backend entry comes back as: the entry of [DEFAULT_CONFIG] when the file
    has none; the entry of the file when [DEFAULT_CONFIG] has none; otherwise
    the entry of the file with every key it has (known to the schema or not)
    at the value it has, the keys only [DEFAULT_CONFIG] has at their default
    value ([∪] on maps keeps the left value), and [custom_models] kept or
    set to the empty list.  [DEFAULT_CONFIG] stands for the table the
    process holds, [default_config w]; in a process that has not changed it
    these are the entries of the module text (last part, with [fill]). *)
Theorem load_config_idempotent_additive (o1 o2 : io_outcome) (w : world) :
  defaults_ok (default_config w) →
  loaded_value o2 (load_config o1 w).2 = loaded_value o1 w
  ∧ loaded_value o2 (save_config WriteDone (load_config o1 w).1 (load_config o1 w).2)
    = loaded_value o1 w
  ∧ default_config (load_config o1 w).2 = default_config w
  ∧ (∀ doc, CONFIG_FILE w = Holds doc →
       unknown_keys (loaded_value o1 w) = unknown_keys doc
       ∧ ∃ m', api_configs (loaded_value o1 w) = Some m'
          ∧ match api_configs doc with
            | None => m' = default_config w
            | Some m => ∀ b,
                m' !! b =
                  match m !! b, default_config w !! b with
                  | Some e, Some d =>
                      Some (Entry (fields e ∪ fields d)
                                  (Some (default [] (custom_models e))))
                  | Some e, None => Some e
                  | None, od => od
                  end
            end)
  ∧ (default_config w = DEFAULT_CONFIG →
     ∀ doc m b, CONFIG_FILE w = Holds doc → api_configs doc = Some m →
       entries_of o1 w !! b = fill (m !! b) (DEFAULT_CONFIG !! b)).
Proof.
  intros Hok. split; [|split; [|split; [|split]]].
  - rewrite !loaded_value_eq, load_config_store.
    unfold load_config. destruct (CONFIG_FILE w) as [| |doc] eqn:Hf; simpl.
    + destruct o1; simpl; rewrite ?Hf; try done.
      by rewrite fill_defaults.
    + by rewrite Hf.
    + destruct (api_configs doc) eqn:Ha; simpl; rewrite Hf; simpl;
        by rewrite Ha.
  - assert (Hv : config_value (default_config (load_config o1 w).2)
                              (load_config o1 w).1 = loaded_value o1 w).
    { unfold loaded_value. by destruct (load_config o1 w). }
    rewrite (loaded_value_eq o2). unfold save_config.
    cbn [CONFIG_FILE default_config]. rewrite Hv, load_config_store.
    rewrite loaded_value_eq.
    destruct (CONFIG_FILE w) as [| |doc]; simpl.
    1,2: rewrite fill_defaults by done; done.
    destruct (api_configs doc) as [m|]; simpl.
    2: { rewrite fill_defaults by done; done. }
    do 2 f_equal. apply map_eq; intros b. rewrite !lookup_merge.
    destruct (m !! b) as [e|] eqn:Hm, (default_config w !! b) as [d|] eqn:HD;
      simpl; try done.
    + rewrite <-(assoc_L (∪)), (idemp_L (∪)). done.
    + destruct (Hok _ _ HD) as [l Hl]. destruct d as [f c]; simpl in *.
      subst c. simpl. by rewrite (idemp_L (∪)).
  - apply load_config_store.
  - intros doc Hf. rewrite loaded_value_eq, Hf. simpl. split; [done|].
    eexists; split; [done|].
    destruct (api_configs doc) as [m|]; [|done].
    intros b. rewrite lookup_merge.
    by destruct (m !! b), (default_config w !! b).
  - intros Hfresh doc m b Hf Ha. rewrite <-Hfresh. unfold entries_of.
    rewrite loaded_value_eq, Hf. simpl. rewrite Ha, lookup_merge.
    by destruct (m !! b), (default_config w !! b).
Qed.

(** *** Frames: what the steps of the functions do to the values *)

Lemma dump_lookup fr b :
  dict_value (store fr) (cfg_api_configs (config fr)) !! b = frame_entry fr b.
Proof.
  unfold frame_entry, dict_lookup.
  destruct (cfg_api_configs (config fr)) as [m|]; simpl.
  - by rewrite lookup_fmap.
  - destruct (store fr !! b) as [d|] eqn:Hd; simpl; [|done]. by rewrite Hd.
Qed.

Lemma load_config_frame_ok o w :
  frame_ok (Frame (load_config o w).1 (default_config w)).
Proof.
  unfold load_config, frame_ok.
  destruct (CONFIG_FILE w) as [| |doc]; simpl; try done.
  destruct (api_configs doc) as [m|]; simpl.
  - intros b eo. rewrite lookup_fmap, migrate_lookup, lookup_fmap.
    destruct (default_config w !! b) as [d|] eqn:HD, (m !! b) as [e|] eqn:Hm;
      simpl; intros [= <-]; simpl; try done.
    + by destruct (custom_models e).
    + destruct (custom_models d) as [l|] eqn:Hl; simpl; [|done].
      split; [done|]. rewrite HD. simpl. by rewrite Hl.
    + by destruct (custom_models e).
  - intros b eo. rewrite copied_entries_lookup.
    destruct (default_config w !! b) eqn:HD; simpl; [|done].
    intros [= <-]. simpl. by rewrite HD.
Qed.

Lemma load_config_frame_entry o w b :
  frame_entry (Frame (load_config o w).1 (default_config w)) b
  = api_configs (loaded_value o w) ≫= (.!! b).
Proof.
  rewrite <-dump_lookup. unfold loaded_value.
  pose proof (load_config_store o w) as Hs.
  destruct (load_config o w) as [c w1]; simpl in *. by rewrite Hs.
Qed.

Lemma dict_insert_entry b e fr :
  frame_entry (dict_insert b e fr) b = Some (own_value (store fr) e).
Proof.
  destruct fr as [[[m|] u] D]; unfold frame_entry, dict_insert, dict_lookup;
    simpl.
  - by rewrite lookup_insert_eq.
  - rewrite lookup_insert_eq. simpl. by rewrite lookup_insert_eq.
Qed.

Lemma dict_insert_entry_ne b b2 e fr :
  b2 ≠ b → frame_entry (dict_insert b e fr) b2 = frame_entry fr b2.
Proof.
  intros Hne.
  destruct fr as [[[m|] u] D]; unfold frame_entry, dict_insert, dict_lookup;
    simpl.
  - by rewrite lookup_insert_ne.
  - rewrite lookup_insert_ne by done.
    destruct (D !! b2); simpl; [|done].
    by rewrite lookup_insert_ne.
Qed.

Lemma entry_ok_alter (g : entry → entry) D b b' eo :
  (∀ d, is_Some (custom_models d) → is_Some (custom_models (g d))) →
  entry_ok D b eo → entry_ok (alter g b' D) b eo.
Proof.
  intros Hg. destruct eo as [[f [[l|b0]|]]|b0]; simpl; try done.
  - intros [-> Hs]. split; [done|].
    destruct (decide (b = b')) as [->|Hne].
    + rewrite lookup_alter_eq. destruct (D !! b') as [d|]; simpl in *.
      * by apply Hg.
      * by destruct Hs.
    + by rewrite lookup_alter_ne.
  - intros [-> Hs]. split; [done|].
    destruct (decide (b = b')) as [->|Hne].
    + rewrite lookup_alter_eq. by destruct (D !! b').
    + by rewrite lookup_alter_ne.
Qed.

Lemma frame_ok_alter (g : entry → entry) c D b' :
  (∀ d, is_Some (custom_models d) → is_Some (custom_models (g d))) →
  frame_ok (Frame c D) → frame_ok (Frame c (alter g b' D)).
Proof.
  intros Hg. unfold frame_ok; simpl.
  destruct (cfg_api_configs c) as [m|]; [|done].
  intros Hok b eo Hb. by apply entry_ok_alter, Hok.
Qed.

Lemma frame_ok_insert b e fr :
  list_ok (store fr) b (oe_customs e) →
  fresh_customs (oe_customs e) ∨ (∃ m, cfg_api_configs (config fr) = OwnDict m) →
  frame_ok fr → frame_ok (dict_insert b e fr).
Proof.
  destruct fr as [[[m|] u] D]; unfold frame_ok, dict_insert; simpl; [|done].
  intros He _ Hok b2 eo.
  destruct (decide (b2 = b)) as [->|Hne].
  - rewrite lookup_insert_eq. by intros [= <-].
  - rewrite lookup_insert_ne by done. apply Hok.
Qed.

Lemma cfg_setitem_entry b k v fr :
  frame_ok fr →
  frame_ok (cfg_setitem b k v fr)
  ∧ frame_entry (cfg_setitem b k v fr) b = setitem k v <$> frame_entry fr b
  ∧ ∀ b2, b2 ≠ b → frame_entry (cfg_setitem b k v fr) b2 = frame_entry fr b2.
Proof.
  intros Hok. unfold cfg_setitem.
  destruct (dict_lookup fr b) as [[e|b']|] eqn:Hl.
  - split; [|split].
    + apply frame_ok_insert; simpl; [|right|done].
      * destruct fr as [[[m|] u] D]; unfold dict_lookup in Hl; simpl in *.
        -- by apply (Hok _ _ Hl).
        -- by destruct (D !! b).
      * destruct fr as [[[m|] u] D]; unfold dict_lookup in Hl; simpl in *.
        -- by eexists.
        -- by destruct (D !! b).
    + rewrite dict_insert_entry. unfold frame_entry. rewrite Hl. done.
    + intros b2 Hne. by apply dict_insert_entry_ne.
  - assert (b' = b ∧ is_Some (store fr !! b)) as [-> [d Hd]].
    { destruct fr as [[[m|] u] D]; unfold dict_lookup in Hl; simpl in *.
      - by apply (Hok _ _ Hl).
      - destruct (D !! b); [|done]. by injection Hl as ->. }
    destruct fr as [c D]; simpl in *. split; [|split].
    + by apply frame_ok_alter.
    + unfold frame_entry, dict_lookup in *; simpl in *.
      destruct (cfg_api_configs c) as [m|]; simpl in *.
      * rewrite Hl. simpl. by rewrite lookup_alter_eq, Hd.
      * rewrite lookup_alter_eq, Hd. simpl. by rewrite lookup_alter_eq, Hd.
    + intros b2 Hne. unfold frame_entry, dict_lookup, frame_ok in *;
        simpl in *.
      destruct (cfg_api_configs c) as [m|] eqn:Hc; simpl in *.
      * destruct (m !! b2) as [[e2|b3]|] eqn:H2; simpl; try done.
        -- f_equal. unfold own_value. f_equal.
           pose proof (Hok b2 _ H2) as Ho. simpl in Ho.
           destruct (oe_customs e2) as [[l|b4]|]; simpl; try done.
           destruct Ho as [-> _]. by rewrite lookup_alter_ne.
        -- pose proof (Hok b2 _ H2) as [-> _]. by rewrite lookup_alter_ne.
      * rewrite lookup_alter_ne by done.
        destruct (D !! b2); simpl; [|done]. by rewrite lookup_alter_ne.
  - split; [done|]. split; [|done].
    unfold frame_entry. by rewrite Hl.
Qed.

Lemma evolves_refl b fr : frame_ok fr → evolves b id fr fr.
Proof. by intros Hok. Qed.

Lemma evolves_trans b g1 g2 fr fr1 fr2 :
  evolves b g1 fr fr1 → evolves b g2 fr1 fr2 → evolves b (g2 ∘ g1) fr fr2.
Proof.
  intros (_ & H1 & H1' & H1u) (Hok & H2 & H2' & H2u).
  split; [done|]. split; [|split].
  - simpl. by rewrite H2, H1.
  - intros b2 Hne. by rewrite H2', H1'.
  - by rewrite H2u.
Qed.

Lemma evolves_ext b g g' fr fr' :
  evolves b g fr fr' → g (frame_entry fr b) = g' (frame_entry fr b) →
  evolves b g' fr fr'.
Proof. intros (? & H1 & ? & ?) Hg. split; [done|]. by rewrite <-Hg. Qed.

Lemma dict_insert_unknown b e fr :
  cfg_unknown_keys (config (dict_insert b e fr)) = cfg_unknown_keys (config fr).
Proof. by destruct fr as [[[m|] u] D]. Qed.

Lemma cfg_setitem_evolves b k v fr :
  frame_ok fr → evolves b (fmap (setitem k v)) fr (cfg_setitem b k v fr).
Proof.
  intros Hok. destruct (cfg_setitem_entry b k v fr Hok) as (H1 & H2 & H3).
  split; [done|]. split; [done|]. split; [done|].
  unfold cfg_setitem. destruct (dict_lookup fr b) as [[e|b']|]; try done.
  apply dict_insert_unknown.
Qed.

Lemma cfg_setitem_opt_evolves b k v fr :
  frame_ok fr → evolves b (fmap (setitem_opt k v)) fr (cfg_setitem_opt b k v fr).
Proof.
  intros Hok. destruct v as [s|]; simpl.
  - by apply cfg_setitem_evolves.
  - apply (evolves_ext b id); [by apply evolves_refl|].
    by destruct (frame_entry fr b).
Qed.

(** [d.setdefault(b, e)] / [if b not in d: d[b] = e] for a new entry [e]. *)
Lemma ensure_evolves b e fr :
  frame_ok fr →
  list_ok (store fr) b (oe_customs e) →
  fresh_customs (oe_customs e) ∨ (∃ m, cfg_api_configs (config fr) = OwnDict m) →
  evolves b (λ x, Some (default (own_value (store fr) e) x)) fr
    (match dict_lookup fr b with
     | Some _ => fr
     | None => dict_insert b e fr
     end).
Proof.
  intros Hok Hl Hf.
  destruct (dict_lookup fr b) as [eo|] eqn:Hb.
  - split; [done|]. split; [|done]. unfold frame_entry. by rewrite Hb.
  - split; [by apply frame_ok_insert|]. split; [|split].
    + rewrite dict_insert_entry. unfold frame_entry. by rewrite Hb.
    + intros b2 Hne. by apply dict_insert_entry_ne.
    + apply dict_insert_unknown.
Qed.

Lemma evolves_dump b g fr fr' :
  evolves b g fr fr' →
  config_value (store fr') (config fr')
  = Document
      (Some (partial_alter (λ _, g (frame_entry fr b)) b
               (dict_value (store fr) (cfg_api_configs (config fr)))))
      (cfg_unknown_keys (config fr)).
Proof.
  intros (Hok & H1 & H2 & Hu). unfold config_value. rewrite Hu. do 2 f_equal.
  apply map_eq; intros b2. rewrite dump_lookup.
  destruct (decide (b2 = b)) as [->|Hne].
  - by rewrite lookup_partial_alter_eq.
  - rewrite lookup_partial_alter_ne by done. by rewrite H2, dump_lookup.
Qed.

(** *** The functions of [config.py], on values *)

Lemma loaded_covers_defaults o w b :
  api_configs (loaded_value o w) ≫= (.!! b) = None → default_config w !! b = None.
Proof.
  rewrite loaded_value_eq.
  destruct (CONFIG_FILE w) as [| |doc]; simpl; try done.
  destruct (api_configs doc) as [m|]; simpl; [|done].
  rewrite lookup_merge. by destruct (m !! b), (default_config w !! b).
Qed.

Lemma loaded_api_configs o w :
  api_configs (loaded_value o w)
  = Some (dict_value (default_config w) (cfg_api_configs (load_config o w).1)).
Proof.
  unfold loaded_value. pose proof (load_config_store o w) as Hs.
  destruct (load_config o w) as [c w1]; simpl in *. by rewrite Hs.
Qed.

Lemma loaded_unknown_keys o w :
  unknown_keys (loaded_value o w) = cfg_unknown_keys (load_config o w).1.
Proof. unfold loaded_value. by destruct (load_config o w) as [c w1]. Qed.

Lemma set_api_config_spec api_type api_key base_url model_name o1 w :
  let before := loaded_value o1 w in
  let entries := default ∅ (api_configs before) in
  let cfg :=
    setitem_opt "model_name" model_name
      (setitem_opt "base_url" base_url
         (setitem_opt "api_key" api_key
            (default fallback_value (entries !! api_type)))) in
  (set_api_config api_type api_key base_url model_name o1 WriteDone w).1 = cfg
  ∧ CONFIG_FILE
      (set_api_config api_type api_key base_url model_name o1 WriteDone w).2
    = Holds (Document (Some (<[api_type := cfg]> entries)) (unknown_keys before)).
Proof.
  intros before entries cfg.
  unfold set_api_config.
  pose proof (load_config_store o1 w) as Hs.
  pose proof (load_config_frame_ok o1 w) as Hok.
  pose proof (load_config_frame_entry o1 w api_type) as He.
  pose proof (loaded_covers_defaults o1 w api_type) as Hcov.
  pose proof (loaded_api_configs o1 w) as Hapi.
  pose proof (loaded_unknown_keys o1 w) as Hunk.
  fold before in He, Hcov, Hapi, Hunk.
  destruct (load_config o1 w) as [c w1]; simpl in Hs, Hok, He, Hapi, Hunk.
  rewrite Hs. clear Hs.
  set (fr0 := Frame c (default_config w)) in *.
  set (fresh := match store fr0 !! api_type with
                | Some d => copy_entry api_type d
                | None => fallback_entry
                end).
  assert (H1 : evolves api_type
                 (λ x, Some (default fallback_value x)) fr0
                 (match dict_lookup fr0 api_type with
                  | Some _ => fr0
                  | None => dict_insert api_type fresh fr0
                  end)).
  { destruct (dict_lookup fr0 api_type) as [eo|] eqn:Hb.
    - split; [done|]. split; [|done]. unfold frame_entry. by rewrite Hb.
    - assert (Hn : default_config w !! api_type = None).
      { apply Hcov. rewrite <-He. unfold frame_entry. by rewrite Hb. }
      pose proof (ensure_evolves api_type fallback_entry fr0 Hok I (or_introl I))
        as Hev.
      rewrite Hb in Hev. subst fresh. simpl. rewrite Hn. exact Hev. }
  set (fr1 := match dict_lookup fr0 api_type with
              | Some _ => fr0
              | None => dict_insert api_type fresh fr0
              end) in *.
  pose proof (cfg_setitem_opt_evolves api_type "api_key" api_key fr1 (proj1 H1))
    as H2.
  set (fr2 := cfg_setitem_opt api_type "api_key" api_key fr1) in *.
  pose proof (cfg_setitem_opt_evolves api_type "base_url" base_url fr2 (proj1 H2))
    as H3.
  set (fr3 := cfg_setitem_opt api_type "base_url" base_url fr2) in *.
  pose proof (cfg_setitem_opt_evolves api_type "model_name" model_name fr3
                (proj1 H3)) as H4.
  set (fr4 := cfg_setitem_opt api_type "model_name" model_name fr3) in *.
  pose proof (evolves_trans _ _ _ _ _ _ (evolves_trans _ _ _ _ _ _
                (evolves_trans _ _ _ _ _ _ H1 H2) H3) H4) as Hall.
  assert (Hent : entries !! api_type = frame_entry fr0 api_type).
  { rewrite He. subst entries. by destruct (api_configs before). }
  split.
  - simpl. fold (frame_entry fr4 api_type).
    destruct Hall as (_ & -> & _). simpl. by rewrite <-Hent.
  - simpl. rewrite (evolves_dump _ _ _ _ Hall). simpl.
    rewrite <-Hent, <-Hunk. do 3 f_equal.
    subst cfg entries. rewrite Hapi. reflexivity.
Qed.

Lemma frame_entry_alter_ne (g : entry → entry) c D b b2 :
  frame_ok (Frame c D) → b2 ≠ b →
  frame_entry (Frame c (alter g b D)) b2 = frame_entry (Frame c D) b2.
Proof.
  intros Hok Hne. unfold frame_entry, dict_lookup, frame_ok in *; simpl in *.
  destruct (cfg_api_configs c) as [m|]; simpl in *.
  - destruct (m !! b2) as [[e2|b3]|] eqn:H2; simpl; try done.
    + f_equal. unfold own_value. f_equal.
      pose proof (Hok b2 _ H2) as Ho. simpl in Ho.
      destruct (oe_customs e2) as [[l|b4]|]; simpl; try done.
      destruct Ho as [-> _]. by rewrite lookup_alter_ne.
    + pose proof (Hok b2 _ H2) as [-> _]. by rewrite lookup_alter_ne.
  - rewrite lookup_alter_ne by done.
    destruct (D !! b2); simpl; [|done]. by rewrite lookup_alter_ne.
Qed.

(** A change made through the entry object of [DEFAULT_CONFIG]. *)
Lemma shared_entry_evolves (g : entry → entry) c D b :
  (∀ d, is_Some (custom_models d) → is_Some (custom_models (g d))) →
  frame_ok (Frame c D) →
  dict_lookup (Frame c D) b = Some (DefaultEntry b) →
  is_Some (D !! b) →
  evolves b (fmap g) (Frame c D) (Frame c (alter g b D)).
Proof.
  intros Hg Hok Hl [d Hd]. split; [by apply frame_ok_alter|].
  split; [|split; [|done]].
  - unfold frame_entry, dict_lookup in *; simpl in *.
    destruct (cfg_api_configs c) as [m|]; simpl in *.
    + rewrite Hl. simpl. by rewrite lookup_alter_eq, Hd.
    + rewrite lookup_alter_eq, Hd. simpl. by rewrite lookup_alter_eq, Hd.
  - intros b2 Hne. by apply frame_entry_alter_ne.
Qed.

(** A change made through the list object of [DEFAULT_CONFIG] held by an
    entry of the configuration's own. *)
Lemma shared_list_evolves (h : list string → list string) c D b e :
  frame_ok (Frame c D) →
  dict_lookup (Frame c D) b = Some (OwnEntry e) →
  oe_customs e = Some (DefaultList b) →
  evolves b (fmap (on_customs h)) (Frame c D) (Frame c (alter (on_customs h) b D)).
Proof.
  intros Hok Hl Hc.
  assert (is_Some (D !! b ≫= custom_models)) as [l Hs].
  { unfold dict_lookup, frame_ok in *; simpl in *.
    destruct (cfg_api_configs c) as [m|]; simpl in *.
    - pose proof (Hok _ _ Hl) as Ho. simpl in Ho. rewrite Hc in Ho. apply Ho.
    - by destruct (D !! b). }
  split; [|split; [|split; [|done]]].
  - apply frame_ok_alter; [|done]. intros d [x Hx]. simpl. rewrite Hx. by eexists.
  - unfold frame_entry, dict_lookup in *; simpl in *.
    destruct (cfg_api_configs c) as [m|]; simpl in *.
    + rewrite Hl. simpl. f_equal. unfold own_value, on_customs. simpl.
      rewrite Hc. simpl. rewrite lookup_alter_eq.
      destruct (D !! b) as [d|]; simpl in *; [|done]. by rewrite Hs.
    + by destruct (D !! b).
  - intros b2 Hne. by apply frame_entry_alter_ne.
Qed.

Lemma own_entry_evolves e' fr b e :
  frame_ok fr →
  dict_lookup fr b = Some (OwnEntry e) →
  list_ok (store fr) b (oe_customs e') →
  evolves b (λ _, Some (own_value (store fr) e')) fr (dict_insert b e' fr).
Proof.
  intros Hok Hl Hc. split; [|split; [|split]].
  - apply frame_ok_insert; [done| |done]. right.
    destruct fr as [[[m|] u] D]; unfold dict_lookup in Hl; simpl in *.
    + by eexists.
    + by destruct (D !! b).
  - apply dict_insert_entry.
  - intros b2 Hne. by apply dict_insert_entry_ne.
  - apply dict_insert_unknown.
Qed.

Lemma dict_lookup_shared fr b b' :
  frame_ok fr → dict_lookup fr b = Some (DefaultEntry b') →
  b' = b ∧ is_Some (store fr !! b).
Proof.
  intros Hok Hl.
  destruct fr as [[[m|] u] D]; unfold dict_lookup, frame_ok in *; simpl in *.
  - by apply (Hok _ _ Hl).
  - destruct (D !! b); [|done]. by injection Hl as ->.
Qed.

Lemma dict_lookup_own fr b e :
  frame_ok fr → dict_lookup fr b = Some (OwnEntry e) →
  list_ok (store fr) b (oe_customs e).
Proof.
  intros Hok Hl.
  destruct fr as [[[m|] u] D]; unfold dict_lookup, frame_ok in *; simpl in *.
  - by apply (Hok _ _ Hl).
  - by destruct (D !! b).
Qed.

Lemma cfg_setdefault_customs_evolves b fr :
  frame_ok fr →
  evolves b (fmap setdefault_customs) fr (cfg_setdefault_customs b fr).
Proof.
  intros Hok. unfold cfg_setdefault_customs.
  destruct (dict_lookup fr b) as [[e|b']|] eqn:Hl.
  - destruct (oe_customs e) as [lo|] eqn:Hc.
    + split; [done|]. split; [|done].
      unfold frame_entry. rewrite Hl. simpl. unfold own_value, setdefault_customs.
      simpl. by rewrite Hc.
    + eapply evolves_ext; [by eapply own_entry_evolves|].
      simpl. unfold frame_entry. rewrite Hl. simpl.
      unfold own_value, setdefault_customs. simpl. by rewrite Hc.
  - destruct (dict_lookup_shared _ _ _ Hok Hl) as [-> Hs].
    destruct fr as [c D]. simpl in *.
    eapply evolves_ext; [apply shared_entry_evolves; try done|].
    + intros d [l Hd]. by rewrite Hd.
    + simpl. destruct (frame_entry (Frame c D) b) as [d|]; simpl; [|done].
      unfold setdefault_customs. by destruct d as [f [l|]].
  - split; [done|]. split; [|done]. unfold frame_entry. by rewrite Hl.
Qed.

Lemma cfg_customs_value_eq b fr :
  frame_ok fr →
  cfg_customs_value b fr = default [] (frame_entry fr b ≫= custom_models).
Proof.
  intros Hok. unfold cfg_customs_value, cfg_customs, frame_entry.
  destruct (dict_lookup fr b) as [[e|b']|] eqn:Hl; simpl; [| |done].
  - unfold own_value. simpl. by destruct (oe_customs e).
  - destruct (dict_lookup_shared _ _ _ Hok Hl) as [-> [d Hd]].
    rewrite Hd. simpl. destruct (custom_models d) eqn:Hc; simpl; [|done].
    by rewrite Hd; simpl; rewrite Hc.
Qed.

Lemma customs_update_evolves b h fr :
  frame_ok fr →
  evolves b (fmap (on_customs h)) fr (customs_update b h fr).
Proof.
  intros Hok. unfold customs_update, cfg_customs.
  destruct (dict_lookup fr b) as [[e|b']|] eqn:Hl.
  - destruct (oe_customs e) as [[l|b']|] eqn:Hc.
    + eapply evolves_ext; [by eapply own_entry_evolves|].
      simpl. unfold frame_entry. rewrite Hl. simpl.
      unfold own_value, on_customs. simpl. by rewrite Hc.
    + pose proof (dict_lookup_own _ _ _ Hok Hl) as Ho. rewrite Hc in Ho.
      destruct Ho as [-> _]. destruct fr as [c D].
      by eapply shared_list_evolves.
    + split; [done|]. split; [|done].
      unfold frame_entry. rewrite Hl. simpl. unfold own_value, on_customs.
      simpl. by rewrite Hc.
  - destruct (dict_lookup_shared _ _ _ Hok Hl) as [-> [d Hd]].
    rewrite Hd. simpl. destruct (custom_models d) as [l|] eqn:Hc.
    + destruct fr as [c D]. apply shared_entry_evolves; try done.
      intros d' [x Hx]. simpl. rewrite Hx. by eexists.
    + split; [done|]. split; [|done].
      unfold frame_entry. rewrite Hl. simpl. rewrite Hd. simpl.
      unfold on_customs. rewrite Hc. simpl. by destruct d; simpl in *; subst.
  - split; [done|]. split; [|done]. unfold frame_entry. by rewrite Hl.
Qed.

Lemma entries_of_frame o w b :
  frame_entry (Frame (load_config o w).1 (default_config w)) b = entries_of o w !! b.
Proof.
  rewrite load_config_frame_entry. unfold entries_of.
  by destruct (api_configs (loaded_value o w)).
Qed.

Lemma entries_of_dump o w :
  dict_value (default_config w) (cfg_api_configs (load_config o w).1)
  = entries_of o w.
Proof. unfold entries_of. by rewrite loaded_api_configs. Qed.

Lemma get_api_config_eq b o w :
  (get_api_config b o w).1 = default (Entry ∅ None) (entries_of o w !! b).
Proof.
  unfold get_api_config.
  pose proof (load_config_store o w) as Hs.
  pose proof (entries_of_frame o w b) as He.
  destruct (load_config o w) as [c w1]; cbn [fst snd] in *. rewrite Hs.
  by rewrite <-He.
Qed.

Lemma catalog_eq b w :
  catalog b w =
    (customs_of WriteDone w b,
     merge_models (default [] (BUILTIN_MODELS !! b)) (customs_of WriteDone w b)).
Proof.
  unfold catalog, get_model_list.
  pose proof (get_api_config_eq b WriteDone w) as Hg.
  destruct (get_api_config b WriteDone w) as [cfg w1]; simpl in *. subst cfg.
  unfold customs_of.
  by destruct (entries_of WriteDone w !! b) as [[f [l|]]|].
Qed.

Lemma add_custom_model_spec b name o1 w :
  PyStr.blank name = false →
  let n := PyStr.strip name in
  let entries := entries_of o1 w in
  let customs := customs_of o1 w b in
  let r := add_custom_model b name o1 WriteDone w in
  if bool_decide (n ∈ customs) then r.1 = false
  else r.1 = true
       ∧ CONFIG_FILE r.2 =
           Holds (Document
                    (Some (<[b := Entry (fields (default (Entry ∅ None)
                                                   (entries !! b)))
                                        (Some (customs ++ [n]))]> entries))
                    (unknown_keys (loaded_value o1 w))).
Proof.
  intros Hb n entries customs. unfold add_custom_model. rewrite Hb.
  pose proof (load_config_store o1 w) as Hs.
  pose proof (load_config_frame_ok o1 w) as Hok.
  pose proof (entries_of_frame o1 w b) as He.
  pose proof (entries_of_dump o1 w) as Hapi.
  pose proof (loaded_unknown_keys o1 w) as Hunk.
  destruct (load_config o1 w) as [c w1]; simpl in Hs, Hok, He, Hapi, Hunk.
  rewrite Hs. clear Hs. fold n.
  set (fr0 := Frame c (default_config w)) in *.
  pose proof (ensure_evolves b (OwnE ∅ None) fr0 Hok I (or_introl I)) as H1.
  set (fr1 := match dict_lookup fr0 b with
              | Some _ => fr0
              | None => dict_insert b (OwnE ∅ None) fr0
              end) in *.
  pose proof (cfg_setdefault_customs_evolves b fr1 (proj1 H1)) as H2.
  set (fr2 := cfg_setdefault_customs b fr1) in *.
  pose proof (evolves_trans _ _ _ _ _ _ H1 H2) as H12.
  assert (Hc : cfg_customs_value b fr2 = customs).
  { rewrite cfg_customs_value_eq by apply H2.
    destruct H12 as (_ & -> & _). simpl. rewrite He.
    subst customs. unfold customs_of. fold entries.
    by destruct (entries !! b) as [[f [l|]]|]. }
  rewrite Hc. destruct (bool_decide (n ∈ customs)); [done|].
  pose proof (customs_update_evolves b (λ l, l ++ [n]) fr2 (proj1 H2)) as H3.
  set (fr3 := customs_update b (λ l, l ++ [n]) fr2) in *.
  pose proof (evolves_trans _ _ _ _ _ _ H12 H3) as Hall.
  split; [done|]. simpl. rewrite (evolves_dump _ _ _ _ Hall). simpl.
  rewrite He, Hapi, <-Hunk. fold entries. do 3 f_equal.
  unfold insert, map_insert. apply partial_alter_ext. intros _ _.
  f_equal. subst customs. unfold customs_of. fold entries.
  by destruct (entries !! b) as [[f [l|]]|].
Qed.

Lemma remove_custom_model_spec b name o1 w :
  let entries := entries_of o1 w in
  let customs := customs_of o1 w b in
  let r := remove_custom_model b name o1 WriteDone w in
  if bool_decide (name ∈ customs)
  then r.1 = true
       ∧ CONFIG_FILE r.2 =
           Holds (Document
                    (Some (alter (on_customs (remove_first name)) b entries))
                    (unknown_keys (loaded_value o1 w)))
  else r = (false, (load_config o1 w).2).
Proof.
  intros entries customs. unfold remove_custom_model.
  pose proof (load_config_store o1 w) as Hs.
  pose proof (load_config_frame_ok o1 w) as Hok.
  pose proof (entries_of_frame o1 w b) as He.
  pose proof (entries_of_dump o1 w) as Hapi.
  pose proof (loaded_unknown_keys o1 w) as Hunk.
  destruct (load_config o1 w) as [c w1]; simpl in Hs, Hok, He, Hapi, Hunk.
  rewrite Hs.
  set (fr0 := Frame c (default_config w)) in *.
  assert (Hc : cfg_customs_value b fr0 = customs).
  { rewrite cfg_customs_value_eq by done. by rewrite He. }
  rewrite Hc. destruct (bool_decide (name ∈ customs)); [|done].
  pose proof (customs_update_evolves b (remove_first name) fr0 Hok) as H3.
  split; [done|]. simpl. rewrite (evolves_dump _ _ _ _ H3). simpl.
  rewrite He, Hapi, <-Hunk. fold entries. do 3 f_equal.
  unfold alter, map_alter. apply partial_alter_ext. intros x Hx.
  by rewrite Hx.
Qed.

Lemma entries_of_holds o w b doc m e l :
  CONFIG_FILE w = Holds doc → api_configs doc = Some m →
  m !! b = Some e → custom_models e = Some l →
  ∃ e', entries_of o w !! b = Some e' ∧ custom_models e' = Some l.
Proof.
  intros Hf Ha Hm Hl. unfold entries_of. rewrite loaded_value_eq, Hf. simpl.
  rewrite Ha, lookup_merge, Hm.
  destruct (default_config w !! b) as [d|]; simpl; eexists; split; try done.
  simpl. by rewrite Hl.
Qed.

Lemma remove_first_app x l : x ∉ l → remove_first x (l ++ [x]) = l.
Proof.
  induction l as [|y l IH]; simpl; intros Hx.
  - by rewrite decide_True.
  - apply not_elem_of_cons in Hx as [Hne Hx].
    rewrite decide_False by done. by rewrite IH.
Qed.

Lemma strip_fixed_not_blank s : PyStr.strip s = s → s ≠ "" → PyStr.blank s = false.
Proof.
  intros Hs Hne. unfold PyStr.blank. rewrite Hs. by destruct s.
Qed.

(** C8, as amended.  For a name that is not empty, has no whitespace at
    either end and is not in the persisted custom list of the backend, when
    the writes run to their end: [add_custom_model] returns [True],
    [remove_custom_model] with the same name then returns [True], and the
    catalog of the backend (persisted custom list and effective model list)
    is what it was before the two calls. *)
Theorem add_then_remove_restores b name w :
  PyStr.strip name = name → name ≠ "" → name ∉ (catalog b w).1 →
  (add_custom_model b name WriteDone WriteDone w).1 = true
  ∧ (remove_custom_model b name WriteDone WriteDone
       (add_custom_model b name WriteDone WriteDone w).2).1 = true
  ∧ catalog b
      (remove_custom_model b name WriteDone WriteDone
         (add_custom_model b name WriteDone WriteDone w).2).2
    = catalog b w.
Proof.
  intros Hs Hne Hnot. rewrite catalog_eq in Hnot. simpl in Hnot.
  pose proof (add_custom_model_spec b name WriteDone w
                (strip_fixed_not_blank _ Hs Hne)) as Hadd.
  simpl in Hadd. rewrite Hs in Hadd.
  rewrite bool_decide_eq_false_2 in Hadd by done.
  destruct Hadd as [Hr1 Hf1].
  set (w1 := (add_custom_model b name WriteDone WriteDone w).2) in *.
  assert (H1 : ∃ e1, entries_of WriteDone w1 !! b = Some e1
                     ∧ custom_models e1
                       = Some (customs_of WriteDone w b ++ [name])).
  { eapply entries_of_holds;
      [exact Hf1|done|by rewrite lookup_insert_eq|done]. }
  destruct H1 as (e1 & He1 & Hc1).
  pose proof (remove_custom_model_spec b name WriteDone w1) as Hrem.
  simpl in Hrem.
  assert (Hc : customs_of WriteDone w1 b = customs_of WriteDone w b ++ [name]).
  { unfold customs_of at 1. rewrite He1. simpl. by rewrite Hc1. }
  rewrite Hc in Hrem.
  rewrite bool_decide_eq_true_2 in Hrem by (apply elem_of_app; right; by left).
  destruct Hrem as [Hr2 Hf2].
  set (w2 := (remove_custom_model b name WriteDone WriteDone w1).2) in *.
  split; [done|]. split; [done|].
  rewrite !catalog_eq.
  assert (Hfin : customs_of WriteDone w2 b = customs_of WriteDone w b).
  { assert (∃ e2, entries_of WriteDone w2 !! b = Some e2
                  ∧ custom_models e2 = Some (customs_of WriteDone w b))
      as (e2 & He2 & Hc2).
    { eapply entries_of_holds;
        [exact Hf2|done|by rewrite lookup_alter_eq, He1|].
      simpl. rewrite Hc1. simpl. by rewrite remove_first_app. }
    unfold customs_of at 1. rewrite He2. simpl. by rewrite Hc2. }
  by rewrite Hfin.
Qed.

(** *** The merging loop of [get_model_list] *)

Lemma merge_models_as_spec custom : ∀ builtin,
  merge_models builtin custom
  = effective_models_spec builtin (filter (λ m, m ≠ "") custom).
Proof.
  unfold merge_models, effective_models_spec.
  induction custom as [|m custom IH]; intros builtin; [done|].
  simpl. destruct m as [|a m].
  - simpl. rewrite filter_cons_False by (intros H; by apply H). apply IH.
  - rewrite filter_cons_True by done. simpl. rewrite IH. f_equal.
    destruct (decide (String a m ∈ builtin)) as [Hin|Hin].
    + rewrite bool_decide_eq_false_2 by (intros H; by apply H).
      by rewrite bool_decide_eq_true_2.
    + rewrite bool_decide_eq_true_2 by done.
      by rewrite bool_decide_eq_false_2.
Qed.

Lemma effective_models_spec_shape custom : ∀ builtin,
  NoDup builtin →
  ∃ added,
    effective_models_spec builtin custom = builtin ++ added
    ∧ NoDup (builtin ++ added)
    ∧ added `sublist_of` custom
    ∧ ∀ m, m ∈ added ↔ m ∈ custom ∧ m ∉ builtin.
Proof.
  unfold effective_models_spec.
  induction custom as [|m custom IH]; intros builtin Hnd.
  - exists []. rewrite app_nil_r. split; [done|]. split; [done|].
    split; [constructor|]. intros m. split; [by intros ?%elem_of_nil|].
    by intros [?%elem_of_nil _].
  - simpl. destruct (decide (m ∈ builtin)) as [Hin|Hin].
    + rewrite bool_decide_eq_true_2 by done.
      destruct (IH builtin Hnd) as (added & H1 & H2 & H3 & H4).
      exists added. split; [done|]. split; [done|].
      split; [by constructor|]. intros x. rewrite H4, elem_of_cons.
      split; [intros [? ?]; split; [by right|done]|].
      intros [[->|?] ?]; done.
    + rewrite bool_decide_eq_false_2 by done.
      assert (Hnd' : NoDup (builtin ++ [m])).
      { apply NoDup_app. split; [done|]. split; [|apply NoDup_singleton].
        intros x Hx ->%list_elem_of_singleton. done. }
      destruct (IH (builtin ++ [m]) Hnd') as (added & H1 & H2 & H3 & H4).
      exists (m :: added). rewrite H1, <-(assoc_L (++)). simpl.
      split; [done|]. split; [by rewrite <-(assoc_L (++)) in H2|].
      split; [by constructor|]. intros x. rewrite elem_of_cons, H4.
      rewrite elem_of_app, list_elem_of_singleton, elem_of_cons.
      split.
      * intros [->|[? ?]]; [by split; [left|]|]. split; [by right|]. tauto.
      * intros [[->|?] ?]; [by left|].
        destruct (decide (x = m)) as [->|?]; [by left|]. right. tauto.
Qed.

Lemma builtin_lookup b :
  BUILTIN_MODELS !! b =
    if decide (b = "Gemini Native")
    then Some ["gemini-2.5-flash-image"; "gemini-3-pro-image-preview"]
    else if decide (b = "Grok API")
    then Some ["grok-imagine-image"; "grok-imagine-image-pro"]
    else if decide (b = "OpenAI Compatible")
    then Some ["dall-e-3"; "dall-e-2"; "gpt-image-1"]
    else if decide (b = "Qwen Image")
    then Some ["qwen-image-plus"; "qwen-image-edit"]
    else if decide (b = "GLM Image")
    then Some ["glm-image"; "cogview-4-250304"]
    else None.
Proof.
  unfold BUILTIN_MODELS. simpl.
  repeat (rewrite lookup_insert; case_decide;
          [subst; by repeat (rewrite decide_False by done);
                  rewrite ?decide_True by done
          |rewrite decide_False by done]).
  done.
Qed.

Lemma builtin_NoDup b : NoDup (default [] (BUILTIN_MODELS !! b)).
Proof.
  rewrite builtin_lookup.
  repeat case_decide; simpl; try apply NoDup_nil_2;
    apply (bool_decide_unpack (NoDup _)); vm_compute; exact I.
Qed.

(** C7, as amended.  The effective model list of a backend is the builtin
    list followed by each persisted custom model that is not the empty
    string and not already present, in the order of the custom list; it has
    no duplicates, the builtins come first, and what follows them is drawn
    from the custom list in its order: exactly the non-empty custom models
    that are no builtin. *)
Theorem get_model_list_effective b o w :
  let builtin := default [] (BUILTIN_MODELS !! b) in
  let custom := default [] (custom_models (get_api_config b o w).1) in
  let models := (get_model_list b o w).1 in
  models = effective_models_spec builtin (filter (λ m, m ≠ "") custom)
  ∧ NoDup models
  ∧ ∃ added,
      models = builtin ++ added
      ∧ added `sublist_of` custom
      ∧ ∀ m, m ∈ added ↔ m ∈ custom ∧ m ≠ "" ∧ m ∉ builtin.
Proof.
  intros builtin custom models.
  assert (Hm : models = merge_models builtin custom).
  { subst models custom. unfold get_model_list.
    by destruct (get_api_config b o w). }
  rewrite Hm, merge_models_as_spec.
  destruct (effective_models_spec_shape (filter (λ m, m ≠ "") custom) builtin
              (builtin_NoDup b)) as (added & H1 & H2 & H3 & H4).
  split; [done|]. rewrite H1. split; [done|]. exists added.
  split; [done|]. split.
  - etrans; [exact H3|]. apply sublist_filter.
  - intros m. rewrite H4, list_elem_of_filter. tauto.
Qed.

(** *** [defaults_ok] is an invariant

    It holds of the module text ([defaults_ok_fresh] below) and every
    function of [config.py] keeps it, whatever becomes of the writes. *)

Lemma defaults_ok_alter (g : entry → entry) b D :
  (∀ d, is_Some (custom_models d) → is_Some (custom_models (g d))) →
  defaults_ok D → defaults_ok (alter g b D).
Proof.
  intros Hg Hok b2 d. destruct (decide (b2 = b)) as [->|Hne].
  - rewrite lookup_alter_eq. destruct (D !! b) as [d0|] eqn:Hd; [|done].
    intros [= <-]. apply Hg. by apply (Hok b d0).
  - rewrite lookup_alter_ne by done. apply Hok.
Qed.

Lemma defaults_ok_insert b v D :
  is_Some (custom_models v) → defaults_ok D → defaults_ok (<[b := v]> D).
Proof. intros Hv Hok. by apply map_Forall_insert_2. Qed.

Lemma cfg_setitem_defaults_ok b k v fr :
  defaults_ok (store fr) → defaults_ok (store (cfg_setitem b k v fr)).
Proof.
  intros Hok. unfold cfg_setitem.
  destruct (dict_lookup fr b) as [[e|b']|] eqn:Hl; simpl; try done.
  - destruct fr as [[[m|] u] D]; unfold dict_lookup in Hl; simpl in *; [done|].
    by destruct (D !! b).
  - by apply defaults_ok_alter.
Qed.

Lemma cfg_setitem_opt_defaults_ok b k v fr :
  defaults_ok (store fr) → defaults_ok (store (cfg_setitem_opt b k v fr)).
Proof. destruct v; [apply cfg_setitem_defaults_ok|done]. Qed.

Lemma set_api_config_defaults_ok api_type api_key base_url model_name o1 o2 w :
  defaults_ok (default_config w) →
  defaults_ok
    (default_config
       (set_api_config api_type api_key base_url model_name o1 o2 w).2).
Proof.
  intros Hok. unfold set_api_config.
  pose proof (load_config_store o1 w) as Hs.
  destruct (load_config o1 w) as [c w1]; simpl in Hs. rewrite Hs.
  set (fr0 := Frame c (default_config w)).
  set (fr1 := match dict_lookup fr0 api_type with Some _ => fr0 | None => _ end).
  assert (H1 : defaults_ok (store fr1)).
  { subst fr1. destruct (dict_lookup fr0 api_type) eqn:Hl; [done|].
    destruct c as [[m|] u]; simpl; [done|].
    unfold dict_lookup in Hl. simpl in Hl.
    destruct (default_config w !! api_type) eqn:Hd; [done|].
    by apply defaults_ok_insert. }
  assert (Hfin : defaults_ok (store
      (cfg_setitem_opt api_type "model_name" model_name
         (cfg_setitem_opt api_type "base_url" base_url
            (cfg_setitem_opt api_type "api_key" api_key fr1))))).
  { by do 3 apply cfg_setitem_opt_defaults_ok. }
  simpl. by destruct o2.
Qed.

Lemma customs_update_defaults_ok b h fr :
  defaults_ok (store fr) → defaults_ok (store (customs_update b h fr)).
Proof.
  intros Hok. unfold customs_update.
  destruct (cfg_customs b fr) as [[l|b']|] eqn:Hc; try done.
  - destruct (dict_lookup fr b) as [[e|b']|] eqn:Hl; try done.
    destruct fr as [[[m|] u] D]; unfold dict_lookup in Hl; simpl in *; [done|].
    by destruct (D !! b).
  - simpl. apply defaults_ok_alter; [|done].
    intros d [x Hx]. simpl. rewrite Hx. by eexists.
Qed.

Lemma remove_custom_model_defaults_ok b name o1 o2 w :
  defaults_ok (default_config w) →
  defaults_ok (default_config (remove_custom_model b name o1 o2 w).2).
Proof.
  intros Hok. unfold remove_custom_model.
  pose proof (load_config_store o1 w) as Hs.
  destruct (load_config o1 w) as [c w1]; simpl in Hs. rewrite Hs.
  destruct (bool_decide _); simpl; [|by rewrite Hs].
  pose proof (customs_update_defaults_ok b (remove_first name)
                (Frame c (default_config w)) Hok).
  by destruct o2.
Qed.

Lemma defaults_ok_setdefault b v D :
  defaults_ok D →
  defaults_ok
    (alter (λ d, match custom_models d with
                 | Some _ => d
                 | None => Entry (fields d) (Some [])
                 end) b (<[b := v]> D)).
Proof.
  intros Hok b2 d. destruct (decide (b2 = b)) as [->|Hne].
  - rewrite lookup_alter_eq, lookup_insert_eq. simpl. intros [= <-].
    destruct (custom_models v) eqn:Hv; [by rewrite Hv|done].
  - rewrite lookup_alter_ne, lookup_insert_ne by done. apply Hok.
Qed.

Lemma add_custom_model_defaults_ok b name o1 o2 w :
  defaults_ok (default_config w) →
  defaults_ok (default_config (add_custom_model b name o1 o2 w).2).
Proof.
  intros Hok. unfold add_custom_model.
  destruct (PyStr.blank name); [done|].
  pose proof (load_config_store o1 w) as Hs.
  destruct (load_config o1 w) as [c w1]; simpl in Hs. rewrite Hs.
  set (fr0 := Frame c (default_config w)).
  set (fr2 := cfg_setdefault_customs b _).
  assert (H2 : defaults_ok (store fr2)).
  { subst fr2 fr0. destruct c as [[m|] u].
    - unfold cfg_setdefault_customs, dict_lookup, dict_insert. simpl.
      destruct (m !! b) as [[e|b']|] eqn:Hm; simpl; rewrite ?lookup_insert_eq.
      + rewrite Hm. by destruct (oe_customs e).
      + rewrite Hm. simpl. apply defaults_ok_alter; [|done].
        intros d [x Hx]. by rewrite Hx.
      + simpl. done.
    - unfold cfg_setdefault_customs, dict_lookup, dict_insert. simpl.
      destruct (default_config w !! b) as [d|] eqn:Hd; simpl.
      + rewrite Hd. simpl. apply defaults_ok_alter; [|done].
        intros d' [x Hx]. by rewrite Hx.
      + rewrite lookup_insert_eq. simpl. by apply defaults_ok_setdefault. }
  destruct (bool_decide _); [done|].
  pose proof (customs_update_defaults_ok b
                (λ l, l ++ [PyStr.strip name]) fr2 H2).
  simpl. by destruct o2.
Qed.

Lemma load_config_defaults_ok o w :
  defaults_ok (default_config w) →
  defaults_ok (default_config (load_config o w).2).
Proof. by rewrite load_config_store. Qed.

(** C6.  [set_api_config] changes the fields it is given and nothing else.
    With [base] the entry of the backend as [load_config] shows it before
    the call (the literal of empty strings when there is none): the entry
    returned is [base] with the given fields set; the file, once written,
    holds the loaded configuration with that entry in place of the old one,
    all other backends and the unknown top-level keys as loaded.  Called
    with [api_key] alone, all fields but [api_key] (so [base_url] and
    [model_name]) and [custom_models] are those of [base].  [base] itself is
    the entry of the file completed by migration when the file has one, and
    otherwise the entry [DEFAULT_CONFIG] holds for the backend (the literal
    of empty strings for a backend [DEFAULT_CONFIG] does not know): the
    entry of the module text in a process that has not changed
    [DEFAULT_CONFIG]. *)
Theorem set_api_config_keeps_other_fields
    (api_type : string) (api_key base_url model_name : option string)
    (k : string) (o1 : io_outcome) (w : world) :
  let entries := entries_of o1 w in
  let base := default fallback_value (entries !! api_type) in
  let r := set_api_config api_type api_key base_url model_name o1 WriteDone w in
  let r1 := set_api_config api_type (Some k) None None o1 WriteDone w in
  r.1 = setitem_opt "model_name" model_name
          (setitem_opt "base_url" base_url
             (setitem_opt "api_key" api_key base))
  ∧ CONFIG_FILE r.2
    = Holds (Document (Some (<[api_type := r.1]> entries))
                      (unknown_keys (loaded_value o1 w)))
  ∧ fields r1.1 = <["api_key" := k]> (fields base)
  ∧ fields r1.1 !! "base_url" = fields base !! "base_url"
  ∧ fields r1.1 !! "model_name" = fields base !! "model_name"
  ∧ custom_models r1.1 = custom_models base
  ∧ (∀ e, file_entry w api_type = Some e →
       base = match default_config w !! api_type with
              | Some d => Entry (fields e ∪ fields d)
                                (Some (default [] (custom_models e)))
              | None => e
              end)
  ∧ (file_entry w api_type = None →
       base = default fallback_value (default_config w !! api_type))
  ∧ (file_entry w api_type = None → default_config w = DEFAULT_CONFIG →
       base = default fallback_value (DEFAULT_CONFIG !! api_type)).
Proof.
  intros entries base r r1.
  destruct (set_api_config_spec api_type api_key base_url model_name o1 w)
    as [Hr Hf].
  destruct (set_api_config_spec api_type (Some k) None None o1 w) as [Hr1 _].
  cbv zeta in Hr, Hf, Hr1. fold (entries_of o1 w) in Hr, Hf, Hr1.
  fold entries in Hr, Hf, Hr1. fold base in Hr, Hf, Hr1.
  fold r in Hr, Hf. fold r1 in Hr1. simpl in Hr1.
  split; [done|]. split; [by rewrite Hr|]. rewrite Hr1.
  split; [done|].
  split; [by simpl; rewrite lookup_insert_ne|].
  split; [by simpl; rewrite lookup_insert_ne|].
  split; [done|].
  assert (Hbase : base = default fallback_value
            (match CONFIG_FILE w with
             | Holds doc =>
                 match api_configs doc with
                 | Some m => fill (m !! api_type) (default_config w !! api_type)
                 | None => default_config w !! api_type
                 end
             | _ => default_config w !! api_type
             end)).
  { subst base entries. unfold entries_of. rewrite loaded_value_eq.
    destruct (CONFIG_FILE w) as [| |doc]; simpl; [done..|].
    destruct (api_configs doc) as [m|]; simpl; [|done].
    by rewrite lookup_merge;
      destruct (m !! api_type), (default_config w !! api_type). }
  assert (Habs : file_entry w api_type = None →
                 base = default fallback_value (default_config w !! api_type)).
  { rewrite Hbase. unfold file_entry.
    destruct (CONFIG_FILE w) as [| |doc]; simpl; [done..|].
    destruct (api_configs doc) as [m|]; simpl; [|done].
    intros ->. by destruct (default_config w !! api_type). }
  split; [|split; [exact Habs|by intros H <-; apply Habs]].
  rewrite Hbase. unfold file_entry.
  destruct (CONFIG_FILE w) as [| |doc]; simpl; [done..|].
  destruct (api_configs doc) as [m|]; simpl; [|done].
  intros e ->. by destruct (default_config w !! api_type).
Qed.

(** The theorem at [sample_world]: saving a new key for Gemini keeps the
    proxy endpoint of the file. *)
Lemma set_api_config_keeps_other_fields_witness :
  fields (set_api_config "Gemini Native" (Some "AIzaSy-new") None None
            WriteDone WriteDone sample_world).1 !! "base_url"
  = Some "https://proxy.example".
Proof.
  pose proof (set_api_config_keeps_other_fields "Gemini Native" None None None
                "AIzaSy-new" WriteDone sample_world) as H.
  cbv zeta in H. destruct H as (_ & _ & _ & Hb & _).
  etrans; [exact Hb|]. vm_compute. reflexivity.
Defined.

(** C5, as amended.  [save_config] rewrites the file in place.  A write that
    runs to its end leaves the document of the configuration in the file.
    When [open] fails nothing changes.  When the write is cut short after
    [open] has emptied the file, the file is unreadable whatever it held
    before, and the next load returns the contents of [DEFAULT_CONFIG] with
    no other key: the state persisted before is gone.  [DEFAULT_CONFIG] is
    not touched.  After a write that ran to its end the next load returns
    the unknown top-level keys of the configuration written and, backend by
    backend, its entries as migration completes them ([fill]). *)
Theorem save_config_rewrites_in_place
    (c : config_obj) (w : world) (o : io_outcome) :
  CONFIG_FILE (save_config WriteDone c w)
    = Holds (config_value (default_config w) c)
  ∧ save_config OpenFailed c w = w
  ∧ CONFIG_FILE (save_config WriteInterrupted c w) = Unreadable
  ∧ loaded_value o (save_config WriteInterrupted c w)
    = Document (Some (default_config w)) ∅
  ∧ default_config (save_config o c w) = default_config w
  ∧ unknown_keys (loaded_value o (save_config WriteDone c w))
    = cfg_unknown_keys c
  ∧ ∀ b, entries_of o (save_config WriteDone c w) !! b
         = fill (dict_value (default_config w) (cfg_api_configs c) !! b)
                (default_config w !! b).
Proof.
  split; [done|]. split; [by destruct w|]. split; [done|].
  split; [by rewrite loaded_value_eq|]. split; [by destruct o|].
  unfold entries_of. rewrite loaded_value_eq. simpl. split; [done|].
  intros b. rewrite lookup_merge.
  by destruct (dict_value _ _ !! b), (default_config w !! b).
Qed.

(** C5 as stated fails: the configuration of [sample_world] is loaded and
    written back unchanged, and the write is cut short.  The key that was
    readable before is read as the default afterwards. *)
Lemma interrupted_save_loses_saved_state :
  let c := (load_config WriteDone sample_world).1 in
  let w' := save_config WriteInterrupted c sample_world in
  fields (get_api_config "Gemini Native" WriteDone sample_world).1 !! "api_key"
    = Some "AIzaSy-old"
  ∧ CONFIG_FILE w' = Unreadable
  ∧ fields (get_api_config "Gemini Native" WriteDone w').1 !! "api_key"
    = Some "".
Proof. vm_compute. done. Qed.

(** C7 as stated fails: a persisted custom list that holds the empty string.
    The code leaves it out; the list of the specification has it. *)
Lemma empty_custom_name_is_skipped :
  (get_model_list "Gemini Native" WriteDone empty_name_world).1
  ≠ effective_models_spec
      (default [] (BUILTIN_MODELS !! "Gemini Native"))
      (default [] (custom_models
                     (get_api_config "Gemini Native" WriteDone
                                     empty_name_world).1)).
Proof. vm_compute. intros [=]. Qed.

(** C8 as stated fails: the name is already a custom model.  The add does
    nothing and returns [False], the remove takes the model away. *)
Lemma add_then_remove_of_present_model_removes_it :
  let r1 := add_custom_model "Gemini Native" "my-model" WriteDone WriteDone
              sample_world in
  let r2 := remove_custom_model "Gemini Native" "my-model" WriteDone WriteDone
              r1.2 in
  r1.1 = false
  ∧ (catalog "Gemini Native" sample_world).1 = ["my-model"]
  ∧ (catalog "Gemini Native" r2.2).1 = []
  ∧ catalog "Gemini Native" r2.2 ≠ catalog "Gemini Native" sample_world.
Proof. vm_compute. by repeat split. Qed.

(** The add strips the name, the remove does not: a name with whitespace
    around it is added stripped and then not found. *)
Lemma remove_does_not_strip :
  let r1 := add_custom_model "Gemini Native" " foo " WriteDone WriteDone
              (fresh_world Missing) in
  let r2 := remove_custom_model "Gemini Native" " foo " WriteDone WriteDone
              r1.2 in
  r1.1 = true ∧ r2.1 = false
  ∧ (catalog "Gemini Native" r2.2).1 = ["foo"].
Proof. vm_compute. done. Qed.

(** The theorem on a first run (no file yet), for the name [foo]. *)
Lemma add_then_remove_restores_witness :
  catalog "Gemini Native"
    (remove_custom_model "Gemini Native" "foo" WriteDone WriteDone
       (add_custom_model "Gemini Native" "foo" WriteDone WriteDone
          (fresh_world Missing)).2).2
  = catalog "Gemini Native" (fresh_world Missing).
Proof.
  apply (add_then_remove_restores "Gemini Native" "foo" (fresh_world Missing)).
  - reflexivity.
  - discriminate.
  - vm_compute. apply not_elem_of_nil.
Defined.

(** The module text satisfies [defaults_ok]. *)
Lemma defaults_ok_fresh f : defaults_ok (default_config (fresh_world f)).
Proof. apply (bool_decide_unpack _). vm_compute. exact I. Qed.

(** The theorem at [sample_world]. *)
Lemma load_config_idempotent_additive_witness :
  loaded_value WriteDone (load_config WriteDone sample_world).2
  = loaded_value WriteDone sample_world
  ∧ unknown_keys (loaded_value WriteDone sample_world)
    = unknown_keys sample_document.
Proof.
  destruct (load_config_idempotent_additive WriteDone WriteDone sample_world)
    as (H1 & _ & _ & H4 & _).
  - apply (bool_decide_unpack _). vm_compute. exact I.
  - split; [exact H1|]. apply (H4 sample_document). reflexivity.
Defined.

(** [DEFAULT_CONFIG] is not constant: a custom model added while the file is
    missing lands in the list of [DEFAULT_CONFIG] itself and stays there
    when the model is removed from the file afterwards. *)
Lemma default_config_is_shared :
  let r1 := add_custom_model "Gemini Native" "foo" WriteDone WriteDone
              (fresh_world Missing) in
  let r2 := remove_custom_model "Gemini Native" "foo" WriteDone WriteDone
              r1.2 in
  default_config r2.2 !! "Gemini Native" ≫= custom_models = Some ["foo"]
  ∧ (catalog "Gemini Native" r2.2).1 = [].
Proof. vm_compute. done. Qed.

End ConfigProperties.

(** ** The Gemini node *)

Section GeminiProperties.
Import Gemini.

(** *** Blank strings *)

Lemma lstrip_whitespace s : whitespace_only s → PyStr.lstrip s = "".
Proof.
  unfold whitespace_only. induction s as [|a s IH]; simpl; [done|].
  intros H. apply Forall_cons in H as [Ha Hs]. rewrite Ha. by apply IH.
Qed.

Lemma lstrip_head s :
  PyStr.lstrip s = ""
  ∨ ∃ a t, PyStr.lstrip s = String a t ∧ PyStr.is_space a = false.
Proof.
  induction s as [|a s IH]; simpl; [by left|].
  destruct (PyStr.is_space a) eqn:Ha; [done|]. right. by exists a, s.
Qed.

Lemma lstrip_empty_whitespace s : PyStr.lstrip s = "" → whitespace_only s.
Proof.
  unfold whitespace_only. induction s as [|a s IH]; simpl; [by constructor|].
  destruct (PyStr.is_space a) eqn:Ha; [|done].
  intros H. constructor; [done|]. by apply IH.
Qed.

Lemma blank_whitespace s : PyStr.blank s = true ↔ whitespace_only s.
Proof.
  unfold PyStr.blank, PyStr.strip. split.
  - intros H. apply lstrip_empty_whitespace.
    destruct s as [|a s]; [done|].
    change (PyStr.truthy (String a s)) with true in H. cbn [negb orb] in H.
    destruct (lstrip_head (String a s)) as [He|(c & t & He & Hc)]; [done|].
    rewrite He in H. simpl in H. rewrite Hc in H.
    by destruct (PyStr.rstrip t).
  - intros H. rewrite (lstrip_whitespace s H). simpl. by destruct s.
Qed.

(** C2.  A request whose prompt or whose API key is empty or made of
    whitespace only makes [generate] raise a [ValueError] (the InvalidInput
    kind) with an empty trace: no client has been created and no backend
    call has been made. *)
Theorem generate_rejects_blank_input (E : environment)
    (prompt api_key model_name : string) (num_images : Z)
    (aspect_ratio resolution base_url : string)
    (ref_images : option tensor) (mask : option mask_tensor)
    (custom_model : string) (seed : Z) :
  whitespace_only prompt ∨ whitespace_only api_key →
  ∃ msg,
    generate E prompt api_key model_name num_images aspect_ratio resolution
             base_url ref_images mask custom_model seed
    = ([], Raised (ValueError msg)).
Proof.
  intros H. unfold generate.
  destruct (PyStr.blank prompt) eqn:Hp; [by eexists|].
  destruct H as [H|H].
  - apply blank_whitespace in H. congruence.
  - apply blank_whitespace in H. rewrite H. by eexists.
Qed.

(** *** The validation of the reference images *)

Lemma ref_limits_lookup model :
  MODEL_REF_IMAGE_LIMITS !! model =
    if decide (model = "gemini-2.5-flash-image") then Some (0, 3)
    else if decide (model = "gemini-3-pro-image-preview") then Some (0, 14)
    else None.
Proof.
  unfold MODEL_REF_IMAGE_LIMITS. simpl.
  rewrite lookup_insert. case_decide; [by subst; rewrite decide_True|].
  rewrite decide_False by done.
  rewrite lookup_insert. case_decide; [by subst; rewrite decide_True|].
  by rewrite decide_False.
Qed.

(** C4.  [validate_ref_images] raises a [ValueError] (constraint violation,
    InvalidInput kind), logging nothing, when the model has a registered
    inclusive (min, max) and the count of reference images is outside it;
    for a model absent from the table it accepts any count.  In [generate],
    with the table [MODEL_REF_IMAGE_LIMITS] and a count outside the range of
    the effective model, the run raises and its trace holds no backend call;
    when the stages before the validation pass (prompt and key not blank,
    SDK importable, client created) the exception is that [ValueError] and
    the trace is the creation of the client alone: the contents are never
    assembled and [generate_content] is never called. *)
Theorem reference_count_checked_before_request (E : environment)
    (prompt api_key model_name : string) (num_images : Z)
    (aspect_ratio resolution base_url : string)
    (ref_images : option tensor) (mask : option mask_tensor)
    (custom_model : string) (seed : Z)
    (backend : string) (limits : gmap string (nat * nat)) :
  let model := effective_model_of custom_model model_name in
  let r := generate E prompt api_key model_name num_images aspect_ratio
                    resolution base_url ref_images mask custom_model seed in
  (∀ m lo hi, limits !! m = Some (lo, hi) →
     ref_count ref_images < lo ∨ hi < ref_count ref_images →
     ∃ msg, validate_ref_images backend m ref_images limits
            = ([], Raised (ValueError msg)))
  ∧ (∀ m, limits !! m = None →
       validate_ref_images backend m ref_images limits = ([], Returned tt))
  ∧ (∀ lo hi, MODEL_REF_IMAGE_LIMITS !! model = Some (lo, hi) →
       ref_count ref_images < lo ∨ hi < ref_count ref_images →
       calls r.1 = 0
       ∧ (∃ e, r.2 = Raised e)
       ∧ (PyStr.blank prompt = false → PyStr.blank api_key = false →
          sdk_import E = None →
          new_client E (PyStr.strip api_key)
            (if PyStr.truthy (sanitize_url E base_url)
             then Some (sanitize_url E base_url) else None) = None →
          ∃ msg, r = ([CreateClient (PyStr.strip api_key)
                         (if PyStr.truthy (sanitize_url E base_url)
                          then Some (sanitize_url E base_url) else None)],
                      Raised (ValueError msg)))).
Proof.
  intros model r.
  assert (Hval : ∀ b m lo hi lim, lim !! m = Some (lo, hi) →
            ref_count ref_images < lo ∨ hi < ref_count ref_images →
            ∃ msg, validate_ref_images b m ref_images lim
                   = ([], Raised (ValueError msg))).
  { intros b m lo hi lim Hm Hout. unfold validate_ref_images.
    fold (ref_count ref_images). rewrite Hm.
    destruct (_ && _) eqn:Hin; [|by eexists].
    apply andb_true_iff in Hin as [H1%Nat.leb_le H2%Nat.leb_le]. lia. }
  split; [intros m lo hi; apply Hval|]. split.
  { intros m Hm. unfold validate_ref_images. by rewrite Hm. }
  intros lo hi Hm Hout.
  destruct (Hval "Gemini" model lo hi _ Hm Hout) as [msg Hv].
  subst r. unfold generate. fold model.
  destruct (PyStr.blank prompt); [by split; [|split; [eexists|]]|].
  destruct (PyStr.blank api_key); [by split; [|split; [eexists|]]|].
  destruct (sdk_import E); [by split; [|split; [eexists|]]|].
  destruct (new_client E _ _); [by split; [|split; [eexists|]]|].
  rewrite Hv. simpl. split; [done|]. split; [by eexists|].
  intros _ _ _ _. by eexists.
Qed.

(** *** Traces of the loop *)

Lemma filter_quiet tr : quiet tr → filter (λ ev, is_warning ev = false) tr = tr.
Proof.
  induction 1 as [|ev tr Hev _ IH]; [done|].
  rewrite filter_cons_True by done. by rewrite IH.
Qed.

Lemma filter_warnings E refs mask :
  filter (λ ev, is_warning ev = false) (conversion_warnings E refs mask) = [].
Proof.
  unfold conversion_warnings.
  destruct refs as [t|]; [destruct (tensor_to_pil E t)|];
    (destruct mask as [m|]; [destruct (mask_to_pil E m)|]); done.
Qed.

Lemma bind_returned {A B} (m : M A) (k : A → M B) a :
  m.2 = Returned a → bind m k = (m.1 ++ (k a).1, (k a).2).
Proof. destruct m as [l r]. simpl. intros ->. by destruct (k a). Qed.

Lemma bind_raised {A B} (m : M A) (k : A → M B) e :
  m.2 = Raised e → bind m k = (m.1, Raised e).
Proof. destruct m as [l r]. simpl. by intros ->. Qed.

Lemma extract_image_quiet b : quiet (extract_image b).1 ∧ calls (extract_image b).1 = 0.
Proof.
  unfold extract_image. destruct (as_image b); [by split; [constructor|]|].
  destruct (data b) as [raw|[e|raw]|]; simpl; split; try done;
    repeat constructor.
Qed.

Lemma parse_part_quiet st p : quiet (parse_part st p).1 ∧ calls (parse_part st p).1 = 0.
Proof.
  unfold parse_part. destruct (thought p); [by split; [constructor|]|].
  destruct (text p); [by split; [constructor|]|].
  destruct (inline_data p) as [b|]; [|by split; [constructor|]].
  pose proof (extract_image_quiet b) as [H1 H2].
  unfold bind. destruct (extract_image b) as [l [img|e]]; simpl in *.
  - rewrite app_nil_r. done.
  - done.
Qed.

Lemma calls_app l l' : calls (l ++ l') = calls l + calls l'.
Proof. unfold calls. by rewrite filter_app, length_app. Qed.

Lemma calls_call m c g l : calls (BackendCall m c g :: l) = S (calls l).
Proof. done. Qed.

Lemma calls_client k u l : calls (CreateClient k u :: l) = calls l.
Proof. done. Qed.

Lemma quiet_app l l' : quiet l → quiet l' → quiet (l ++ l').
Proof. apply Forall_app_2. Qed.

Lemma parse_part_result st p :
  (parse_part st p).2 =
    Returned (LoopState (all_images_data st ++ part_images p)
                        (all_text_messages st ++ part_texts p)
                        (response st)).
Proof.
  unfold parse_part, part_images, part_texts. destruct st as [imgs txts resp].
  simpl. destruct (thought p); [by rewrite !app_nil_r|].
  destruct (text p); [by rewrite !app_nil_r|].
  destruct (inline_data p) as [b|]; [|by rewrite !app_nil_r].
  unfold extract_image. destruct (as_image b); [by rewrite !app_nil_r|].
  destruct (data b) as [raw|[e|raw]|]; simpl; by rewrite !app_nil_r.
Qed.

Lemma parse_parts_result ps : ∀ st,
  (parse_parts st ps).2 =
    Returned (LoopState (all_images_data st ++ concat (part_images <$> ps))
                        (all_text_messages st ++ concat (part_texts <$> ps))
                        (response st))
  ∧ quiet (parse_parts st ps).1 ∧ calls (parse_parts st ps).1 = 0.
Proof.
  induction ps as [|p ps IH]; intros st; simpl.
  - destruct st. simpl. rewrite !app_nil_r. by split; [|split; [constructor|]].
  - rewrite (bind_returned _ _ _ (parse_part_result st p)).
    pose proof (parse_part_quiet st p) as [Hq Hc].
    destruct (IH (LoopState (all_images_data st ++ part_images p)
                            (all_text_messages st ++ part_texts p)
                            (response st))) as (H1 & H2 & H3).
    simpl. rewrite H1, calls_app, Hc, H3. simpl. rewrite <-!(assoc_L (++)).
    split; [done|]. split; [by apply quiet_app|done].
Qed.

Lemma api_loop_step E model contents cfg n idx st resp :
  generate_content E idx model contents cfg = inr resp →
  let st' := LoopState (all_images_data st ++ images_of resp)
                       (all_text_messages st ++ texts_of resp) (Some resp) in
  let tr := (parse_parts (LoopState (all_images_data st)
                            (all_text_messages st) (Some resp))
                         (parts resp)).1 in
  api_loop E model contents cfg (S n) idx st =
    (BackendCall model contents cfg
       :: tr ++ (api_loop E model contents cfg n (S idx) st').1,
     (api_loop E model contents cfg n (S idx) st').2)
  ∧ quiet tr ∧ calls tr = 0.
Proof.
  intros Hgc st' tr. simpl. rewrite Hgc.
  destruct (parse_parts_result (parts resp)
        (LoopState (all_images_data st) (all_text_messages st) (Some resp)))
      as (H1 & H2 & H3).
  rewrite (bind_returned _ _ _ H1). done.
Qed.

Lemma api_loop_quiet E model contents cfg n : ∀ idx st,
  quiet (api_loop E model contents cfg n idx st).1.
Proof.
  induction n as [|n IH]; intros idx st; [constructor|].
  destruct (generate_content E idx model contents cfg) as [err|resp] eqn:Hgc.
  - simpl. rewrite Hgc. by repeat constructor.
  - destruct (api_loop_step E model contents cfg n idx st resp Hgc)
      as (-> & Hq & _).
    simpl. constructor; [done|]. by apply quiet_app.
Qed.

Lemma api_loop_returns E model contents cfg rs : ∀ idx st,
  (∀ i r, rs !! i = Some r →
          generate_content E (idx + i) model contents cfg = inr r) →
  (api_loop E model contents cfg (length rs) idx st).2 =
    Returned (LoopState (all_images_data st ++ concat (images_of <$> rs))
                        (all_text_messages st ++ concat (texts_of <$> rs))
                        (from_option Some (response st) (last rs)))
  ∧ calls (api_loop E model contents cfg (length rs) idx st).1 = length rs.
Proof.
  induction rs as [|resp rs IH]; intros idx st Hgc.
  - destruct st. simpl. by rewrite !app_nil_r.
  - pose proof (Hgc 0 resp eq_refl) as H0. rewrite Nat.add_0_r in H0.
    change (length (resp :: rs)) with (S (length rs)).
    destruct (api_loop_step E model contents cfg (length rs) idx st resp H0)
      as (-> & _ & Hc).
    edestruct (IH (S idx)) as [H4 H5].
    { intros i r Hi. replace (S idx + i) with (idx + S i) by lia.
      by apply Hgc. }
    cbn [fst snd]. rewrite H4. split.
    + cbn [all_images_data all_text_messages response].
      rewrite <-!(assoc_L (++)). do 2 f_equal.
      destruct rs as [|r1 rs]; [done|].
      simpl. by rewrite !last_cons; destruct (last rs).
    + rewrite calls_call, calls_app, Hc, H5. done.
Qed.

Lemma api_loop_raises E model contents cfg err rs : ∀ idx st n,
  (∀ i r, rs !! i = Some r →
          generate_content E (idx + i) model contents cfg = inr r) →
  length rs < n →
  generate_content E (idx + length rs) model contents cfg = inl err →
  (api_loop E model contents cfg n idx st).2
    = Raised (classify_error model err)
  ∧ calls (api_loop E model contents cfg n idx st).1 = S (length rs).
Proof.
  induction rs as [|resp rs IH]; intros idx st n Hgc Hn Herr.
  - destruct n as [|n]; [simpl in Hn; lia|]. simpl in *.
    rewrite Nat.add_0_r in Herr. by rewrite Herr.
  - destruct n as [|n]; [simpl in Hn; lia|].
    pose proof (Hgc 0 resp eq_refl) as H0. rewrite Nat.add_0_r in H0.
    destruct (api_loop_step E model contents cfg n idx st resp H0)
      as (-> & _ & Hc).
    edestruct (IH (S idx)) as [H4 H5].
    { intros i r Hi. replace (S idx + i) with (idx + S i) by lia.
      by apply Hgc. }
    { simpl in Hn. apply Nat.succ_lt_mono. exact Hn. }
    { replace (S idx + length rs) with (idx + S (length rs)) by lia.
      exact Herr. }
    cbn [fst snd]. rewrite H4. split; [done|].
    rewrite calls_call, calls_app, Hc, H5. done.
Qed.

Lemma finish_silent st : (finish st).1 = [].
Proof.
  unfold finish. destruct (all_images_data st); [|done].
  by destruct (response st).
Qed.

Lemma generate_reaches (E : environment)
    (prompt api_key model_name : string) (num_images : Z)
    (aspect_ratio resolution base_url : string)
    (ref_images : option tensor) (mask : option mask_tensor)
    (custom_model : string) (seed : Z) w contents :
  reaches_validation E prompt api_key base_url →
  validate_ref_images "Gemini" (effective_model_of custom_model model_name)
    ref_images MODEL_REF_IMAGE_LIMITS = ([], Returned tt) →
  prepare_contents E prompt ref_images mask = (w, Returned contents) →
  let loop := api_loop E (effective_model_of custom_model model_name) contents
                (GenConfig (knob resolution) (knob aspect_ratio))
                (Z.to_nat num_images) 0 (LoopState [] [] None) in
  generate E prompt api_key model_name num_images aspect_ratio resolution
           base_url ref_images mask custom_model seed
  = (CreateClient (PyStr.strip api_key) (http_options E base_url)
       :: w ++ (bind loop finish).1,
     (bind loop finish).2).
Proof.
  intros (Hp & Hk & Hi & Hc) Hv Hpc loop. unfold generate.
  rewrite Hp, Hk, Hi. fold (http_options E base_url). rewrite Hc, Hv, Hpc.
  simpl. fold loop. by destruct (bind loop finish).
Qed.

Lemma validate_none model :
  validate_ref_images "Gemini" model None MODEL_REF_IMAGE_LIMITS
  = ([], Returned tt).
Proof.
  unfold validate_ref_images. rewrite ref_limits_lookup.
  repeat case_decide; done.
Qed.

Lemma prepare_contents_total E prompt refs mask :
  ∃ contents,
    prepare_contents E prompt refs mask
      = (conversion_warnings E refs mask, Returned contents)
    ∧ prepare_contents E prompt (usable_refs E refs) (usable_mask E mask)
      = ([], Returned contents).
Proof.
  unfold prepare_contents, conversion_warnings, usable_refs, usable_mask.
  destruct refs as [t|]; [destruct (tensor_to_pil E t) as [e|ps] eqn:Ht|];
    (destruct mask as [m|];
       [destruct (mask_to_pil E m) as [e'|[p|]] eqn:Hm|]);
    simpl; rewrite ?Ht, ?Hm; simpl; by eexists.
Qed.

Lemma conversion_warnings_calls E refs mask :
  calls (conversion_warnings E refs mask) = 0.
Proof.
  unfold conversion_warnings.
  destruct refs as [t|]; [destruct (tensor_to_pil E t)|];
    (destruct mask as [m|]; [destruct (mask_to_pil E m)|]); done.
Qed.

Lemma calls_nil_filter tr :
  calls tr = 0 → filter (λ ev, is_call ev = true) tr = [].
Proof. unfold calls. apply nil_length_inv. Qed.

Lemma api_loop_calls_shape E model contents cfg n : ∀ idx st,
  filter (λ ev, is_call ev = true) (api_loop E model contents cfg n idx st).1
  = replicate (calls (api_loop E model contents cfg n idx st).1)
              (BackendCall model contents cfg)
  ∧ (calls (api_loop E model contents cfg n idx st).1 ≤ n)%nat.
Proof.
  induction n as [|n IH]; intros idx st; [by split|].
  destruct (generate_content E idx model contents cfg) as [err|resp] eqn:Hgc.
  - simpl. rewrite Hgc. simpl. split; [done|]. unfold calls. simpl. lia.
  - destruct (api_loop_step E model contents cfg n idx st resp Hgc)
      as (-> & _ & Hc).
    cbn [fst snd]. destruct (IH (S idx)
      (LoopState (all_images_data st ++ images_of resp)
                 (all_text_messages st ++ texts_of resp) (Some resp)))
      as [H1 H2].
    rewrite calls_call, calls_app, Hc. simpl.
    rewrite filter_cons_True by done. rewrite filter_app.
    rewrite (calls_nil_filter _ Hc). simpl. rewrite H1. split; [done|lia].
Qed.

Lemma prepare_contents_eq E prompt refs mask :
  prepare_contents E prompt refs mask
  = (conversion_warnings E refs mask,
     Returned (Prompt prompt
                 :: (Picture <$> converted_refs E refs)
                 ++ (Picture <$> converted_mask E mask))).
Proof.
  unfold prepare_contents, conversion_warnings, converted_refs, converted_mask.
  destruct refs as [t|]; [destruct (tensor_to_pil E t) as [e|ps]|];
    (destruct mask as [m|];
       [destruct (mask_to_pil E m) as [e'|[p|]]|]);
    simpl; rewrite ?app_nil_r; try done.
  all: by rewrite <-?(assoc_L (++)).
Qed.

Lemma loop_finish_trace E model contents cfg n idx st :
  (bind (api_loop E model contents cfg n idx st) finish).1
  = (api_loop E model contents cfg n idx st).1.
Proof.
  destruct (api_loop E model contents cfg n idx st) as [l [st'|e]]; simpl;
    [|done].
  pose proof (finish_silent st') as Hf. destruct (finish st') as [l' o'].
  simpl in *. subst l'. by rewrite app_nil_r.
Qed.

Lemma finish_empty st :
  all_images_data st = [] →
  match response st with
  | None => (finish st).2 = Raised (UnboundLocalError "response")
  | Some _ =>
      ∃ msg, (finish st).2
             = Raised (RuntimeError
                         ("[APIImage Gemini] Generation failed: " +:+ msg))
  end.
Proof.
  intros Hi. unfold finish. rewrite Hi.
  destruct (response st); [by eexists|done].
Qed.

(** C10.  A run of [generate] whose reference images pass the count
    validation, whatever the conversions of the reference images and of the
    mask do.  [prepare_contents] never raises: it returns the prompt followed
    by the images of the conversions that returned, and logs one warning per
    conversion that raised; an input whose conversion raised adds nothing to
    the contents and its warning carries the text of the exception.  The
    outcome of the run (result or exception) is that of the run in which the
    inputs that failed were not supplied, and the traces differ by the
    warnings only.  When the stages before pass, the trace is the creation
    of the client, the warnings, then the loop: every backend call carries
    those contents; when all [num_images] calls return, exactly [num_images]
    calls are made and the run returns the images of the responses with the
    joined text (or raises the error of the empty result when they hold no
    image); when a call raises, the run raises the classified error of the
    exception of that call. *)
Theorem conversion_failure_not_surfaced (E : environment)
    (prompt api_key model_name : string) (num_images : Z)
    (aspect_ratio resolution base_url : string)
    (ref_images : option tensor) (mask : option mask_tensor)
    (custom_model : string) (seed : Z) :
  validate_ref_images "Gemini" (effective_model_of custom_model model_name)
    ref_images MODEL_REF_IMAGE_LIMITS = ([], Returned tt) →
  let r := generate E prompt api_key model_name num_images aspect_ratio
             resolution base_url ref_images mask custom_model seed in
  let r' := generate E prompt api_key model_name num_images aspect_ratio
              resolution base_url (usable_refs E ref_images)
              (usable_mask E mask) custom_model seed in
  let model := effective_model_of custom_model model_name in
  let cfg := GenConfig (knob resolution) (knob aspect_ratio) in
  let contents := Prompt prompt
                    :: (Picture <$> converted_refs E ref_images)
                    ++ (Picture <$> converted_mask E mask) in
  let warnings := conversion_warnings E ref_images mask in
  (prepare_contents E prompt ref_images mask = (warnings, Returned contents)
   ∧ prepare_contents E prompt (usable_refs E ref_images) (usable_mask E mask)
     = ([], Returned contents))
  ∧ (∀ t e, ref_images = Some t → tensor_to_pil E t = inl e →
       converted_refs E ref_images = []
       ∧ LogWarning ("[Gemini] Failed to process ref_images: " +:+ e)
           ∈ warnings)
  ∧ (∀ m e, mask = Some m → mask_to_pil E m = inl e →
       converted_mask E mask = []
       ∧ LogWarning ("[Gemini] Failed to process mask: " +:+ e) ∈ warnings)
  ∧ r.2 = r'.2
  ∧ filter (λ ev, is_warning ev = false) r.1 = r'.1
  ∧ (reaches_validation E prompt api_key base_url →
     (∃ tr, r.1 = CreateClient (PyStr.strip api_key) (http_options E base_url)
                    :: warnings ++ tr
            ∧ quiet tr)
     ∧ filter (λ ev, is_call ev = true) r.1
       = replicate (calls r.1) (BackendCall model contents cfg)
     ∧ ∀ rs : list response_t,
         (∀ i resp, rs !! i = Some resp →
                    generate_content E i model contents cfg = inr resp) →
         (length rs = Z.to_nat num_images →
            calls r.1 = Z.to_nat num_images
            ∧ match concat (images_of <$> rs) with
              | [] =>
                  match last rs with
                  | None => r.2 = Raised (UnboundLocalError "response")
                  | Some _ =>
                      ∃ msg, r.2 = Raised (RuntimeError
                               ("[APIImage Gemini] Generation failed: "
                                +:+ msg))
                  end
              | imgs => r.2 = Returned (imgs, text_response_of rs)
              end)
         ∧ (∀ err, length rs < Z.to_nat num_images →
              generate_content E (length rs) model contents cfg = inl err →
              calls r.1 = S (length rs)
              ∧ r.2 = Raised (classify_error model err))).
Proof.
  intros Hv r r' model cfg contents warnings.
  pose proof (prepare_contents_eq E prompt ref_images mask) as Hpc.
  fold contents warnings in Hpc.
  destruct (prepare_contents_total E prompt ref_images mask)
    as (c & Hpc0 & Hpc').
  fold warnings in Hpc0. rewrite Hpc in Hpc0. injection Hpc0 as <-.
  split; [done|]. split.
  { intros t e -> Ht. subst warnings.
    unfold converted_refs, conversion_warnings. rewrite Ht.
    split; [done|]. apply elem_of_app. left. by left. }
  split.
  { intros m e -> Hm. subst warnings.
    unfold converted_mask, conversion_warnings. rewrite Hm.
    split; [done|]. apply elem_of_app. right. by left. }
  assert (Hv' : validate_ref_images "Gemini" model
                  (usable_refs E ref_images) MODEL_REF_IMAGE_LIMITS
                = ([], Returned tt)).
  { unfold usable_refs. destruct ref_images as [t|]; [|done].
    destruct (tensor_to_pil E t); [apply validate_none|done]. }
  destruct (PyStr.blank prompt) eqn:Hp.
  { subst r r'. unfold generate. rewrite Hp. simpl.
    split; [done|]. split; [done|]. intros [? _]. congruence. }
  destruct (PyStr.blank api_key) eqn:Hk.
  { subst r r'. unfold generate. rewrite Hp, Hk. simpl.
    split; [done|]. split; [done|]. intros (_ & ? & _). congruence. }
  destruct (sdk_import E) eqn:Hi.
  { subst r r'. unfold generate. rewrite Hp, Hk, Hi. simpl.
    split; [done|]. split; [done|]. intros (_ & _ & ? & _). congruence. }
  destruct (new_client E (PyStr.strip api_key) (http_options E base_url))
    eqn:Hc.
  { subst r r'. unfold generate. rewrite Hp, Hk, Hi.
    fold (http_options E base_url). rewrite Hc. simpl.
    split; [done|]. split; [done|]. intros (_ & _ & _ & ?). congruence. }
  assert (Hr : reaches_validation E prompt api_key base_url) by done.
  subst r r'.
  rewrite (generate_reaches E prompt api_key model_name num_images aspect_ratio
             resolution base_url ref_images mask custom_model seed _ _
             Hr Hv Hpc).
  rewrite (generate_reaches E prompt api_key model_name num_images aspect_ratio
             resolution base_url _ _ custom_model seed _ _ Hr Hv' Hpc').
  fold model cfg. cbn [fst snd].
  set (loop := api_loop E model contents cfg (Z.to_nat num_images) 0
                        (LoopState [] [] None)).
  assert (Hb : (bind loop finish).1 = loop.1) by apply loop_finish_trace.
  assert (Hq : quiet loop.1) by apply api_loop_quiet.
  assert (Hw : calls warnings = 0) by apply conversion_warnings_calls.
  split; [done|]. split.
  { rewrite filter_cons_True by done.
    rewrite filter_app. subst warnings. rewrite filter_warnings.
    simpl. f_equal. apply filter_quiet. by rewrite Hb. }
  intros _. split.
  { exists (bind loop finish).1. split; [done|]. by rewrite Hb. }
  rewrite Hb, calls_client, calls_app, Hw. simpl. split.
  { destruct (api_loop_calls_shape E model contents cfg (Z.to_nat num_images) 0
                (LoopState [] [] None)) as [H1 _].
    fold loop in H1.
    rewrite filter_cons_False by done.
    by rewrite filter_app, (calls_nil_filter _ Hw). }
  intros rs Hgc. split.
  - intros Hlen. subst loop. rewrite <-Hlen.
    destruct (api_loop_returns E model contents cfg rs 0 (LoopState [] [] None))
      as [H1 H2]; [done|].
    split; [done|].
    rewrite (bind_returned _ _ _ H1). cbn [fst snd]. simpl.
    destruct (concat (images_of <$> rs)) as [|i imgs] eqn:Himgs.
    + pose proof (finish_empty
        (LoopState [] (concat (texts_of <$> rs))
                   (from_option Some None (last rs))) eq_refl) as Hf.
      simpl in Hf. by destruct (last rs).
    + unfold finish, text_response_of. done.
  - intros err Hlen Herr. subst loop.
    destruct (api_loop_raises E model contents cfg err rs 0
                (LoopState [] [] None) (Z.to_nat num_images))
      as [H1 H2]; [done..|].
    by rewrite (bind_raised _ _ _ H1).
Qed.

(** C1, as amended.  For a run that reaches the loop, with [contents] the
    list built from the inputs and [rs] the responses of the first calls:
    when all [num_images] calls return, exactly [num_images] backend calls
    are made, and the run returns the images of all responses in order with
    the joined text, or raises when no image at all was extracted; when the
    call after [rs] raises, it is the last one ([length rs + 1] calls in
    all) and the run raises the classified [RuntimeError] of that exception,
    whatever images the responses [rs] carried. *)
Theorem loop_stops_at_first_backend_error (E : environment)
    (prompt api_key model_name : string) (num_images : Z)
    (aspect_ratio resolution base_url : string)
    (ref_images : option tensor) (mask : option mask_tensor)
    (custom_model : string) (seed : Z)
    (w : list event) (contents : list content) (rs : list response_t) :
  reaches_validation E prompt api_key base_url →
  validate_ref_images "Gemini" (effective_model_of custom_model model_name)
    ref_images MODEL_REF_IMAGE_LIMITS = ([], Returned tt) →
  prepare_contents E prompt ref_images mask = (w, Returned contents) →
  let model := effective_model_of custom_model model_name in
  let cfg := GenConfig (knob resolution) (knob aspect_ratio) in
  let r := generate E prompt api_key model_name num_images aspect_ratio
             resolution base_url ref_images mask custom_model seed in
  (∀ i resp, rs !! i = Some resp →
             generate_content E i model contents cfg = inr resp) →
  (length rs = Z.to_nat num_images →
     calls r.1 = Z.to_nat num_images
     ∧ match concat (images_of <$> rs) with
       | [] => ∃ e, r.2 = Raised e
       | imgs => r.2 = Returned (imgs, text_response_of rs)
       end)
  ∧ (∀ err, length rs < Z.to_nat num_images →
       generate_content E (length rs) model contents cfg = inl err →
       calls r.1 = S (length rs)
       ∧ r.2 = Raised (classify_error model err)).
Proof.
  intros Hr Hv Hpc model cfg r Hgc. subst r.
  rewrite (generate_reaches E prompt api_key model_name num_images aspect_ratio
             resolution base_url ref_images mask custom_model seed _ _
             Hr Hv Hpc).
  fold model cfg. cbn [fst snd].
  assert (Hw : calls w = 0).
  { destruct (prepare_contents_total E prompt ref_images mask)
      as (c & Hc & _). rewrite Hpc in Hc. injection Hc as -> _.
    apply conversion_warnings_calls. }
  split.
  - intros Hlen. rewrite <-Hlen.
    destruct (api_loop_returns E model contents cfg rs 0 (LoopState [] [] None))
      as [H1 H2]; [done|].
    rewrite (bind_returned _ _ _ H1). cbn [fst snd].
    rewrite finish_silent, app_nil_r.
    split.
    + by rewrite calls_client, calls_app, Hw, H2.
    + unfold finish, text_response_of. simpl.
      destruct (concat (images_of <$> rs)) as [|i imgs]; [|done].
      destruct (from_option Some None (last rs)); by eexists.
  - intros err Hlen Herr.
    destruct (api_loop_raises E model contents cfg err rs 0
                (LoopState [] [] None) (Z.to_nat num_images))
      as [H1 H2]; [done..|].
    rewrite (bind_raised _ _ _ H1). cbn [fst snd].
    split; [|done].
    by rewrite calls_client, calls_app, Hw, H2.
Qed.

(** C1 as stated fails: three images requested, the first call returns an
    image, the second raises.  Two calls are made, not three, and the run
    raises; the image of the first call is not returned. *)
Lemma partial_images_are_discarded :
  let r := generate second_call_fails "a cat" "AIzaSy-key"
             "gemini-2.5-flash-image" 3 "Default" "Default" "" None None "" 0 in
  calls r.1 = 2
  ∧ r.2 = Raised (RuntimeError "[APIImage Gemini] API Error: 500 INTERNAL")
  ∧ images_of (Response [image_part "PNG-1"]
                        [Candidate (Some "FinishReason.STOP") []]) = ["PNG-1"].
Proof. vm_compute. done. Qed.

(** With no image extracted [finish] never returns: it raises, and when the
    loop ran at least once the exception is the [RuntimeError] whose message
    joins the diagnostics of the candidates of the last response, then the
    first 500 characters of the text of all iterations when there is any,
    or the fixed notice when there is neither. *)
Lemma finish_without_images st :
  all_images_data st = [] →
  (∃ e, (finish st).2 = Raised e)
  ∧ ∀ resp, response st = Some resp →
      ∃ error_parts,
        (finish st).2
        = Raised (RuntimeError ("[APIImage Gemini] Generation failed: " +:+
                                PyStr.join " | " error_parts))
        ∧ error_parts ≠ []
        ∧ (∀ cand x, cand ∈ candidates resp →
                     x ∈ candidate_error_parts cand → x ∈ error_parts)
        ∧ (all_text_messages st ≠ [] →
           ("Model response: " +:+
              PyStr.take 500 (PyStr.join newline (all_text_messages st)))
             ∈ error_parts).
Proof.
  intros Hi. unfold finish. rewrite Hi. split.
  { destruct (response st); by eexists. }
  intros resp ->.
  set (diag := concat (candidate_error_parts <$> candidates resp)).
  assert (Hd : ∀ cand x, cand ∈ candidates resp →
                         x ∈ candidate_error_parts cand → x ∈ diag).
  { intros cand x Hc Hx. subst diag.
    induction (candidates resp) as [|c cs IH]; [by apply elem_of_nil in Hc|].
    simpl. apply elem_of_app. apply elem_of_cons in Hc as [->|Hc]; [by left|].
    right. by apply IH. }
  destruct (all_text_messages st) as [|t ts] eqn:Ht.
  - destruct diag as [|d0 ds] eqn:Hdiag.
    + exists ["No image data in response"]. split; [done|]. split; [done|].
      split; [|done]. intros cand x Hc Hx.
      by pose proof (Hd cand x Hc Hx) as ?%elem_of_nil.
    + exists (d0 :: ds). split; [done|]. split; [done|]. by split.
  - exists (diag ++ ["Model response: " +:+
                       PyStr.take 500 (PyStr.join newline (t :: ts))]).
    split.
    { by destruct diag. }
    split; [by destruct diag|]. split.
    + intros cand x Hc Hx. apply elem_of_app. left. by apply (Hd cand x).
    + intros _. apply elem_of_app. right. by left.
Qed.

(** C3 at its failing input: two images requested, the first response is
    blocked for safety (no parts), the second is a refusal in words.  The
    message raised carries the text only; the finish reason and the blocked
    safety rating of the first response are not in it.  With one image
    requested the same first response yields both. *)
Lemma earlier_diagnostics_are_dropped :
  (generate blocked_then_refused "a cat" "AIzaSy-key" "gemini-2.5-flash-image"
     2 "Default" "Default" "" None None "" 0).2
  = Raised (RuntimeError
      "[APIImage Gemini] Generation failed: Model response: I cannot draw that.")
  ∧ (generate blocked_then_refused "a cat" "AIzaSy-key" "gemini-2.5-flash-image"
     1 "Default" "Default" "" None None "" 0).2
  = Raised (RuntimeError
      "[APIImage Gemini] Generation failed: Blocked: FinishReason.SAFETY | Safety: HARM_CATEGORY_DANGEROUS_CONTENT=HIGH").
Proof. vm_compute. done. Qed.

(** The theorem for a prompt of three spaces. *)
Lemma generate_rejects_blank_input_witness :
  ∃ msg,
    generate second_call_fails "   " "AIzaSy-key" "gemini-2.5-flash-image" 1
             "Default" "Default" "" None None "" 0
    = ([], Raised (ValueError msg)).
Proof.
  apply generate_rejects_blank_input. left. repeat constructor.
Defined.

(** The theorem for five reference images sent to a model that takes at
    most three. *)
Lemma reference_count_checked_before_request_witness :
  ∃ msg,
    generate second_call_fails "a cat" "AIzaSy-key" "gemini-2.5-flash-image" 1
             "Default" "Default" ""
             (Some ["r1"; "r2"; "r3"; "r4"; "r5"]) None "" 0
    = ([CreateClient "AIzaSy-key" None], Raised (ValueError msg)).
Proof.
  destruct (reference_count_checked_before_request second_call_fails
              "a cat" "AIzaSy-key" "gemini-2.5-flash-image" 1
              "Default" "Default" ""
              (Some ["r1"; "r2"; "r3"; "r4"; "r5"]) None "" 0
              "Gemini" MODEL_REF_IMAGE_LIMITS) as (_ & _ & H).
  destruct (H 0 3) as (_ & _ & H3).
  - vm_compute. reflexivity.
  - right. simpl. lia.
  - apply H3; reflexivity.
Defined.

(** The theorem where both conversions raise: two warnings are logged, the
    one backend call carries the prompt alone, and the run returns the image
    of the response. *)
Lemma conversion_failure_not_surfaced_witness :
  let r := generate conversions_fail "a cat" "AIzaSy-key"
             "gemini-2.5-flash-image" 1 "Default" "Default" ""
             (Some ["r1"; "r2"]) (Some "m") "" 0 in
  filter (λ ev, is_call ev = true) r.1
  = [BackendCall "gemini-2.5-flash-image" [Prompt "a cat"] (GenConfig None None)]
  ∧ r.2 = Returned (["PNG-1"], "").
Proof.
  destruct (conversion_failure_not_surfaced conversions_fail "a cat"
              "AIzaSy-key" "gemini-2.5-flash-image" 1 "Default" "Default" ""
              (Some ["r1"; "r2"]) (Some "m") "" 0)
    as (_ & _ & _ & _ & _ & H).
  - vm_compute. reflexivity.
  - destruct H as (_ & Hshape & Hrs).
    + repeat split; reflexivity.
    + destruct (Hrs [Response [image_part "PNG-1"]
                              [Candidate (Some "FinishReason.STOP") []]])
        as [Hall _].
      * intros [|i] resp Hi; simpl in Hi; [|discriminate].
        injection Hi as <-. reflexivity.
      * destruct (Hall eq_refl) as [Hcalls Hres].
        split.
        -- etrans; [exact Hshape|]. rewrite Hcalls. reflexivity.
        -- exact Hres.
Defined.

(** The theorem for three images requested when the second call raises. *)
Lemma loop_stops_at_first_backend_error_witness :
  let r := generate second_call_fails "a cat" "AIzaSy-key"
             "gemini-2.5-flash-image" 3 "Default" "Default" "" None None "" 0 in
  calls r.1 = 2
  ∧ r.2 = Raised (classify_error "gemini-2.5-flash-image" "500 INTERNAL").
Proof.
  destruct (loop_stops_at_first_backend_error second_call_fails "a cat"
              "AIzaSy-key" "gemini-2.5-flash-image" 3 "Default" "Default" ""
              None None "" 0 [] [Prompt "a cat"]
              [Response [image_part "PNG-1"]
                        [Candidate (Some "FinishReason.STOP") []]])
    as [_ H].
  - repeat split; reflexivity.
  - vm_compute. reflexivity.
  - reflexivity.
  - intros [|i] resp Hi; simpl in Hi; [|discriminate].
    injection Hi as <-. reflexivity.
  - apply (H "500 INTERNAL").
    + simpl. lia.
    + reflexivity.
Defined.

End GeminiProperties.

(** * Further properties

    The properties below go beyond the claims above.  They are read off the
    code of [config.py], of the two configuration nodes, of the Gemini node,
    of [save_images] and of [_ensure_packages]. *)

(** ** config.py: reading, adding, removing, sharing *)

Section ConfigFurther.
Import Config.

(** *** The configuration read back after a write *)

Lemma entries_of_eq o w :
  entries_of o w =
    match CONFIG_FILE w with
    | Holds doc =>
        match api_configs doc with
        | None => default_config w
        | Some m => merge fill m (default_config w)
        end
    | _ => default_config w
    end.
Proof.
  unfold entries_of. rewrite loaded_value_eq.
  by destruct (CONFIG_FILE w) as [| |doc].
Qed.

Lemma fill_covers e d : covers e d → fill (Some e) (Some d) = Some e.
Proof.
  intros [Hk [l Hl]]. destruct e as [f c]. simpl in *. subst c. simpl.
  do 2 f_equal. apply map_eq. intros k. rewrite lookup_union.
  destruct (f !! k) as [x|] eqn:Hf; simpl.
  - by destruct (fields d !! k).
  - destruct (fields d !! k) as [y|] eqn:Hd; [|done].
    destruct (Hk k) as [z Hz]; [by eexists|]. congruence.
Qed.

Lemma covers_refl d : is_Some (custom_models d) → covers d d.
Proof. by split. Qed.

Lemma fill_covered fr b :
  covered fr → fill (frame_entry fr b) (store fr !! b) = frame_entry fr b.
Proof.
  intros Hc. destruct (store fr !! b) as [d|] eqn:Hd.
  - destruct (Hc b d Hd) as (e & -> & He). by apply fill_covers.
  - by destruct (frame_entry fr b).
Qed.

Lemma load_config_covered o w :
  defaults_ok (default_config w) →
  covered (Frame (load_config o w).1 (default_config w)).
Proof.
  intros Hok b d Hd. simpl in Hd. rewrite entries_of_frame, entries_of_eq.
  pose proof (Hok _ _ Hd) as Hc.
  destruct (CONFIG_FILE w) as [| |doc]; [by exists d; split; [|split]..|].
  destruct (api_configs doc) as [m|]; [|by exists d; split; [|split]].
  rewrite lookup_merge, Hd. destruct (m !! b) as [e|]; simpl.
  - eexists; split; [done|]. split; simpl; [|by eexists].
    intros k Hk. rewrite lookup_union. destruct (fields e !! k); simpl.
    + by destruct (fields d !! k).
    + by destruct Hk as [y ->].
  - by exists d; split; [|split].
Qed.

Lemma covered_step b G fr fr' :
  grows G →
  covered fr → defaults_ok (store fr') →
  evolves b (fmap G) fr fr' → store_step b G fr fr' →
  covered fr'.
Proof.
  intros HG Hc Hok (_ & He & Hne & _) [Hs Hs2] b2 d' Hd'.
  destruct (decide (b2 = b)) as [->|Hb].
  - destruct (Hs d' Hd') as [H|[(d & H & ->)|H]].
    + destruct (Hc b d' H) as (e & Hfe & Hcov).
      exists (G e). split; [by rewrite He, Hfe|]. by apply HG.
    + destruct (Hc b d H) as (e & Hfe & Hcov).
      exists (G e). split; [by rewrite He, Hfe|]. by apply HG.
    + exists d'. split; [done|]. apply covers_refl. by apply (Hok b d').
  - rewrite Hs2 in Hd' by done. destruct (Hc b2 d' Hd') as (e & Hfe & Hcov).
    exists e. split; [|done]. by rewrite Hne.
Qed.

Lemma grows_setitem k v : grows (setitem k v).
Proof.
  intros e d [Hk Hc]. split; (split; [|done]); simpl; intros j.
  - intros Hj. destruct (decide (j = k)) as [->|?].
    + rewrite lookup_insert_eq. by eexists.
    + rewrite lookup_insert_ne by done. by apply Hk.
  - destruct (decide (j = k)) as [->|?].
    + rewrite !lookup_insert_eq. by eexists.
    + rewrite !lookup_insert_ne by done. by apply Hk.
Qed.

Lemma grows_setitem_opt k v : grows (setitem_opt k v).
Proof.
  destruct v; [apply grows_setitem|]. intros e d H. by split.
Qed.

Lemma grows_on_customs h : grows (on_customs h).
Proof.
  intros e d [Hk [l Hl]]. split; (split; [done|]); simpl; rewrite Hl; by eexists.
Qed.

Lemma grows_setdefault_customs : grows setdefault_customs.
Proof. intros e d [Hk Hc]. split; (split; [done|]); simpl; by eexists. Qed.

Lemma own_lookup_dict fr b e :
  dict_lookup fr b = Some (OwnEntry e) →
  ∃ m, cfg_api_configs (config fr) = OwnDict m.
Proof.
  destruct fr as [[[m|] u] D]; unfold dict_lookup; simpl; [by eexists|].
  by destruct (D !! b).
Qed.

Lemma dict_insert_store_own b e fr m :
  cfg_api_configs (config fr) = OwnDict m → store (dict_insert b e fr) = store fr.
Proof. destruct fr as [[d u] D]. simpl. intros ->. done. Qed.

Lemma store_step_same b G fr fr' : store fr' = store fr → store_step b G fr fr'.
Proof.
  intros Hs. unfold store_step. rewrite Hs. split; [by left|done].
Qed.

Lemma store_step_alter b G c D :
  store_step b G (Frame c D) (Frame c (alter G b D)).
Proof.
  split; simpl.
  - intros d'. rewrite lookup_alter_eq. destruct (D !! b) as [d|]; [|done].
    intros [= <-]. right; left. by exists d.
  - intros b2 Hne. by rewrite lookup_alter_ne.
Qed.

Lemma cfg_setitem_store b k v fr :
  frame_ok fr → store_step b (setitem k v) fr (cfg_setitem b k v fr).
Proof.
  intros Hok. unfold cfg_setitem.
  destruct (dict_lookup fr b) as [[e|b']|] eqn:Hl.
  - destruct (own_lookup_dict _ _ _ Hl) as [m Hm].
    apply store_step_same. by eapply dict_insert_store_own.
  - destruct (dict_lookup_shared _ _ _ Hok Hl) as [-> _].
    destruct fr as [c D]. apply store_step_alter.
  - by apply store_step_same.
Qed.

Lemma cfg_setitem_opt_store b k v fr :
  frame_ok fr → store_step b (setitem_opt k v) fr (cfg_setitem_opt b k v fr).
Proof.
  destruct v; [apply cfg_setitem_store|]. intros _. by apply store_step_same.
Qed.

Lemma cfg_setdefault_customs_store b fr :
  frame_ok fr →
  store_step b setdefault_customs fr (cfg_setdefault_customs b fr).
Proof.
  intros Hok. unfold cfg_setdefault_customs.
  destruct (dict_lookup fr b) as [[e|b']|] eqn:Hl.
  - destruct (oe_customs e); [by apply store_step_same|].
    destruct (own_lookup_dict _ _ _ Hl) as [m Hm].
    apply store_step_same. by eapply dict_insert_store_own.
  - destruct (dict_lookup_shared _ _ _ Hok Hl) as [-> _].
    destruct fr as [c D].
    replace (alter _ b D) with (alter setdefault_customs b D);
      [apply store_step_alter|].
    apply map_eq. intros j. destruct (decide (j = b)) as [->|?].
    + rewrite !lookup_alter_eq. destruct (D !! b) as [[f [l|]]|]; done.
    + by rewrite !lookup_alter_ne.
  - by apply store_step_same.
Qed.

Lemma customs_update_store b h fr :
  frame_ok fr → store_step b (on_customs h) fr (customs_update b h fr).
Proof.
  intros Hok. unfold customs_update, cfg_customs.
  destruct (dict_lookup fr b) as [[e|b']|] eqn:Hl.
  - destruct (oe_customs e) as [[l|b']|] eqn:Hc.
    + destruct (own_lookup_dict _ _ _ Hl) as [m Hm].
      apply store_step_same. by eapply dict_insert_store_own.
    + pose proof (dict_lookup_own _ _ _ Hok Hl) as Ho. rewrite Hc in Ho.
      destruct Ho as [-> _]. destruct fr as [c D]. apply store_step_alter.
    + by apply store_step_same.
  - destruct (dict_lookup_shared _ _ _ Hok Hl) as [-> [d Hd]].
    rewrite Hd. simpl. destruct (custom_models d) as [l|] eqn:Hc.
    + destruct fr as [c D]. apply store_step_alter.
    + by apply store_step_same.
  - by apply store_step_same.
Qed.

Lemma load_config_sound o w :
  defaults_ok (default_config w) →
  sound (Frame (load_config o w).1 (default_config w)).
Proof.
  intros Hok. split; [apply load_config_frame_ok|].
  split; [done|by apply load_config_covered].
Qed.

Lemma cfg_setitem_opt_sound b k v fr :
  sound fr → sound (cfg_setitem_opt b k v fr).
Proof.
  intros (Hok & Hd & Hc).
  pose proof (cfg_setitem_opt_evolves b k v fr Hok) as Hev.
  pose proof (cfg_setitem_opt_defaults_ok b k v fr Hd) as Hd'.
  split; [apply Hev|]. split; [done|].
  eapply covered_step; [apply (grows_setitem_opt k v)|done..|].
  by apply cfg_setitem_opt_store.
Qed.

Lemma customs_update_sound b h fr :
  sound fr → sound (customs_update b h fr).
Proof.
  intros (Hok & Hd & Hc).
  pose proof (customs_update_evolves b h fr Hok) as Hev.
  pose proof (customs_update_defaults_ok b h fr Hd) as Hd'.
  split; [apply Hev|]. split; [done|].
  eapply covered_step; [apply (grows_on_customs h)|done..|].
  by apply customs_update_store.
Qed.

Lemma cfg_setdefault_customs_defaults_ok b fr :
  frame_ok fr → defaults_ok (store fr) →
  defaults_ok (store (cfg_setdefault_customs b fr)).
Proof.
  intros Hok Hd. unfold cfg_setdefault_customs.
  destruct (dict_lookup fr b) as [[e|b']|] eqn:Hl; [|simpl|done].
  - destruct (oe_customs e); [done|].
    destruct (own_lookup_dict _ _ _ Hl) as [m Hm].
    by rewrite (dict_insert_store_own _ _ _ _ Hm).
  - apply defaults_ok_alter; [|done]. intros d [x Hx]. by rewrite Hx.
Qed.

Lemma cfg_setdefault_customs_sound b fr :
  sound fr → sound (cfg_setdefault_customs b fr).
Proof.
  intros (Hok & Hd & Hc).
  pose proof (cfg_setdefault_customs_evolves b fr Hok) as Hev.
  pose proof (cfg_setdefault_customs_defaults_ok b fr Hok Hd) as Hd'.
  split; [apply Hev|]. split; [done|].
  eapply covered_step; [apply grows_setdefault_customs|done..|].
  by apply cfg_setdefault_customs_store.
Qed.

(** [if b not in d: d[b] = e], for a new entry [e] that has a custom list. *)
Lemma ensure_sound b e fr :
  sound fr →
  list_ok (store fr) b (oe_customs e) → is_Some (oe_customs e) →
  fresh_customs (oe_customs e) ∨ (∃ m, cfg_api_configs (config fr) = OwnDict m) →
  sound (match dict_lookup fr b with
         | Some _ => fr
         | None => dict_insert b e fr
         end).
Proof.
  intros (Hok & Hd & Hc) Hl He Hf.
  destruct (dict_lookup fr b) as [eo|] eqn:Hb; [done|].
  assert (Hv : is_Some (custom_models (own_value (store fr) e))).
  { unfold own_value. simpl. destruct He as [x ->]. by eexists. }
  split; [by apply frame_ok_insert|]. split.
  - destruct fr as [[[m|] u] D]; simpl in *; [done|].
    by apply defaults_ok_insert.
  - intros b2 d Hd2. destruct (decide (b2 = b)) as [->|Hne].
    + rewrite dict_insert_entry.
      destruct fr as [[[m|] u] D]; simpl in *.
      * destruct (Hc b d Hd2) as (e0 & He0 & _).
        unfold frame_entry in He0. by rewrite Hb in He0.
      * rewrite lookup_insert_eq in Hd2. injection Hd2 as <-.
        eexists; split; [done|]. by apply covers_refl.
    + rewrite dict_insert_entry_ne by done.
      apply Hc. destruct fr as [[[m|] u] D]; simpl in *; [done|].
      by rewrite lookup_insert_ne in Hd2.
Qed.

Lemma insert_sound b e fr :
  sound fr → dict_lookup fr b = None →
  is_Some (oe_customs e) → fresh_customs (oe_customs e) →
  sound (dict_insert b e fr).
Proof.
  intros Hs Hb He Hf.
  assert (Hl : list_ok (store fr) b (oe_customs e)).
  { by destruct (oe_customs e) as [[l|b']|]. }
  pose proof (ensure_sound b e fr Hs Hl He (or_introl Hf)) as H.
  by rewrite Hb in H.
Qed.

Lemma lookup_None_store fr b :
  covered fr → dict_lookup fr b = None → store fr !! b = None.
Proof.
  intros Hc Hb. destruct (store fr !! b) as [d|] eqn:Hd; [|done].
  destruct (Hc b d Hd) as (e & He & _). unfold frame_entry in He.
  by rewrite Hb in He.
Qed.

Lemma entries_of_saved o w' fr f X unk :
  sound fr → w' = save_config WriteDone (config fr) (world_of f fr) →
  CONFIG_FILE w' = Holds (Document (Some X) unk) →
  entries_of o w' = X ∧ defaults_ok (default_config w').
Proof.
  intros (Hok & Hd & Hc) -> Hf. simpl in *. split; [|done].
  injection Hf as HX _. rewrite entries_of_eq. simpl. subst X.
  apply map_eq. intros b. rewrite lookup_merge, dump_lookup.
  pose proof (fill_covered fr b Hc) as H.
  by destruct (frame_entry fr b), (store fr !! b).
Qed.

Lemma entries_of_reload o o1 w :
  defaults_ok (default_config w) →
  entries_of o (load_config o1 w).2 = entries_of o1 w.
Proof.
  intros Hok. rewrite !entries_of_eq, load_config_store.
  unfold load_config. destruct (CONFIG_FILE w) as [| |doc] eqn:Hf; simpl.
  - destruct o1; simpl; rewrite ?Hf; try done. by rewrite fill_defaults.
  - by rewrite Hf.
  - destruct (api_configs doc) eqn:Ha; simpl; rewrite Hf; simpl; by rewrite Ha.
Qed.

Lemma set_api_config_sound b k u m o1 o2 w :
  defaults_ok (default_config w) →
  ∃ fr, sound fr
    ∧ (set_api_config b k u m o1 o2 w).2
      = save_config o2 (config fr) (world_of (CONFIG_FILE (load_config o1 w).2) fr).
Proof.
  intros Hok. unfold set_api_config.
  pose proof (load_config_store o1 w) as Hs.
  pose proof (load_config_sound o1 w Hok) as H0.
  destruct (load_config o1 w) as [c w1]; simpl in Hs, H0. rewrite Hs.
  set (fr0 := Frame c (default_config w)) in *.
  set (fr1 := match dict_lookup fr0 b with Some _ => fr0 | None => _ end).
  assert (H1 : sound fr1).
  { subst fr1. destruct (dict_lookup fr0 b) eqn:Hl; [done|].
    rewrite (lookup_None_store fr0 b) by (done || apply H0).
    by apply insert_sound. }
  eexists. split; [|reflexivity].
  by do 3 apply cfg_setitem_opt_sound.
Qed.

Lemma set_api_config_entries b k u m o1 o w :
  defaults_ok (default_config w) →
  let r := set_api_config b k u m o1 WriteDone w in
  r.1 = setitem_opt "model_name" m
          (setitem_opt "base_url" u
             (setitem_opt "api_key" k
                (default fallback_value (entries_of o1 w !! b))))
  ∧ entries_of o r.2 = <[b := r.1]> (entries_of o1 w)
  ∧ defaults_ok (default_config r.2).
Proof.
  intros Hok r.
  destruct (set_api_config_spec b k u m o1 w) as [Hr Hf].
  cbv zeta in Hr, Hf. fold (entries_of o1 w) in Hr, Hf. fold r in Hr, Hf.
  destruct (set_api_config_sound b k u m o1 WriteDone w Hok) as (fr & Hs & Hw).
  fold r in Hw. split; [done|]. rewrite Hr.
  by eapply entries_of_saved.
Qed.

Lemma add_prelude_eq b fr :
  dict_lookup fr b = None →
  cfg_setdefault_customs b (dict_insert b (OwnE ∅ None) fr)
  = dict_insert b (OwnE ∅ (Some (OwnList []))) fr.
Proof.
  destruct fr as [[[m|] u] D];
    unfold cfg_setdefault_customs, dict_insert, dict_lookup; simpl.
  - intros Hm. rewrite lookup_insert_eq. simpl. by rewrite insert_insert_eq.
  - destruct (D !! b) eqn:Hd; [done|]. intros _.
    rewrite lookup_insert_eq. simpl. f_equal.
    apply map_eq. intros j. destruct (decide (j = b)) as [->|?].
    + by rewrite lookup_alter_eq, !lookup_insert_eq.
    + by rewrite lookup_alter_ne, !lookup_insert_ne.
Qed.

Lemma add_prelude_sound b fr :
  sound fr →
  sound (cfg_setdefault_customs b
           (match dict_lookup fr b with
            | Some _ => fr
            | None => dict_insert b (OwnE ∅ None) fr
            end)).
Proof.
  intros Hs. destruct (dict_lookup fr b) eqn:Hb.
  - by apply cfg_setdefault_customs_sound.
  - rewrite add_prelude_eq by done. by apply insert_sound.
Qed.

Lemma add_prelude_store b fr :
  sound fr → is_Some (dict_lookup fr b) →
  store (cfg_setdefault_customs b fr) = store fr.
Proof.
  intros (Hok & Hd & Hc) [eo Hl]. unfold cfg_setdefault_customs. rewrite Hl.
  destruct eo as [e|b'].
  - destruct (oe_customs e); [done|].
    destruct (own_lookup_dict _ _ _ Hl) as [m Hm].
    by eapply dict_insert_store_own.
  - simpl. apply alter_id. intros d Hb'.
    destruct (Hd _ _ Hb') as [l Hl']. by rewrite Hl'.
Qed.

Lemma add_custom_model_sound b name o1 o2 w :
  defaults_ok (default_config w) → PyStr.blank name = false →
  (add_custom_model b name o1 o2 w).1 = true →
  ∃ fr, sound fr
    ∧ (add_custom_model b name o1 o2 w).2
      = save_config o2 (config fr) (world_of (CONFIG_FILE (load_config o1 w).2) fr).
Proof.
  intros Hok Hb. unfold add_custom_model. rewrite Hb.
  pose proof (load_config_store o1 w) as Hs.
  pose proof (load_config_sound o1 w Hok) as H0.
  destruct (load_config o1 w) as [c w1]; simpl in Hs, H0. rewrite Hs.
  set (fr0 := Frame c (default_config w)) in *.
  pose proof (add_prelude_sound b fr0 H0) as H2.
  set (fr2 := cfg_setdefault_customs b _) in *.
  destruct (bool_decide _); [done|]. intros _.
  eexists. split; [|reflexivity]. by apply customs_update_sound.
Qed.

Lemma add_custom_model_entries b name o1 o w :
  defaults_ok (default_config w) → PyStr.blank name = false →
  let n := PyStr.strip name in
  let entries := entries_of o1 w in
  let customs := customs_of o1 w b in
  let r := add_custom_model b name o1 WriteDone w in
  if bool_decide (n ∈ customs) then r = (false, (load_config o1 w).2)
  else r.1 = true
       ∧ entries_of o r.2
         = <[b := Entry (fields (default (Entry ∅ None) (entries !! b)))
                        (Some (customs ++ [n]))]> entries
       ∧ defaults_ok (default_config r.2).
Proof.
  intros Hok Hb n entries customs r.
  pose proof (add_custom_model_spec b name o1 w Hb) as Hspec.
  cbv zeta in Hspec. fold n entries customs r in Hspec.
  destruct (bool_decide (n ∈ customs)) eqn:Hin.
  - subst r. revert Hspec. unfold add_custom_model. rewrite Hb.
    pose proof (load_config_store o1 w) as Hs.
    pose proof (load_config_sound o1 w Hok) as H0.
    pose proof (entries_of_frame o1 w b) as He.
    destruct (load_config o1 w) as [c w1]; simpl in Hs, H0, He. rewrite Hs.
    fold n. set (fr0 := Frame c (default_config w)) in *.
    destruct (bool_decide (n ∈ cfg_customs_value b _)) eqn:Hin2; [|done].
    intros _. f_equal.
    apply bool_decide_eq_true_1 in Hin.
    assert (Hl : is_Some (dict_lookup fr0 b)).
    { subst customs. unfold customs_of in Hin.
      rewrite <-He in Hin. unfold frame_entry in Hin.
      destruct (dict_lookup fr0 b); [by eexists|]. simpl in Hin.
      by apply elem_of_nil in Hin. }
    destruct Hl as [eo Hl]. rewrite Hl.
    unfold world_of. rewrite add_prelude_store by (done || by eexists).
    simpl. rewrite <-Hs. by destruct w1.
  - destruct Hspec as [Hr Hf]. split; [done|].
    destruct (add_custom_model_sound b name o1 WriteDone w Hok Hb Hr)
      as (fr & Hs & Hw).
    fold r in Hw. by eapply entries_of_saved.
Qed.

Lemma remove_custom_model_sound b name o1 o2 w :
  defaults_ok (default_config w) →
  (remove_custom_model b name o1 o2 w).1 = true →
  ∃ fr, sound fr
    ∧ (remove_custom_model b name o1 o2 w).2
      = save_config o2 (config fr) (world_of (CONFIG_FILE (load_config o1 w).2) fr).
Proof.
  intros Hok. unfold remove_custom_model.
  pose proof (load_config_store o1 w) as Hs.
  pose proof (load_config_sound o1 w Hok) as H0.
  destruct (load_config o1 w) as [c w1]; simpl in Hs, H0. rewrite Hs.
  destruct (bool_decide _); [|done]. intros _.
  eexists. split; [|reflexivity]. by apply customs_update_sound.
Qed.

Lemma remove_custom_model_entries b name o1 o w :
  defaults_ok (default_config w) →
  let entries := entries_of o1 w in
  let customs := customs_of o1 w b in
  let r := remove_custom_model b name o1 WriteDone w in
  if bool_decide (name ∈ customs)
  then r.1 = true
       ∧ entries_of o r.2 = alter (on_customs (remove_first name)) b entries
       ∧ defaults_ok (default_config r.2)
  else r = (false, (load_config o1 w).2).
Proof.
  intros Hok entries customs r.
  pose proof (remove_custom_model_spec b name o1 w) as Hspec.
  cbv zeta in Hspec. fold entries customs r in Hspec.
  destruct (bool_decide (name ∈ customs)); [|done].
  destruct Hspec as [Hr Hf]. split; [done|].
  destruct (remove_custom_model_sound b name o1 WriteDone w Hok Hr)
    as (fr & Hs & Hw).
  fold r in Hw. by eapply entries_of_saved.
Qed.

(** *** Reads *)

Lemma get_api_config_world b o w :
  (get_api_config b o w).2 = (load_config o w).2.
Proof. unfold get_api_config. by destruct (load_config o w). Qed.

Lemma get_model_list_eq b o w :
  get_model_list b o w
  = (merge_models (default [] (BUILTIN_MODELS !! b)) (customs_of o w b),
     (load_config o w).2).
Proof.
  unfold get_model_list.
  pose proof (get_api_config_eq b o w) as Hg.
  pose proof (get_api_config_world b o w) as Hw.
  destruct (get_api_config b o w) as [cfg w1]; simpl in *. subst cfg w1.
  unfold customs_of. by destruct (entries_of o w !! b) as [[f [l|]]|].
Qed.

Lemma load_config_existing o w : CONFIG_FILE w ≠ Missing → (load_config o w).2 = w.
Proof.
  unfold load_config. destruct (CONFIG_FILE w) as [| |doc]; [done..|].
  by destruct (api_configs doc).
Qed.

(** X1.  Reading never rewrites a file that exists.  When [CONFIG_FILE] is
    there (readable or not), [load_config], [get_api_config],
    [get_model_list], the loader node and [INPUT_TYPES] of the Gemini node
    leave the file and [DEFAULT_CONFIG] exactly as they were: what migration
    fills in stays in memory. *)
Theorem reading_leaves_the_file_alone
    (b k u m : string) (o o' : io_outcome) (w : world) :
  CONFIG_FILE w ≠ Missing →
  (load_config o w).2 = w
  ∧ (get_api_config b o w).2 = w
  ∧ (get_model_list b o w).2 = w
  ∧ (APIImageConfigLoader.load b k u m o w).2 = w
  ∧ (GeminiImageGenerate.INPUT_TYPES o o' w).2 = w.
Proof.
  intros Hf. pose proof (load_config_existing o w Hf) as Hl.
  assert (Hg : ∀ b o, CONFIG_FILE w ≠ Missing → (get_api_config b o w).2 = w).
  { intros b0 o0 H. rewrite get_api_config_world. by apply load_config_existing. }
  split; [done|]. split; [by apply Hg|].
  split; [by rewrite get_model_list_eq|]. split.
  - unfold APIImageConfigLoader.load. specialize (Hg b o Hf).
    by destruct (get_api_config b o w).
  - unfold GeminiImageGenerate.INPUT_TYPES. rewrite get_model_list_eq, Hl.
    specialize (Hg "Gemini Native" o' Hf).
    by destruct (get_api_config "Gemini Native" o' w).
Qed.

(** X1 at [sample_world], for the model list of Grok. *)
Lemma reading_leaves_the_file_alone_witness :
  (get_model_list "Grok API" WriteDone sample_world).2 = sample_world.
Proof.
  apply (reading_leaves_the_file_alone "Grok API" "" "" "" WriteDone WriteDone
           sample_world).
  discriminate.
Defined.

Lemma entries_of_indep o o' w : entries_of o w = entries_of o' w.
Proof. by rewrite !entries_of_eq. Qed.

Lemma customs_of_indep o o' w b : customs_of o w b = customs_of o' w b.
Proof. unfold customs_of. by rewrite (entries_of_indep o o'). Qed.

Lemma strip_truthy s : PyStr.blank s = false → PyStr.truthy (PyStr.strip s) = true.
Proof.
  unfold PyStr.blank. intros H. apply orb_false_iff in H as [_ H].
  by apply negb_false_iff in H.
Qed.

Lemma merge_models_mono custom : ∀ builtin x,
  x ∈ builtin → x ∈ merge_models builtin custom.
Proof.
  unfold merge_models. induction custom as [|c custom IH]; intros builtin x Hx;
    [done|].
  simpl. apply IH. destruct (_ && _); [|done]. apply elem_of_app. by left.
Qed.

Lemma merge_models_elem custom : ∀ builtin x,
  x ∈ custom → PyStr.truthy x = true → x ∈ merge_models builtin custom.
Proof.
  induction custom as [|c custom IH]; intros builtin x Hx Ht.
  - by apply elem_of_nil in Hx.
  - apply elem_of_cons in Hx as [->|Hx].
    + unfold merge_models. simpl. apply merge_models_mono. rewrite Ht. simpl.
      destruct (decide (c ∈ builtin)) as [Hin|Hin].
      * by rewrite bool_decide_eq_false_2 by (intros H; by apply H).
      * rewrite bool_decide_eq_true_2 by done. apply elem_of_app. right.
        by left.
    + unfold merge_models. simpl. by apply IH.
Qed.

Lemma add_custom_model_present b name o1 o2 w :
  defaults_ok (default_config w) → PyStr.blank name = false →
  PyStr.strip name ∈ customs_of o1 w b →
  add_custom_model b name o1 o2 w = (false, (load_config o1 w).2).
Proof.
  intros Hok Hb Hin. unfold add_custom_model. rewrite Hb.
  pose proof (load_config_store o1 w) as Hs.
  pose proof (load_config_sound o1 w Hok) as H0.
  pose proof (entries_of_frame o1 w b) as He.
  destruct (load_config o1 w) as [c w1]; simpl in Hs, H0, He. rewrite Hs.
  set (fr0 := Frame c (default_config w)) in *.
  assert (Hl : is_Some (dict_lookup fr0 b)).
  { unfold customs_of in Hin. rewrite <-He in Hin. unfold frame_entry in Hin.
    destruct (dict_lookup fr0 b); [by eexists|]. simpl in Hin.
    by apply elem_of_nil in Hin. }
  destruct Hl as [eo Hl]. rewrite Hl.
  assert (Hc : cfg_customs_value b (cfg_setdefault_customs b fr0)
               = customs_of o1 w b).
  { rewrite cfg_customs_value_eq by (by apply cfg_setdefault_customs_sound).
    destruct (cfg_setdefault_customs_evolves b fr0 (proj1 H0)) as (_ & -> & _).
    rewrite He. unfold customs_of.
    by destruct (entries_of o1 w !! b) as [[f [l|]]|]. }
  rewrite Hc, bool_decide_eq_true_2 by done. f_equal.
  unfold world_of. rewrite add_prelude_store by (done || by eexists).
  simpl. rewrite <-Hs. by destruct w1.
Qed.

Lemma customs_of_insert o w b X e :
  entries_of o w = <[b := e]> X →
  customs_of o w b = default [] (custom_models e).
Proof. intros H. unfold customs_of. by rewrite H, lookup_insert_eq. Qed.

(** X2.  [add_custom_model] with a name that is empty or made of whitespace
    only returns [False] and does nothing at all: the configuration is not
    even loaded, so a missing file is not created. *)
Theorem add_custom_model_rejects_blank_name
    (b name : string) (o1 o2 : io_outcome) (w : world) :
  Gemini.whitespace_only name →
  add_custom_model b name o1 o2 w = (false, w).
Proof.
  intros H%blank_whitespace. unfold add_custom_model. by rewrite H.
Qed.

(** X2 on a first run, for a name of three spaces. *)
Lemma add_custom_model_rejects_blank_name_witness :
  add_custom_model "Gemini Native" "   " WriteDone WriteDone (fresh_world Missing)
  = (false, fresh_world Missing).
Proof.
  apply add_custom_model_rejects_blank_name. repeat constructor.
Defined.

Lemma add_custom_model_after b name o1 o w :
  defaults_ok (default_config w) →
  PyStr.blank name = false →
  let n := PyStr.strip name in
  let r := add_custom_model b name o1 WriteDone w in
  r.1 = negb (bool_decide (n ∈ customs_of o1 w b))
  ∧ n ∈ customs_of o r.2 b
  ∧ (n ∉ customs_of o1 w b →
       entries_of o r.2
       = <[b := Entry (fields (default (Entry ∅ None) (entries_of o1 w !! b)))
                      (Some (customs_of o1 w b ++ [n]))]> (entries_of o1 w)).
Proof.
  intros Hok Hb n r.
  pose proof (add_custom_model_entries b name o1 o w Hok Hb) as H.
  cbv zeta in H. fold n r in H.
  destruct (decide (n ∈ customs_of o1 w b)) as [Hin|Hin].
  - rewrite bool_decide_eq_true_2 in * by done. rewrite H. simpl.
    split; [done|]. split; [|done].
    unfold customs_of. by rewrite entries_of_reload.
  - rewrite bool_decide_eq_false_2 in * by done.
    destruct H as (Hr & He & _). split; [done|]. split; [|done].
    rewrite (customs_of_insert _ _ _ _ _ He). simpl.
    apply elem_of_app. right. by left.
Qed.

(** X3.  [add_custom_model] with a name that is not blank, the write
    running to its end, where [DEFAULT_CONFIG] entries all have
    [custom_models]: it returns [True] exactly when the stripped name is not
    yet in the persisted custom list of the backend; afterwards the stripped
    name is in that list and in [get_model_list]; and when it was not there
    before, the list read back is the old one with the name at its end, the
    other keys of the entry and all other backends read back as they were
    loaded. *)
Theorem add_custom_model_appends
    (b name : string) (o1 o : io_outcome) (w : world) :
  defaults_ok (default_config w) →
  PyStr.blank name = false →
  let n := PyStr.strip name in
  let r := add_custom_model b name o1 WriteDone w in
  r.1 = negb (bool_decide (n ∈ customs_of o1 w b))
  ∧ n ∈ customs_of o r.2 b
  ∧ n ∈ (get_model_list b o r.2).1
  ∧ (n ∉ customs_of o1 w b →
       customs_of o r.2 b = customs_of o1 w b ++ [n]
       ∧ fields <$> entries_of o r.2 !! b
         = Some (fields (default (Entry ∅ None) (entries_of o1 w !! b)))
       ∧ ∀ b2, b2 ≠ b → entries_of o r.2 !! b2 = entries_of o1 w !! b2).
Proof.
  intros Hok Hb n r.
  destruct (add_custom_model_after b name o1 o w Hok Hb) as (Hr & Hin & He).
  fold n r in Hr, Hin, He.
  split; [done|]. split; [done|]. split.
  - rewrite get_model_list_eq. simpl.
    apply merge_models_elem; [done|]. by apply strip_truthy.
  - intros Hn. specialize (He Hn). split; [|split].
    + by rewrite (customs_of_insert _ _ _ _ _ He).
    + by rewrite He, lookup_insert_eq.
    + intros b2 Hne. by rewrite He, lookup_insert_ne.
Qed.

(** X3 at [sample_world]: the name is stored stripped and shows in the list. *)
Lemma add_custom_model_appends_witness :
  "my-other-model"
    ∈ (get_model_list "Gemini Native" WriteDone
         (add_custom_model "Gemini Native" " my-other-model " WriteDone
            WriteDone sample_world).2).1.
Proof.
  apply (add_custom_model_appends "Gemini Native" " my-other-model "
           WriteDone WriteDone sample_world).
  - apply defaults_ok_fresh.
  - reflexivity.
Defined.

(** X4.  Adding the same model a second time changes nothing (where the
    entries of [DEFAULT_CONFIG] all have [custom_models], and for a name
    that is not blank): after a first
    [add_custom_model] whose write ran to its end, a second call with the
    same name returns [False], the configuration read back is the same, and
    when the first call returned [True] the state (file and
    [DEFAULT_CONFIG]) is the one it left, whatever the outcomes of the writes
    of the second call. *)
Theorem add_custom_model_twice
    (b name : string) (o1 o3 o4 o : io_outcome) (w : world) :
  defaults_ok (default_config w) →
  PyStr.blank name = false →
  let r1 := add_custom_model b name o1 WriteDone w in
  let r2 := add_custom_model b name o3 o4 r1.2 in
  r2.1 = false
  ∧ entries_of o r2.2 = entries_of o r1.2
  ∧ (r1.1 = true → r2.2 = r1.2).
Proof.
  intros Hok Hb r1 r2.
  destruct (add_custom_model_after b name o1 o3 w Hok Hb)
    as (_ & Hin & _).
  fold r1 in Hin.
  pose proof (add_custom_model_defaults_ok b name o1 WriteDone w Hok) as Hok1.
  fold r1 in Hok1.
  pose proof (add_custom_model_present b name o3 o4 r1.2 Hok1 Hb Hin) as H2.
  fold r2 in H2. rewrite H2. simpl. split; [done|].
  split.
  - rewrite entries_of_reload by done. apply entries_of_indep.
  - intros Hr. apply load_config_existing.
    pose proof (add_custom_model_spec b name o1 w Hb) as Hs.
    cbv zeta in Hs. fold r1 in Hs.
    destruct (bool_decide _); [congruence|]. destruct Hs as [_ Hs].
    by rewrite Hs.
Qed.

(** X4 on a first run, for the name [foo]. *)
Lemma add_custom_model_twice_witness :
  (add_custom_model "Gemini Native" "foo" WriteDone WriteDone
     (add_custom_model "Gemini Native" "foo" WriteDone WriteDone
        (fresh_world Missing)).2).1 = false.
Proof.
  apply (add_custom_model_twice "Gemini Native" "foo" WriteDone WriteDone
           WriteDone WriteDone (fresh_world Missing)).
  - apply defaults_ok_fresh.
  - reflexivity.
Defined.

Lemma remove_first_absent x l : x ∉ l → remove_first x l = l.
Proof.
  induction l as [|y l IH]; simpl; [done|]. intros Hx.
  apply not_elem_of_cons in Hx as [Hne Hx].
  rewrite decide_False by done. by rewrite IH.
Qed.

Lemma remove_first_perm x l : x ∈ l → l ≡ₚ x :: remove_first x l.
Proof.
  induction l as [|y l IH]; simpl; [by intros ?%elem_of_nil|].
  intros Hx. destruct (decide (x = y)) as [->|Hne]; [done|].
  apply elem_of_cons in Hx as [->|Hx]; [done|].
  rewrite (IH Hx) at 1. apply Permutation_swap.
Qed.

Lemma remove_first_sublist x l : remove_first x l `sublist_of` l.
Proof.
  induction l as [|y l IH]; simpl; [done|].
  destruct (decide (x = y)); [by apply sublist_cons|by apply sublist_skip].
Qed.

(** X5.  [remove_custom_model], the write running to its end, where the
    entries of [DEFAULT_CONFIG] all have [custom_models]: it returns
    [True] exactly when the name (as given, not stripped) is in the persisted
    custom list; the list read back afterwards is the old list without the
    first occurrence of the name, in the same order, so exactly one
    occurrence has gone; when the name is absent nothing is written; the
    other keys of the entry and all other backends read back unchanged. *)
Theorem remove_custom_model_removes_first
    (b name : string) (o1 o : io_outcome) (w : world) :
  defaults_ok (default_config w) →
  let l := customs_of o1 w b in
  let r := remove_custom_model b name o1 WriteDone w in
  r.1 = bool_decide (name ∈ l)
  ∧ customs_of o r.2 b = remove_first name l
  ∧ remove_first name l `sublist_of` l
  ∧ (name ∈ l → l ≡ₚ name :: remove_first name l)
  ∧ (name ∉ l → r.2 = (load_config o1 w).2)
  ∧ fields <$> entries_of o r.2 !! b = fields <$> entries_of o1 w !! b
  ∧ ∀ b2, b2 ≠ b → entries_of o r.2 !! b2 = entries_of o1 w !! b2.
Proof.
  intros Hok l r.
  pose proof (remove_custom_model_entries b name o1 o w Hok) as H.
  cbv zeta in H. fold l r in H.
  split; [|split; [|split; [apply remove_first_sublist|
                            split; [apply remove_first_perm|]]]].
  - destruct (bool_decide (name ∈ l)); [apply H|by rewrite H].
  - destruct (decide (name ∈ l)) as [Hin|Hin].
    + rewrite bool_decide_eq_true_2 in H by done. destruct H as (_ & He & _).
      unfold customs_of. rewrite He, lookup_alter_eq.
      subst l. unfold customs_of.
      by destruct (entries_of o1 w !! b) as [[f [x|]]|].
    + rewrite bool_decide_eq_false_2 in H by done. rewrite H. simpl.
      rewrite remove_first_absent by done.
      unfold customs_of. by rewrite entries_of_reload.
  - destruct (decide (name ∈ l)) as [Hin|Hin].
    + rewrite bool_decide_eq_true_2 in H by done. destruct H as (_ & He & _).
      split; [done|]. rewrite He. split.
      * rewrite lookup_alter_eq. by destruct (entries_of o1 w !! b).
      * intros b2 Hne. by rewrite lookup_alter_ne.
    + rewrite bool_decide_eq_false_2 in H by done. rewrite H. simpl.
      split; [done|]. by rewrite entries_of_reload.
Qed.

(** X5 at [sample_world], for the custom model of the file. *)
Lemma remove_custom_model_removes_first_witness :
  customs_of WriteDone
    (remove_custom_model "Gemini Native" "my-model" WriteDone WriteDone
       sample_world).2 "Gemini Native"
  = remove_first "my-model" (customs_of WriteDone sample_world "Gemini Native").
Proof.
  apply (remove_custom_model_removes_first "Gemini Native" "my-model"
           WriteDone WriteDone sample_world).
  apply defaults_ok_fresh.
Defined.

(** X6.  What [set_api_config] returns is what [get_api_config] reads back
    after it (the write running to its end, the entries of [DEFAULT_CONFIG]
    all having [custom_models]): the entry is the same, each
    value given is found under its key, and every other backend reads as
    before the call. *)
Theorem get_api_config_after_set
    (b : string) (k u m : option string) (o1 o : io_outcome) (w : world) :
  defaults_ok (default_config w) →
  let r := set_api_config b k u m o1 WriteDone w in
  (get_api_config b o r.2).1 = r.1
  ∧ (∀ s, k = Some s → fields (get_api_config b o r.2).1 !! "api_key" = Some s)
  ∧ (∀ s, u = Some s → fields (get_api_config b o r.2).1 !! "base_url" = Some s)
  ∧ (∀ s, m = Some s →
       fields (get_api_config b o r.2).1 !! "model_name" = Some s)
  ∧ ∀ b2, b2 ≠ b → (get_api_config b2 o r.2).1 = (get_api_config b2 o1 w).1.
Proof.
  intros Hok r.
  destruct (set_api_config_entries b k u m o1 o w Hok) as (Hr & He & _).
  fold r in Hr, He.
  assert (Hg : (get_api_config b o r.2).1 = r.1).
  { by rewrite get_api_config_eq, He, lookup_insert_eq. }
  split; [done|]. rewrite Hg, Hr.
  split; [|split; [|split]].
  - intros s ->. destruct u, m; simpl;
      by rewrite ?lookup_insert_ne by done; rewrite lookup_insert_eq.
  - intros s ->. destruct m; simpl;
      by rewrite ?lookup_insert_ne by done; rewrite lookup_insert_eq.
  - intros s ->. simpl. by rewrite lookup_insert_eq.
  - intros b2 Hne. by rewrite !get_api_config_eq, He, lookup_insert_ne.
Qed.

(** X6 at [sample_world], for a backend the file has no entry for. *)
Lemma get_api_config_after_set_witness :
  (get_api_config "Grok API" WriteDone
     (set_api_config "Grok API" (Some "xai-key") None None WriteDone WriteDone
        sample_world).2).1
  = (set_api_config "Grok API" (Some "xai-key") None None WriteDone WriteDone
       sample_world).1.
Proof.
  apply (get_api_config_after_set "Grok API" (Some "xai-key") None None
           WriteDone WriteDone sample_world).
  apply defaults_ok_fresh.
Defined.

(** X7.  A backend that neither the file nor [DEFAULT_CONFIG] knows:
    [get_api_config] returns the empty dict, [get_model_list] the builtin
    list alone, the loader node three empty strings with its warning; no
    entry is created by reading. *)
Theorem unknown_backend_reads_empty (b : string) (o : io_outcome) (w : world) :
  default_config w !! b = None → file_entry w b = None →
  (get_api_config b o w).1 = Entry ∅ None
  ∧ (get_model_list b o w).1 = default [] (BUILTIN_MODELS !! b)
  ∧ (APIImageConfigLoader.load b "" "" "" o w).1
    = (("", "", ""),
       ["[ConfigLoader] No API key found for " +:+ b +:+
        ". Please configure it."])
  ∧ entries_of o (get_api_config b o w).2 !! b = None.
Proof.
  intros Hd Hf.
  assert (He : entries_of o w !! b = None).
  { rewrite entries_of_eq. unfold file_entry in Hf.
    destruct (CONFIG_FILE w) as [| |doc]; [done..|].
    destruct (api_configs doc) as [x|]; [|done]. simpl in Hf.
    by rewrite lookup_merge, Hf, Hd. }
  assert (Hg : (get_api_config b o w).1 = Entry ∅ None).
  { by rewrite get_api_config_eq, He. }
  split; [done|]. split; [|split].
  - rewrite get_model_list_eq. simpl. unfold customs_of. rewrite He. simpl.
    unfold merge_models. done.
  - unfold APIImageConfigLoader.load.
    destruct (get_api_config b o w) as [cfg w1]. simpl in Hg. subst cfg.
    done.
  - rewrite get_api_config_world.
    rewrite entries_of_eq, load_config_store.
    unfold load_config, file_entry in *.
    destruct (CONFIG_FILE w) as [| |doc] eqn:Hc; simpl.
    + destruct o; simpl; rewrite ?Hc; try done.
      by rewrite lookup_merge, Hd.
    + by rewrite Hc.
    + destruct (api_configs doc) as [x|] eqn:Ha; simpl; rewrite Hc, Ha; [|done].
      simpl in Hf. by rewrite lookup_merge, Hf, Hd.
Qed.

(** X7 at [sample_world]. *)
Lemma unknown_backend_reads_empty_witness :
  (get_api_config "My Backend" WriteDone sample_world).1 = Entry ∅ None.
Proof.
  apply (unknown_backend_reads_empty "My Backend" WriteDone sample_world).
  - vm_compute. reflexivity.
  - vm_compute. reflexivity.
Defined.

Lemma shared_frame_entry fr b :
  cfg_api_configs (config fr) = DefaultDict → frame_entry fr b = store fr !! b.
Proof.
  destruct fr as [[d u] D]. simpl. intros ->. unfold frame_entry, dict_lookup.
  simpl. destruct (D !! b) as [e|] eqn:He; simpl; [|done]. by rewrite He.
Qed.

Lemma cfg_setitem_opt_shared b k v fr :
  cfg_api_configs (config fr) = DefaultDict →
  cfg_api_configs (config (cfg_setitem_opt b k v fr)) = DefaultDict
  ∧ ∀ b2, b2 ≠ b →
      store (cfg_setitem_opt b k v fr) !! b2 = store fr !! b2.
Proof.
  intros Hc. destruct v as [s|]; [|done]. simpl. unfold cfg_setitem.
  destruct fr as [[d u] D]. simpl in Hc. subst d.
  unfold dict_lookup. simpl. destruct (D !! b) as [e|] eqn:He; [|done].
  simpl. split; [done|]. intros b2 Hne. by rewrite lookup_alter_ne.
Qed.

(** X8.  [DEFAULT_CONFIG.copy()] is shallow: when the file is missing or
    cannot be read, [set_api_config] writes into [DEFAULT_CONFIG] itself.
    After the call, whatever became of the writes, the entry of the backend
    in [DEFAULT_CONFIG] is the entry returned, the other entries of
    [DEFAULT_CONFIG] are untouched, and as long as the file holds no
    document [get_api_config] returns that entry. *)
Theorem set_api_config_without_file_changes_defaults
    (b : string) (k u m : option string) (o1 o2 : io_outcome) (w : world) :
  CONFIG_FILE w = Missing ∨ CONFIG_FILE w = Unreadable →
  let r := set_api_config b k u m o1 o2 w in
  default_config r.2 !! b = Some r.1
  ∧ (∀ b2, b2 ≠ b → default_config r.2 !! b2 = default_config w !! b2)
  ∧ ∀ o, (∀ doc, CONFIG_FILE r.2 ≠ Holds doc) →
         (get_api_config b o r.2).1 = r.1.
Proof.
  intros Hf r.
  assert (Hl : (load_config o1 w).1 = DEFAULT_CONFIG_copy).
  { unfold load_config. by destruct Hf as [-> | ->]. }
  pose proof (load_config_store o1 w) as Hs.
  pose proof (load_config_frame_ok o1 w) as Hok.
  subst r. unfold set_api_config.
  destruct (load_config o1 w) as [c w1]. simpl in Hl, Hs, Hok. subst c.
  rewrite Hs.
  set (fr0 := Frame DEFAULT_CONFIG_copy (default_config w)) in *.
  set (fr1 := match dict_lookup fr0 b with Some _ => fr0 | None => _ end).
  assert (H1 : cfg_api_configs (config fr1) = DefaultDict
               ∧ is_Some (frame_entry fr1 b)
               ∧ frame_ok fr1
               ∧ ∀ b2, b2 ≠ b → store fr1 !! b2 = default_config w !! b2).
  { subst fr1. unfold dict_lookup. simpl.
    destruct (default_config w !! b) as [d|] eqn:Hd.
    - split; [done|]. split; [|done].
      rewrite shared_frame_entry by done. simpl. by rewrite Hd.
    - split; [done|]. split; [|split; [done|]].
      + rewrite shared_frame_entry by done. simpl.
        rewrite lookup_insert_eq. by eexists.
      + intros b2 Hne. simpl. by rewrite lookup_insert_ne. }
  destruct H1 as (Hc1 & He1 & Hok1 & Hs1).
  set (fr2 := cfg_setitem_opt b "api_key" k fr1).
  destruct (cfg_setitem_opt_shared b "api_key" k fr1 Hc1) as [Hc2 Hs2].
  pose proof (cfg_setitem_opt_evolves b "api_key" k fr1 Hok1) as Hev2.
  fold fr2 in Hc2, Hs2, Hev2.
  set (fr3 := cfg_setitem_opt b "base_url" u fr2).
  destruct (cfg_setitem_opt_shared b "base_url" u fr2 Hc2) as [Hc3 Hs3].
  pose proof (cfg_setitem_opt_evolves b "base_url" u fr2 (proj1 Hev2)) as Hev3.
  fold fr3 in Hc3, Hs3, Hev3.
  set (fr4 := cfg_setitem_opt b "model_name" m fr3).
  destruct (cfg_setitem_opt_shared b "model_name" m fr3 Hc3) as [Hc4 Hs4].
  pose proof (cfg_setitem_opt_evolves b "model_name" m fr3 (proj1 Hev3))
    as Hev4.
  fold fr4 in Hc4, Hs4, Hev4.
  assert (He4 : is_Some (frame_entry fr4 b)).
  { destruct Hev4 as (_ & -> & _). destruct Hev3 as (_ & -> & _).
    destruct Hev2 as (_ & -> & _). destruct He1 as [e ->]. by eexists. }
  destruct He4 as [e4 He4].
  cbn [fst snd]. fold (frame_entry fr4 b). rewrite He4. simpl.
  assert (Hd : default_config (save_config o2 (config fr4)
                 (world_of (CONFIG_FILE w1) fr4)) = store fr4).
  { by destruct o2. }
  rewrite Hd. split; [by rewrite <-shared_frame_entry|].
  split.
  - intros b2 Hne. by rewrite Hs4, Hs3, Hs2, Hs1.
  - intros o Hno. rewrite get_api_config_eq, entries_of_eq, Hd.
    set (w' := save_config _ _ _) in *.
    destruct (CONFIG_FILE w') as [| |doc] eqn:Hf'.
    + by rewrite <-shared_frame_entry, He4.
    + by rewrite <-shared_frame_entry, He4.
    + by destruct (Hno doc).
Qed.

(** X8 on a first run on which no write succeeds. *)
Lemma set_api_config_without_file_changes_defaults_witness :
  default_config
    (set_api_config "Grok API" (Some "xai-key") None None OpenFailed OpenFailed
       (fresh_world Missing)).2 !! "Grok API"
  = Some (set_api_config "Grok API" (Some "xai-key") None None OpenFailed
            OpenFailed (fresh_world Missing)).1.
Proof.
  apply (set_api_config_without_file_changes_defaults "Grok API"
           (Some "xai-key") None None OpenFailed OpenFailed
           (fresh_world Missing)).
  by left.
Defined.

Lemma load_shares_list o w b d l :
  default_config w !! b = Some d → custom_models d = Some l →
  file_entry w b = None →
  shares_list (Frame (load_config o w).1 (default_config w)) b.
Proof.
  intros Hd Hl Hf. unfold shares_list, load_config, file_entry, dict_lookup in *.
  destruct (CONFIG_FILE w) as [| |doc]; simpl.
  - left. by rewrite Hd.
  - left. by rewrite Hd.
  - destruct (api_configs doc) as [m|]; simpl in *.
    + right. rewrite lookup_fmap, migrate_lookup, lookup_fmap, Hd, Hf. simpl.
      eexists. split; [done|]. simpl. by rewrite Hl.
    + left. by rewrite copied_entries_lookup, Hd.
Qed.

Lemma shares_list_setdefault fr b d l :
  shares_list fr b → store fr !! b = Some d → custom_models d = Some l →
  cfg_setdefault_customs b fr = Frame (config fr) (store fr)
  ∧ cfg_customs_value b fr = l
  ∧ ∀ h, store (customs_update b h fr) = alter (on_customs h) b (store fr).
Proof.
  intros Hs Hd Hl. unfold cfg_setdefault_customs, cfg_customs_value,
    cfg_customs, customs_update, cfg_customs.
  destruct Hs as [Hs|(e & Hs & Hc)]; rewrite Hs.
  - rewrite Hd. simpl. rewrite Hl. simpl. rewrite Hd. simpl. rewrite Hl.
    split; [|done]. f_equal. apply alter_id. intros x Hx.
    rewrite Hd in Hx. injection Hx as <-. by rewrite Hl.
  - rewrite Hc. simpl. rewrite Hd. simpl. rewrite Hl. split; [|done].
    by destruct fr.
Qed.

(** X9.  The copy of a default entry shares its [custom_models] list.  For
    a backend of [DEFAULT_CONFIG] that the file has no entry for (no file, a
    file that cannot be read, or a document without the backend),
    [add_custom_model] with a new name appends the stripped name to the list
    of [DEFAULT_CONFIG] itself, whatever becomes of the writes, and changes
    nothing else in [DEFAULT_CONFIG]. *)
Theorem add_custom_model_appends_to_default_list
    (b name : string) (o1 o2 : io_outcome) (w : world)
    (d : entry) (l : list string) :
  default_config w !! b = Some d → custom_models d = Some l →
  file_entry w b = None →
  PyStr.blank name = false → PyStr.strip name ∉ l →
  let r := add_custom_model b name o1 o2 w in
  r.1 = true
  ∧ default_config r.2
    = <[b := Entry (fields d) (Some (l ++ [PyStr.strip name]))]>
        (default_config w).
Proof.
  intros Hd Hl Hf Hb Hn r. subst r. unfold add_custom_model. rewrite Hb.
  pose proof (load_config_store o1 w) as Hs.
  pose proof (load_shares_list o1 w b d l Hd Hl Hf) as Hsh.
  destruct (load_config o1 w) as [c w1]. simpl in Hs, Hsh. rewrite Hs.
  set (fr0 := Frame c (default_config w)) in *.
  assert (Hlk : is_Some (dict_lookup fr0 b)).
  { destruct Hsh as [->|(e & -> & _)]; by eexists. }
  destruct Hlk as [eo Hlk]. rewrite Hlk.
  destruct (shares_list_setdefault fr0 b d l Hsh Hd Hl) as (H1 & H2 & H3).
  rewrite H1. change (Frame (config fr0) (store fr0)) with fr0.
  rewrite H2, bool_decide_eq_false_2 by done. simpl. split; [done|].
  assert (Hfin : ∀ f fr, default_config (save_config o2 (config fr)
                           (world_of f fr)) = store fr).
  { intros f fr. by destruct o2. }
  rewrite Hfin, H3. simpl. apply map_eq. intros j.
  destruct (decide (j = b)) as [->|Hne].
  - rewrite lookup_alter_eq, lookup_insert_eq, Hd. simpl.
    unfold on_customs. by rewrite Hl.
  - by rewrite lookup_alter_ne, lookup_insert_ne.
Qed.

(** X9 at [sample_world], whose file does not mention Grok. *)
Lemma add_custom_model_appends_to_default_list_witness :
  default_config
    (add_custom_model "Grok API" "grok-next" WriteDone WriteDone sample_world).2
    !! "Grok API" ≫= custom_models
  = Some ["grok-next"].
Proof.
  destruct (add_custom_model_appends_to_default_list "Grok API" "grok-next"
              WriteDone WriteDone sample_world
              (default_entry "https://api.x.ai" "grok-imagine-image-pro") [])
    as [_ H].
  - vm_compute. reflexivity.
  - reflexivity.
  - vm_compute. reflexivity.
  - reflexivity.
  - apply not_elem_of_nil.
  - etrans; [exact (f_equal (λ D, D !! "Grok API" ≫= custom_models) H)|].
    vm_compute. reflexivity.
Defined.

End ConfigFurther.

(** ** nodes_config.py, and the inputs of the Gemini node *)

Section NodesProperties.
Import Config APIImageConfigLoader APIImageConfigSaver.

Lemma rstrip_idemp s : PyStr.rstrip (PyStr.rstrip s) = PyStr.rstrip s.
Proof.
  induction s as [|a s IH]; simpl; [done|].
  destruct (PyStr.rstrip s) as [|b r] eqn:Hr.
  - destruct (PyStr.is_space a) eqn:Ha; simpl; [done|]. by rewrite Ha.
  - simpl. simpl in IH. by rewrite IH.
Qed.

Lemma rstrip_head a s :
  PyStr.is_space a = false →
  ∃ t, PyStr.rstrip (String a s) = String a t.
Proof.
  intros Ha. simpl. destruct (PyStr.rstrip s); [|by eexists].
  rewrite Ha. by eexists.
Qed.

Lemma strip_idemp s : PyStr.strip (PyStr.strip s) = PyStr.strip s.
Proof.
  unfold PyStr.strip.
  destruct (lstrip_head s) as [He|(a & t & He & Ha)].
  - rewrite He. done.
  - rewrite He. destruct (rstrip_head a t Ha) as [t' Ht]. rewrite Ht.
    simpl PyStr.lstrip. rewrite Ha. rewrite <-Ht. apply rstrip_idemp.
Qed.

Lemma blank_strip s : PyStr.blank s = false → PyStr.blank (PyStr.strip s) = false.
Proof.
  intros H%strip_truthy. unfold PyStr.blank. by rewrite strip_idemp, H.
Qed.

Lemma kwarg_blank x :
  kwarg x = if PyStr.blank x then None else Some (PyStr.strip x).
Proof.
  unfold kwarg, PyStr.blank.
  by destruct (PyStr.truthy x), (PyStr.truthy (PyStr.strip x)).
Qed.

Lemma override_kwarg x saved : override x saved = default saved (kwarg x).
Proof. unfold override, kwarg. by destruct (_ && _). Qed.

Lemma kwarg_None x : kwarg x = None ↔ Gemini.whitespace_only x.
Proof.
  rewrite kwarg_blank, <-blank_whitespace. by destruct (PyStr.blank x).
Qed.

Lemma cfg_get_setitems k u m base :
  let cfg := setitem_opt "model_name" m
               (setitem_opt "base_url" u (setitem_opt "api_key" k base)) in
  cfg_get cfg "api_key" = default (cfg_get base "api_key") k
  ∧ cfg_get cfg "base_url" = default (cfg_get base "base_url") u
  ∧ cfg_get cfg "model_name" = default (cfg_get base "model_name") m.
Proof.
  unfold cfg_get. destruct k, u, m; simpl;
    rewrite ?lookup_insert_eq, ?lookup_insert_ne by done;
    rewrite ?lookup_insert_eq, ?lookup_insert_ne by done;
    rewrite ?lookup_insert_eq, ?lookup_insert_ne by done; done.
Qed.

Lemma cfg_get_fallback x key :
  key ∈ ["api_key"; "base_url"; "model_name"] →
  cfg_get (default fallback_value x) key = cfg_get (default (Entry ∅ None) x) key.
Proof.
  intros Hk. destruct x as [e|]; [done|]. simpl. unfold cfg_get. simpl.
  rewrite lookup_empty.
  repeat (apply elem_of_cons in Hk as [->|Hk]; [by vm_compute|]).
  by apply elem_of_nil in Hk.
Qed.

Lemma load_eq b k u m o w :
  load b k u m o w =
    let cfg := default (Entry ∅ None) (entries_of o w !! b) in
    let api_key := override k (cfg_get cfg "api_key") in
    ((api_key, override u (cfg_get cfg "base_url"),
      override m (cfg_get cfg "model_name")),
     (if PyStr.truthy api_key then []
      else ["[ConfigLoader] No API key found for " +:+ b +:+
            ". Please configure it."]),
     (load_config o w).2).
Proof.
  unfold load. pose proof (get_api_config_eq b o w) as Hg.
  pose proof (get_api_config_world b o w) as Hw.
  destruct (get_api_config b o w) as [cfg w1]. simpl in *. by subst.
Qed.

Lemma kwarg_keys_nil a b c :
  kwarg_keys a b c = [] → a = None ∧ b = None ∧ c = None.
Proof. by destruct a, b, c. Qed.

Lemma kwarg_empty : kwarg "" = None.
Proof. done. Qed.

(** X10.  Saving with the saver node and loading with the loader node.
    After [save] with the three fields (no custom model named, the write of
    [set_api_config] running to its end, the entries of [DEFAULT_CONFIG] all
    having [custom_models]), [load] without overrides returns,
    field by field, the stripped value that was entered, or what it returned
    before the save where the field was left blank: the same values and the
    same warning as [load] with the three inputs as overrides on the state
    before. *)
Theorem saved_values_load_back
    (b k u m : string) (io : save_io) (o : io_outcome) (w : world) :
  defaults_ok (default_config w) →
  set_save io = WriteDone →
  let w' := (save b k u m "" "" io w).2 in
  let before := (load b "" "" "" (set_load io) w).1.1 in
  let after := (load b "" "" "" o w').1.1 in
  after = (override k before.1.1, override u before.1.2, override m before.2)
  ∧ (load b "" "" "" o w').1 = (load b k u m (set_load io) w).1.
Proof.
  intros Hok Hio w' before after.
  assert (Hw : w' = match kwarg_keys (kwarg k) (kwarg u) (kwarg m) with
                    | [] => w
                    | _ => (set_api_config b (kwarg k) (kwarg u) (kwarg m)
                              (set_load io) WriteDone w).2
                    end).
  { subst w'. unfold save. rewrite kwarg_empty, Hio.
    by destruct (kwarg_keys _ _ _). }
  assert (He : default (Entry ∅ None) (entries_of o w' !! b)
               = match kwarg_keys (kwarg k) (kwarg u) (kwarg m) with
                 | [] => default (Entry ∅ None) (entries_of (set_load io) w !! b)
                 | _ => setitem_opt "model_name" (kwarg m)
                          (setitem_opt "base_url" (kwarg u)
                             (setitem_opt "api_key" (kwarg k)
                                (default fallback_value
                                   (entries_of (set_load io) w !! b))))
                 end).
  { rewrite Hw. destruct (kwarg_keys _ _ _) eqn:Hk.
    - by rewrite (entries_of_indep o (set_load io)).
    - destruct (set_api_config_entries b (kwarg k) (kwarg u) (kwarg m)
                  (set_load io) o w Hok) as (Hr & Hen & _).
      by rewrite Hen, lookup_insert_eq, Hr. }
  assert (Hv : ∀ key, key ∈ ["api_key"; "base_url"; "model_name"] →
     cfg_get (default (Entry ∅ None) (entries_of o w' !! b)) key
     = default (cfg_get (default (Entry ∅ None)
                           (entries_of (set_load io) w !! b)) key)
               (match key with
                | "api_key" => kwarg k
                | "base_url" => kwarg u
                | _ => kwarg m
                end)).
  { intros key Hkey. rewrite He. destruct (kwarg_keys _ _ _) eqn:Hk.
    - apply kwarg_keys_nil in Hk as (-> & -> & ->).
      repeat (apply elem_of_cons in Hkey as [->|Hkey]; [done|]).
      by apply elem_of_nil in Hkey.
    - destruct (cfg_get_setitems (kwarg k) (kwarg u) (kwarg m)
                  (default fallback_value (entries_of (set_load io) w !! b)))
        as (H1 & H2 & H3).
      repeat (apply elem_of_cons in Hkey as [->|Hkey];
              [rewrite ?H1, ?H2, ?H3, cfg_get_fallback;
                 [done|set_solver]|]).
      by apply elem_of_nil in Hkey. }
  subst before after. rewrite !load_eq. cbv zeta. cbn [fst snd].
  rewrite !override_kwarg, !kwarg_empty. cbn [default].
  rewrite !(Hv "api_key"), !(Hv "base_url"), !(Hv "model_name") by set_solver.
  done.
Qed.

(** X10 at [sample_world]: a new key and a new model, the endpoint left blank. *)
Lemma saved_values_load_back_witness :
  (load "Gemini Native" "" "" "" WriteDone
     (save "Gemini Native" " AIzaSy-new " "" "gemini-3-pro-image-preview" "" ""
        (SaveIO WriteDone WriteDone WriteDone WriteDone WriteDone WriteDone)
        sample_world).2).1.1
  = ("AIzaSy-new", "https://proxy.example", "gemini-3-pro-image-preview").
Proof.
  etrans.
  - apply (saved_values_load_back "Gemini Native" " AIzaSy-new " ""
             "gemini-3-pro-image-preview"
             (SaveIO WriteDone WriteDone WriteDone WriteDone WriteDone WriteDone)
             WriteDone sample_world).
    + apply defaults_ok_fresh.
    + reflexivity.
  - vm_compute. reflexivity.
Defined.

Lemma first_char_join a x sep l :
  PyStr.first_char x = Some a → PyStr.first_char (PyStr.join sep (x :: l)) = Some a.
Proof. destruct x as [|c x]; [done|]. intros [= ->]. by destruct l. Qed.

Lemma save_status b k u m a r io w :
  ∃ parts,
    (save b k u m a r io w).1
    = match parts with
      | [] => "No changes to save"
      | _ => PyStr.join " | " parts
      end
    ∧ (parts = [] ↔
         kwarg k = None ∧ kwarg u = None ∧ kwarg m = None
         ∧ kwarg a = None ∧ kwarg r = None)
    ∧ ∀ p rest, parts = p :: rest → ∃ c, PyStr.first_char p = Some c ∧ c ≠ "N"%char.
Proof.
  unfold save.
  set (keys := kwarg_keys (kwarg k) (kwarg u) (kwarg m)).
  assert (Hkeys : keys = [] ↔ kwarg k = None ∧ kwarg u = None ∧ kwarg m = None).
  { subst keys. split; [apply kwarg_keys_nil|]. by intros (-> & -> & ->). }
  destruct keys as [|key keys'] eqn:Hk.
  - destruct (kwarg a) as [na|] eqn:Ha.
    + destruct (add_custom_model b na _ _ w) as [added w1].
      destruct (kwarg r) as [nr|] eqn:Hr.
      * destruct (remove_custom_model b nr _ _ w1) as [removed w2].
        eexists. split; [reflexivity|]. split.
        -- split; [done|]. by intros (_ & _ & _ & ? & _).
        -- intros p rest [= <- _]. destruct added; by eexists.
      * eexists. split; [reflexivity|]. split.
        -- split; [done|]. by intros (_ & _ & _ & ? & _).
        -- intros p rest [= <- _]. destruct added; by eexists.
    + destruct (kwarg r) as [nr|] eqn:Hr.
      * destruct (remove_custom_model b nr _ _ w) as [removed w2].
        eexists. split; [reflexivity|]. split.
        -- split; [done|]. by intros (_ & _ & _ & _ & ?).
        -- intros p rest [= <- _]. destruct removed; by eexists.
      * exists []. split; [done|]. split; [|done]. split; [|done].
        intros _. destruct Hkeys as [H _].
        by destruct (H eq_refl) as (? & ? & ?).
  - set (w0 := (set_api_config _ _ _ _ _ _ w).2).
    assert (Hno : ¬ (kwarg k = None ∧ kwarg u = None ∧ kwarg m = None)).
    { intros H. by apply Hkeys in H. }
    destruct (kwarg a) as [na|] eqn:Ha.
    + destruct (add_custom_model b na _ _ w0) as [added w1].
      destruct (kwarg r) as [nr|] eqn:Hr.
      * destruct (remove_custom_model b nr _ _ w1) as [removed w2].
        eexists. split; [reflexivity|]. split.
        -- split; [done|]. by intros (_ & _ & _ & ? & _).
        -- intros p rest [= <- _]. by eexists.
      * eexists. split; [reflexivity|]. split.
        -- split; [done|]. by intros (_ & _ & _ & ? & _).
        -- intros p rest [= <- _]. by eexists.
    + destruct (kwarg r) as [nr|] eqn:Hr.
      * destruct (remove_custom_model b nr _ _ w0) as [removed w2].
        eexists. split; [reflexivity|]. split.
        -- split; [done|]. by intros (_ & _ & _ & _ & ?).
        -- intros p rest [= <- _]. by eexists.
      * exists ["Saved config for " +:+ b +:+ ": " +:+ list_repr (key :: keys')].
        split; [reflexivity|]. split.
        -- split; [done|]. intros (? & ? & ? & _). exfalso. by apply Hno.
        -- intros p rest [= <- _]. by eexists.
Qed.

(** X11.  The saver node reports [No changes to save] exactly when its five
    text inputs are all empty or whitespace only; in that case the state is
    untouched (no load, no write). *)
Theorem save_reports_no_changes
    (b k u m a r : string) (io : save_io) (w : world) :
  ((save b k u m a r io w).1 = "No changes to save"
   ↔ Forall Gemini.whitespace_only [k; u; m; a; r])
  ∧ (Forall Gemini.whitespace_only [k; u; m; a; r] →
     save b k u m a r io w = ("No changes to save", w)).
Proof.
  assert (Hall : Forall Gemini.whitespace_only [k; u; m; a; r]
                 ↔ kwarg k = None ∧ kwarg u = None ∧ kwarg m = None
                   ∧ kwarg a = None ∧ kwarg r = None).
  { rewrite !Forall_cons, Forall_nil, !kwarg_None. tauto. }
  split.
  - rewrite Hall.
    destruct (save_status b k u m a r io w) as (parts & -> & Hp & Hc).
    destruct parts as [|p rest].
    + split; [intros _; by apply Hp|done].
    + split.
      * intros H. destruct (Hc p rest eq_refl) as (c & Hc1 & Hc2).
        apply (f_equal PyStr.first_char) in H.
        rewrite (first_char_join c) in H by done. simpl in H. congruence.
      * intros H. by apply Hp in H.
  - rewrite Hall. intros (Hk & Hu & Hm & Ha & Hr). unfold save.
    by rewrite Hk, Hu, Hm, Ha, Hr.
Qed.

(** X11 on a first run. *)
Lemma save_reports_no_changes_witness :
  save "Gemini Native" "" "  " "" "" " "
       (SaveIO WriteDone WriteDone WriteDone WriteDone WriteDone WriteDone)
       (fresh_world Missing)
  = ("No changes to save", fresh_world Missing).
Proof.
  apply save_reports_no_changes. repeat constructor.
Defined.

Lemma set_api_config_customs b b' k u m o1 o w :
  defaults_ok (default_config w) →
  customs_of o (set_api_config b k u m o1 WriteDone w).2 b' = customs_of o1 w b'.
Proof.
  intros Hok.
  destruct (set_api_config_entries b k u m o1 o w Hok) as (Hr & He & _).
  unfold customs_of. rewrite He.
  destruct (decide (b' = b)) as [->|Hne]; [|by rewrite lookup_insert_ne].
  rewrite lookup_insert_eq, Hr. simpl.
  destruct (entries_of o1 w !! b) as [e|]; simpl; by destruct k, u, m.
Qed.

Lemma add_custom_model_customs b n o1 o w :
  defaults_ok (default_config w) → PyStr.blank n = false → PyStr.strip n = n →
  let l := customs_of o w b in
  let r := add_custom_model b n o1 WriteDone w in
  r.1 = negb (bool_decide (n ∈ l))
  ∧ customs_of o r.2 b = (if bool_decide (n ∈ l) then l else l ++ [n])
  ∧ defaults_ok (default_config r.2).
Proof.
  intros Hok Hb Hs l r.
  pose proof (add_custom_model_entries b n o1 o w Hok Hb) as H.
  cbv zeta in H. rewrite Hs in H. fold r in H.
  rewrite (customs_of_indep o1 o) in H. fold l in H.
  split; [|split; [|by apply add_custom_model_defaults_ok]].
  - destruct (bool_decide (n ∈ l)); [by rewrite H|apply H].
  - destruct (bool_decide (n ∈ l)).
    + rewrite H. simpl. unfold customs_of at 1.
      by rewrite entries_of_reload, (entries_of_indep o1 o).
    + destruct H as (_ & He & _). by rewrite (customs_of_insert _ _ _ _ _ He).
Qed.

Lemma remove_custom_model_customs b n o1 o w :
  defaults_ok (default_config w) →
  let l := customs_of o w b in
  let r := remove_custom_model b n o1 WriteDone w in
  r.1 = bool_decide (n ∈ l)
  ∧ customs_of o r.2 b = remove_first n l
  ∧ defaults_ok (default_config r.2).
Proof.
  intros Hok l r.
  pose proof (remove_custom_model_entries b n o1 o w Hok) as H.
  cbv zeta in H. fold r in H.
  rewrite (customs_of_indep o1 o) in H. fold l in H.
  split; [|split; [|by apply remove_custom_model_defaults_ok]].
  - destruct (bool_decide (n ∈ l)); [apply H|by rewrite H].
  - destruct (decide (n ∈ l)) as [Hin|Hin].
    + rewrite bool_decide_eq_true_2 in H by done. destruct H as (_ & He & _).
      unfold customs_of at 1. rewrite He, lookup_alter_eq.
      subst l. unfold customs_of. rewrite (entries_of_indep o o1).
      by destruct (entries_of o1 w !! b) as [[f [x|]]|].
    + rewrite bool_decide_eq_false_2 in H by done. rewrite H. simpl.
      rewrite remove_first_absent by done.
      unfold customs_of at 1.
      by rewrite entries_of_reload, (entries_of_indep o1 o).
Qed.

Lemma kwarg_stripped x n :
  kwarg x = Some n → PyStr.blank n = false ∧ PyStr.strip n = n.
Proof.
  rewrite kwarg_blank. destruct (PyStr.blank x) eqn:Hb; [done|].
  intros [= <-]. split; [by apply blank_strip|apply strip_idemp].
Qed.

Lemma save_unfold b k u m a r io w :
  save b k u m a r io w =
    let keys := kwarg_keys (kwarg k) (kwarg u) (kwarg m) in
    let w0 := match keys with
              | [] => w
              | _ => (set_api_config b (kwarg k) (kwarg u) (kwarg m)
                        (set_load io) (set_save io) w).2
              end in
    let ra := add_custom_model b (default "" (kwarg a)) (add_load io)
                               (add_save io) w0 in
    let w1 := match kwarg a with Some _ => ra.2 | None => w0 end in
    let rr := remove_custom_model b (default "" (kwarg r)) (remove_load io)
                                  (remove_save io) w1 in
    let w2 := match kwarg r with Some _ => rr.2 | None => w1 end in
    let parts :=
      match keys with
      | [] => []
      | _ => ["Saved config for " +:+ b +:+ ": " +:+ list_repr keys]
      end
      ++ match kwarg a with
         | Some n => [if ra.1 then "Added custom model: " +:+ n
                      else "Model already exists: " +:+ n]
         | None => []
         end
      ++ match kwarg r with
         | Some n => [if rr.1 then "Removed custom model: " +:+ n
                      else "Model not found: " +:+ n]
         | None => []
         end in
    (match parts with
     | [] => "No changes to save"
     | _ => PyStr.join " | " parts
     end, w2).
Proof.
  unfold save. cbv zeta.
  destruct (kwarg_keys (kwarg k) (kwarg u) (kwarg m)) as [|key keys];
    destruct (kwarg a) as [na|]; simpl;
    try (match goal with
         | |- context [add_custom_model b na ?x ?y ?z] =>
             destruct (add_custom_model b na x y z) as [added wa]
         end; simpl);
    destruct (kwarg r) as [nr|]; simpl;
    try (match goal with
         | |- context [remove_custom_model b nr ?x ?y ?z] =>
             destruct (remove_custom_model b nr x y z) as [removed wr]
         end; simpl);
    reflexivity.
Qed.

(** X12.  What the saver node does to the custom list, all writes running
    to their end and the entries of [DEFAULT_CONFIG] all having
    [custom_models]: the name to add (stripped) is appended unless present, then
    the first occurrence of the name to remove (stripped) is taken out,
    whatever fields are saved in the same call; [get_model_list] afterwards
    merges the builtins with that list; and the status names, in this order,
    the keys saved, the model added or found present, the model removed or
    not found. *)
Theorem save_custom_models
    (b k u m a r : string) (io : save_io) (o : io_outcome) (w : world) :
  defaults_ok (default_config w) →
  set_save io = WriteDone → add_save io = WriteDone →
  remove_save io = WriteDone →
  let l0 := customs_of o w b in
  let l1 := match kwarg a with
            | Some n => if bool_decide (n ∈ l0) then l0 else l0 ++ [n]
            | None => l0
            end in
  let l2 := match kwarg r with
            | Some n => remove_first n l1
            | None => l1
            end in
  let parts :=
    match kwarg_keys (kwarg k) (kwarg u) (kwarg m) with
    | [] => []
    | keys => ["Saved config for " +:+ b +:+ ": " +:+ list_repr keys]
    end
    ++ match kwarg a with
       | Some n => [if bool_decide (n ∈ l0)
                    then "Model already exists: " +:+ n
                    else "Added custom model: " +:+ n]
       | None => []
       end
    ++ match kwarg r with
       | Some n => [if bool_decide (n ∈ l1)
                    then "Removed custom model: " +:+ n
                    else "Model not found: " +:+ n]
       | None => []
       end in
  let res := save b k u m a r io w in
  customs_of o res.2 b = l2
  ∧ (get_model_list b o res.2).1
    = merge_models (default [] (BUILTIN_MODELS !! b)) l2
  ∧ res.1 = match parts with
            | [] => "No changes to save"
            | _ => PyStr.join " | " parts
            end.
Proof.
  intros Hok Hs Ha Hr l0 l1 l2 parts res.
  subst res. rewrite save_unfold. cbv zeta. rewrite Hs, Ha, Hr.
  set (w0 := match kwarg_keys (kwarg k) (kwarg u) (kwarg m) with
             | [] => w
             | _ => _
             end).
  assert (H0 : defaults_ok (default_config w0) ∧ customs_of o w0 b = l0).
  { subst w0. destruct (kwarg_keys _ _ _); [done|]. split.
    - by apply set_api_config_defaults_ok.
    - rewrite set_api_config_customs by done. apply customs_of_indep. }
  destruct H0 as [Hok0 Hl0].
  set (ra := add_custom_model b (default "" (kwarg a)) (add_load io)
                              WriteDone w0).
  set (w1 := match kwarg a with Some _ => ra.2 | None => w0 end).
  assert (H1 : defaults_ok (default_config w1) ∧ customs_of o w1 b = l1
               ∧ ∀ n, kwarg a = Some n → ra.1 = negb (bool_decide (n ∈ l0))).
  { subst w1 ra l1. destruct (kwarg a) as [n|] eqn:Hka; [|done].
    destruct (kwarg_stripped _ _ Hka) as [Hb Hst].
    destruct (add_custom_model_customs b n (add_load io) o w0 Hok0 Hb Hst)
      as (Hr1 & Hc1 & Hd1).
    rewrite Hl0 in Hr1, Hc1. split; [done|]. split; [done|].
    by intros n' [= <-]. }
  destruct H1 as (Hok1 & Hl1 & Hra).
  set (rr := remove_custom_model b (default "" (kwarg r)) (remove_load io)
                                 WriteDone w1).
  set (w2 := match kwarg r with Some _ => rr.2 | None => w1 end).
  assert (H2 : customs_of o w2 b = l2
               ∧ ∀ n, kwarg r = Some n → rr.1 = bool_decide (n ∈ l1)).
  { subst w2 rr l2. destruct (kwarg r) as [n|] eqn:Hkr; [|done].
    destruct (remove_custom_model_customs b n (remove_load io) o w1 Hok1)
      as (Hr2 & Hc2 & _).
    rewrite Hl1 in Hr2, Hc2. split; [done|]. by intros n' [= <-]. }
  destruct H2 as (Hl2 & Hrr).
  cbn [fst snd]. split; [done|]. split.
  - rewrite get_model_list_eq. simpl. by rewrite Hl2.
  - subst parts. clear Hl2. clearbody l2 l1 l0 w2 rr w1 ra w0.
    destruct (kwarg a) as [na|]; [rewrite (Hra na eq_refl)|];
      (destruct (kwarg r) as [nr|]; [rewrite (Hrr nr eq_refl)|]);
      destruct (kwarg_keys (kwarg k) (kwarg u) (kwarg m));
      repeat (destruct (bool_decide _)); reflexivity.
Qed.

(** X12 at [sample_world]: one model added, the one of the file removed. *)
Lemma save_custom_models_witness :
  let res := save "Gemini Native" "" "" "" "flux-pro" "my-model"
               (SaveIO WriteDone WriteDone WriteDone WriteDone WriteDone
                       WriteDone) sample_world in
  customs_of WriteDone res.2 "Gemini Native" = ["flux-pro"]
  ∧ res.1 = "Added custom model: flux-pro | Removed custom model: my-model".
Proof.
  destruct (save_custom_models "Gemini Native" "" "" "" "flux-pro" "my-model"
              (SaveIO WriteDone WriteDone WriteDone WriteDone WriteDone
                      WriteDone) WriteDone sample_world)
    as (H1 & _ & H3).
  - apply defaults_ok_fresh.
  - reflexivity.
  - reflexivity.
  - reflexivity.
  - split.
    + etrans; [exact H1|]. vm_compute. reflexivity.
    + etrans; [exact H3|]. vm_compute. reflexivity.
Defined.

(** X13.  The choices of [model_name] offered by the Gemini node are the
    result of [get_model_list]: the two builtin models first, then each
    persisted custom model that is not empty and no builtin, without
    duplicates.  The default choice is always [gemini-2.5-flash-image],
    whatever the configuration holds: the saved [model_name] is not
    consulted and the fallback of an empty list is never taken. *)
Theorem gemini_dropdown_starts_with_builtins (o1 o2 : io_outcome) (w : world) :
  let r := (GeminiImageGenerate.INPUT_TYPES o1 o2 w).1 in
  let builtin := ["gemini-2.5-flash-image"; "gemini-3-pro-image-preview"] in
  GeminiImageGenerate.model_default r = "gemini-2.5-flash-image"
  ∧ GeminiImageGenerate.models r = (get_model_list "Gemini Native" o1 w).1
  ∧ NoDup (GeminiImageGenerate.models r)
  ∧ ∃ added,
      GeminiImageGenerate.models r = builtin ++ added
      ∧ added `sublist_of` customs_of o1 w "Gemini Native"
      ∧ ∀ x, x ∈ added
             ↔ x ∈ customs_of o1 w "Gemini Native" ∧ x ≠ "" ∧ x ∉ builtin.
Proof.
  intros r builtin.
  assert (Hb : default [] (BUILTIN_MODELS !! "Gemini Native") = builtin).
  { by vm_compute. }
  set (custom := customs_of o1 w "Gemini Native").
  destruct (effective_models_spec_shape (filter (λ m, m ≠ "") custom) builtin)
    as (added & H1 & H2 & H3 & H4).
  { rewrite <-Hb. apply builtin_NoDup. }
  assert (Hm : (get_model_list "Gemini Native" o1 w).1 = builtin ++ added).
  { rewrite get_model_list_eq. simpl. fold custom.
    by rewrite merge_models_as_spec, Hb. }
  assert (Hr : GeminiImageGenerate.models r = builtin ++ added
               ∧ GeminiImageGenerate.model_default r = "gemini-2.5-flash-image").
  { subst r. unfold GeminiImageGenerate.INPUT_TYPES.
    destruct (get_model_list "Gemini Native" o1 w) as [ms w1]. simpl in Hm.
    subst ms.
    by destruct (get_api_config "Gemini Native" o2 w1) as [cfg w2]. }
  destruct Hr as [Hr1 Hr2].
  split; [done|]. split; [by rewrite Hm|]. split; [by rewrite Hr1|].
  exists added. split; [done|]. split.
  - etrans; [exact H3|]. apply sublist_filter.
  - intros x. rewrite H4, list_elem_of_filter. tauto.
Qed.

End NodesProperties.

(** ** More on [generate] *)

Section GeminiFurther.
Import Gemini.

Lemma validate_silent backend model refs limits :
  (validate_ref_images backend model refs limits).1 = [].
Proof.
  unfold validate_ref_images. destruct (limits !! model) as [[lo hi]|]; [|done].
  by destruct (_ && _).
Qed.

Lemma api_loop_returned E model contents cfg n : ∀ idx st st',
  (api_loop E model contents cfg n idx st).2 = Returned st' →
  calls (api_loop E model contents cfg n idx st).1 = n
  ∧ (n = 0 → st' = st)
  ∧ ∀ i, i < n → ∃ resp, generate_content E (idx + i) model contents cfg = inr resp.
Proof.
  induction n as [|n IH]; intros idx st st' H.
  - simpl in H. injection H as <-. split; [done|]. split; [done|]. lia.
  - destruct (generate_content E idx model contents cfg) as [err|resp] eqn:Hgc.
    + simpl in H. by rewrite Hgc in H.
    + destruct (api_loop_step E model contents cfg n idx st resp Hgc)
        as (Heq & _ & Hc).
      rewrite Heq in H |- *. cbn [fst snd] in *.
      destruct (IH _ _ _ H) as (H1 & _ & H3).
      split; [by rewrite calls_call, calls_app, Hc, H1|]. split; [done|].
      intros [|i] Hi.
      * rewrite Nat.add_0_r. by eexists.
      * replace (idx + S i) with (S idx + i) by lia. apply H3. lia.
Qed.

Lemma Z_to_nat_nonpos (z : Z) : (z ≤ 0)%Z → Z.to_nat z = 0.
Proof. lia. Qed.

(** X14.  With [num_images] at zero or below the loop body never runs, so
    [response] is unbound when the error is built: a run that passes the
    checks before the loop makes no backend call and raises
    [UnboundLocalError], not the [RuntimeError] of an empty result. *)
Theorem generate_without_iterations (E : environment)
    (prompt api_key model_name : string) (num_images : Z)
    (aspect_ratio resolution base_url : string)
    (ref_images : option tensor) (mask : option mask_tensor)
    (custom_model : string) (seed : Z) :
  (num_images ≤ 0)%Z →
  reaches_validation E prompt api_key base_url →
  validate_ref_images "Gemini" (effective_model_of custom_model model_name)
    ref_images MODEL_REF_IMAGE_LIMITS = ([], Returned tt) →
  generate E prompt api_key model_name num_images aspect_ratio resolution
           base_url ref_images mask custom_model seed
  = (CreateClient (PyStr.strip api_key) (http_options E base_url)
       :: conversion_warnings E ref_images mask,
     Raised (UnboundLocalError "response")).
Proof.
  intros Hn Hr Hv.
  destruct (prepare_contents_total E prompt ref_images mask)
    as (contents & Hpc & _).
  rewrite (generate_reaches E prompt api_key model_name num_images aspect_ratio
             resolution base_url ref_images mask custom_model seed _ _
             Hr Hv Hpc).
  rewrite (Z_to_nat_nonpos _ Hn). simpl. by rewrite app_nil_r.
Qed.

(** X14 for a request of zero images. *)
Lemma generate_without_iterations_witness :
  generate second_call_fails "a cat" "AIzaSy-key" "gemini-2.5-flash-image" 0
           "Default" "Default" "" None None "" 0
  = ([CreateClient "AIzaSy-key" None], Raised (UnboundLocalError "response")).
Proof.
  apply (generate_without_iterations second_call_fails "a cat" "AIzaSy-key"
           "gemini-2.5-flash-image" 0 "Default" "Default" "" None None "" 0).
  - reflexivity.
  - repeat split; reflexivity.
  - vm_compute. reflexivity.
Defined.

(** X15.  All backend calls of one run are the same request: the model is
    the stripped [custom_model] when that is not blank and [model_name]
    otherwise; the contents are the prompt as given, then the converted
    reference images in the order of the batch, then the converted mask; the
    configuration holds the resolution and the aspect ratio unless
    [Default].  Neither the loop index nor the seed is sent.  At most
    [num_images] calls are made. *)
Theorem backend_calls_are_identical (E : environment)
    (prompt api_key model_name : string) (num_images : Z)
    (aspect_ratio resolution base_url : string)
    (ref_images : option tensor) (mask : option mask_tensor)
    (custom_model : string) (seed : Z) :
  let r := generate E prompt api_key model_name num_images aspect_ratio
             resolution base_url ref_images mask custom_model seed in
  let model := if PyStr.blank custom_model then model_name
               else PyStr.strip custom_model in
  let contents := Prompt prompt
                    :: (Picture <$> converted_refs E ref_images)
                    ++ (Picture <$> converted_mask E mask) in
  let cfg := GenConfig (knob resolution) (knob aspect_ratio) in
  filter (λ ev, is_call ev = true) r.1
    = replicate (calls r.1) (BackendCall model contents cfg)
  ∧ (calls r.1 ≤ Z.to_nat num_images)%nat.
Proof.
  intros r model contents cfg.
  pose proof (prepare_contents_eq E prompt ref_images mask) as Hpc.
  fold contents in Hpc.
  assert (Hm : effective_model_of custom_model model_name = model).
  { subst model. unfold effective_model_of, PyStr.blank.
    by destruct (PyStr.truthy custom_model),
                (PyStr.truthy (PyStr.strip custom_model)). }
  assert (Hearly : ∀ tr (e : exn), calls tr = 0 →
            r = (tr, Raised e) →
            filter (λ ev, is_call ev = true) r.1
              = replicate (calls r.1) (BackendCall model contents cfg)
            ∧ (calls r.1 ≤ Z.to_nat num_images)%nat).
  { intros tr e Hc ->. simpl. rewrite Hc, (calls_nil_filter _ Hc).
    split; [done|lia]. }
  destruct (PyStr.blank prompt) eqn:Hp.
  { eapply (Hearly []); [done|]. subst r. unfold generate. by rewrite Hp. }
  destruct (PyStr.blank api_key) eqn:Hk.
  { eapply (Hearly []); [done|]. subst r. unfold generate. by rewrite Hp, Hk. }
  destruct (sdk_import E) eqn:Hi.
  { eapply (Hearly []); [done|]. subst r. unfold generate.
    by rewrite Hp, Hk, Hi. }
  destruct (new_client E (PyStr.strip api_key) (http_options E base_url))
    eqn:Hc.
  { eapply (Hearly [CreateClient _ _]); [done|]. subst r. unfold generate.
    rewrite Hp, Hk, Hi. fold (http_options E base_url). by rewrite Hc. }
  assert (Hr : reaches_validation E prompt api_key base_url) by done.
  pose proof (validate_silent "Gemini"
                (effective_model_of custom_model model_name) ref_images
                MODEL_REF_IMAGE_LIMITS) as Hvs.
  destruct (validate_ref_images "Gemini"
              (effective_model_of custom_model model_name) ref_images
              MODEL_REF_IMAGE_LIMITS)
    as [vl [[]|ve]] eqn:Hv; simpl in Hvs; subst vl.
  2: { eapply (Hearly [CreateClient _ _]); [done|]. subst r. unfold generate.
       rewrite Hp, Hk, Hi. fold (http_options E base_url). rewrite Hc.
       by rewrite Hv. }
  subst r.
  rewrite (generate_reaches E prompt api_key model_name num_images aspect_ratio
             resolution base_url ref_images mask custom_model seed _ _
             Hr Hv Hpc).
  rewrite Hm. fold cfg. cbn [fst snd].
  set (loop := api_loop E model contents cfg (Z.to_nat num_images) 0
                        (LoopState [] [] None)).
  destruct (api_loop_calls_shape E model contents cfg (Z.to_nat num_images) 0
              (LoopState [] [] None)) as [H1 H2].
  fold loop in H1, H2.
  assert (Hb : (bind loop finish).1 = loop.1).
  { destruct loop as [l [st|e]]; simpl; [|done].
    pose proof (finish_silent st) as Hf. destruct (finish st) as [l' o'].
    simpl in *. subst l'. by rewrite app_nil_r. }
  rewrite Hb, calls_client, calls_app, conversion_warnings_calls. simpl.
  rewrite filter_cons_False by done.
  rewrite filter_app, (calls_nil_filter _ (conversion_warnings_calls _ _ _)).
  simpl. done.
Qed.

Lemma finish_returned st imgs txt :
  (finish st).2 = Returned (imgs, txt) →
  imgs = all_images_data st ∧ imgs ≠ [].
Proof.
  unfold finish. destruct (all_images_data st) as [|i l].
  - by destruct (response st).
  - by intros [= <- _].
Qed.

(** X16.  When [generate] returns, the result holds at least one image,
    [num_images] was at least one, exactly [num_images] backend calls were
    made and each of them returned a response; prompt and key were not
    blank, the SDK was importable and the client was created. *)
Theorem generate_returns_only_with_images (E : environment)
    (prompt api_key model_name : string) (num_images : Z)
    (aspect_ratio resolution base_url : string)
    (ref_images : option tensor) (mask : option mask_tensor)
    (custom_model : string) (seed : Z)
    (imgs : list bytes) (txt : string) :
  let r := generate E prompt api_key model_name num_images aspect_ratio
             resolution base_url ref_images mask custom_model seed in
  let model := effective_model_of custom_model model_name in
  let cfg := GenConfig (knob resolution) (knob aspect_ratio) in
  r.2 = Returned (imgs, txt) →
  imgs ≠ []
  ∧ (0 < num_images)%Z
  ∧ calls r.1 = Z.to_nat num_images
  ∧ reaches_validation E prompt api_key base_url
  ∧ ∃ contents,
      prepare_contents E prompt ref_images mask
        = (conversion_warnings E ref_images mask, Returned contents)
      ∧ ∀ i, i < Z.to_nat num_images →
          ∃ resp, generate_content E i model contents cfg = inr resp.
Proof.
  intros r model cfg Hret.
  destruct (prepare_contents_total E prompt ref_images mask)
    as (contents & Hpc & _).
  destruct (PyStr.blank prompt) eqn:Hp.
  { subst r. unfold generate in Hret. by rewrite Hp in Hret. }
  destruct (PyStr.blank api_key) eqn:Hk.
  { subst r. unfold generate in Hret. by rewrite Hp, Hk in Hret. }
  destruct (sdk_import E) eqn:Hi.
  { subst r. unfold generate in Hret. by rewrite Hp, Hk, Hi in Hret. }
  destruct (new_client E (PyStr.strip api_key) (http_options E base_url))
    eqn:Hc.
  { subst r. unfold generate in Hret. rewrite Hp, Hk, Hi in Hret.
    fold (http_options E base_url) in Hret. by rewrite Hc in Hret. }
  assert (Hr : reaches_validation E prompt api_key base_url) by done.
  pose proof (validate_silent "Gemini" model ref_images MODEL_REF_IMAGE_LIMITS)
    as Hvs.
  destruct (validate_ref_images "Gemini" model ref_images MODEL_REF_IMAGE_LIMITS)
    as [vl [[]|ve]] eqn:Hv; simpl in Hvs; subst vl.
  2: { subst r. unfold generate in Hret. rewrite Hp, Hk, Hi in Hret.
       fold (http_options E base_url) in Hret. rewrite Hc in Hret.
       fold model in Hret. by rewrite Hv in Hret. }
  subst r. revert Hret.
  rewrite (generate_reaches E prompt api_key model_name num_images aspect_ratio
             resolution base_url ref_images mask custom_model seed _ _
             Hr Hv Hpc).
  fold model cfg. cbn [fst snd].
  set (loop := api_loop E model contents cfg (Z.to_nat num_images) 0
                        (LoopState [] [] None)).
  pose proof (api_loop_returned E model contents cfg (Z.to_nat num_images) 0
                (LoopState [] [] None)) as Hl.
  fold loop in Hl.
  destruct loop as [l [st|e]] eqn:Hloop; simpl; [|done].
  destruct (Hl st eq_refl) as (H1 & H2 & H3). simpl in H1.
  pose proof (finish_silent st) as Hf.
  destruct (finish st) as [l' o'] eqn:Hfin. simpl in Hf. subst l'. simpl.
  intros ->.
  destruct (finish_returned st imgs txt) as [Hi1 Hi2]; [by rewrite Hfin|].
  split; [done|]. split.
  - destruct (Z.to_nat num_images) eqn:Hn; [|lia].
    rewrite (H2 eq_refl) in Hi1. by subst imgs.
  - split.
    + by rewrite app_nil_r, calls_client, calls_app, conversion_warnings_calls.
    + split; [done|]. exists contents. split; [done|]. intros i Hi'.
      by apply (H3 i).
Qed.

(** X16 for two images requested from a backend that returns one per call. *)
Lemma generate_returns_only_with_images_witness :
  calls (generate conversions_fail "a cat" "AIzaSy-key" "gemini-2.5-flash-image"
           2 "Default" "Default" "" None None "" 0).1 = 2.
Proof.
  apply (generate_returns_only_with_images conversions_fail "a cat"
           "AIzaSy-key" "gemini-2.5-flash-image" 2 "Default" "Default" ""
           None None "" 0 ["PNG-1"; "PNG-1"] "").
  vm_compute. reflexivity.
Defined.

(** X17.  The message of the empty result.  When all [num_images] calls
    return and no image is extracted, [generate] raises the [RuntimeError]
    whose message joins with [ | ]: the diagnostics of the candidates of the
    last response (a finish reason other than [STOP], blocked safety
    ratings), then the first 500 characters of the text of all responses
    when there is any; or the notice [No image data in response] when there
    is neither. *)
Theorem empty_result_message (E : environment)
    (prompt api_key model_name : string) (num_images : Z)
    (aspect_ratio resolution base_url : string)
    (ref_images : option tensor) (mask : option mask_tensor)
    (custom_model : string) (seed : Z)
    (w : list event) (contents : list content)
    (rs : list response_t) (last_response : response_t) :
  reaches_validation E prompt api_key base_url →
  validate_ref_images "Gemini" (effective_model_of custom_model model_name)
    ref_images MODEL_REF_IMAGE_LIMITS = ([], Returned tt) →
  prepare_contents E prompt ref_images mask = (w, Returned contents) →
  let model := effective_model_of custom_model model_name in
  let cfg := GenConfig (knob resolution) (knob aspect_ratio) in
  let r := generate E prompt api_key model_name num_images aspect_ratio
             resolution base_url ref_images mask custom_model seed in
  (∀ i resp, rs !! i = Some resp →
             generate_content E i model contents cfg = inr resp) →
  length rs = Z.to_nat num_images →
  last rs = Some last_response →
  concat (images_of <$> rs) = [] →
  let diagnostics :=
    concat (candidate_error_parts <$> candidates last_response) in
  let texts := concat (texts_of <$> rs) in
  let error_parts :=
    diagnostics
    ++ match texts with
       | [] => []
       | _ => ["Model response: " +:+
               PyStr.take 500 (PyStr.join newline texts)]
       end in
  r.2 = Raised (RuntimeError
                  ("[APIImage Gemini] Generation failed: " +:+
                   PyStr.join " | "
                     (match error_parts with
                      | [] => ["No image data in response"]
                      | _ => error_parts
                      end)))
  ∧ calls r.1 = Z.to_nat num_images.
Proof.
  intros Hr Hv Hpc model cfg r Hgc Hlen Hlast Hno diagnostics texts error_parts.
  subst r.
  rewrite (generate_reaches E prompt api_key model_name num_images aspect_ratio
             resolution base_url ref_images mask custom_model seed _ _
             Hr Hv Hpc).
  fold model cfg. cbn [fst snd]. rewrite <-Hlen.
  destruct (api_loop_returns E model contents cfg rs 0 (LoopState [] [] None))
    as [H1 H2]; [done|].
  rewrite (bind_returned _ _ _ H1). cbn [fst snd].
  rewrite finish_silent, app_nil_r. split.
  - unfold finish. simpl. rewrite Hno, Hlast. simpl.
    fold diagnostics texts. subst error_parts.
    destruct texts as [|t ts]; [by rewrite app_nil_r|].
    by destruct diagnostics.
  - assert (Hw : calls w = 0).
    { destruct (prepare_contents_total E prompt ref_images mask)
        as (c & Hc & _). rewrite Hpc in Hc. injection Hc as -> _.
      apply conversion_warnings_calls. }
    by rewrite calls_client, calls_app, Hw, H2.
Qed.

(** X17 for one response blocked for safety. *)
Lemma empty_result_message_witness :
  (generate blocked_then_refused "a cat" "AIzaSy-key" "gemini-2.5-flash-image"
     1 "Default" "Default" "" None None "" 0).2
  = Raised (RuntimeError
      "[APIImage Gemini] Generation failed: Blocked: FinishReason.SAFETY | Safety: HARM_CATEGORY_DANGEROUS_CONTENT=HIGH").
Proof.
  destruct (empty_result_message blocked_then_refused "a cat" "AIzaSy-key"
              "gemini-2.5-flash-image" 1 "Default" "Default" "" None None "" 0
              [] [Prompt "a cat"]
              [Response []
                 [Candidate (Some "FinishReason.SAFETY")
                    [SafetyRating "HARM_CATEGORY_DANGEROUS_CONTENT" "HIGH"
                                  true]]]
              (Response []
                 [Candidate (Some "FinishReason.SAFETY")
                    [SafetyRating "HARM_CATEGORY_DANGEROUS_CONTENT" "HIGH"
                                  true]])) as [H _].
  - repeat split; reflexivity.
  - vm_compute. reflexivity.
  - reflexivity.
  - intros [|i] resp Hi; simpl in Hi; [|discriminate].
    injection Hi as <-. reflexivity.
  - reflexivity.
  - reflexivity.
  - reflexivity.
  - etrans; [exact H|]. vm_compute. reflexivity.
Defined.

End GeminiFurther.

(** ** nodes_save.py *)

Section SaveProperties.
Import APIImageSave.

Lemma list_ascii_app s1 s2 :
  list_ascii_of_string (s1 +:+ s2)
  = list_ascii_of_string s1 ++ list_ascii_of_string s2.
Proof. induction s1 as [|a s1 IH]; [done|]. simpl. by rewrite <-IH. Qed.

Lemma list_ascii_inj s1 s2 :
  list_ascii_of_string s1 = list_ascii_of_string s2 → s1 = s2.
Proof.
  intros H. rewrite <-(string_of_list_ascii_of_string s1),
    <-(string_of_list_ascii_of_string s2). by rewrite H.
Qed.

Lemma zeros_value k s d :
  NilEmpty.uint_of_string s = Some d →
  ∃ d', NilEmpty.uint_of_string
          (string_of_list_ascii (replicate k "0"%char) +:+ s) = Some d'
        ∧ Nat.of_uint d' = Nat.of_uint d.
Proof.
  intros Hs. induction k as [|k (d' & IH1 & IH2)]; [by exists d|].
  exists (Decimal.D0 d'). split; [|done].
  change (NilEmpty.uint_of_string
            (String "0" (string_of_list_ascii (replicate k "0"%char) +:+ s))
          = Some (Decimal.D0 d')).
  simpl. by rewrite IH1.
Qed.

Lemma format_04d_value i : digits_value (format_04d i) = Some i.
Proof.
  unfold digits_value, format_04d.
  destruct (zeros_value (4 - String.length (NilEmpty.string_of_uint (Nat.to_uint i)))
              _ _ (NilEmpty.usu (Nat.to_uint i))) as (d' & H1 & H2).
  rewrite H1. simpl. by rewrite H2, Unsigned.of_to.
Qed.

Lemma format_04d_inj i j : format_04d i = format_04d j → i = j.
Proof.
  intros H. apply (f_equal digits_value) in H.
  rewrite !format_04d_value in H. by injection H.
Qed.

Lemma digits_no_underscore d :
  "_"%char ∉ list_ascii_of_string (NilEmpty.string_of_uint d).
Proof.
  induction d; simpl; [apply not_elem_of_nil|..];
    (apply not_elem_of_cons; split; [done|assumption]).
Qed.

Lemma format_04d_no_underscore i :
  "_"%char ∉ list_ascii_of_string (format_04d i).
Proof.
  unfold format_04d. rewrite list_ascii_app, list_ascii_of_string_of_list_ascii.
  apply not_elem_of_app. split; [|apply digits_no_underscore].
  intros [H _]%elem_of_replicate. done.
Qed.

Lemma pivot_inj (x : ascii) : ∀ l1 l2 d1 d2,
  x ∉ d1 → x ∉ d2 → l1 ++ x :: d1 = l2 ++ x :: d2 → d1 = d2.
Proof.
  induction l1 as [|a l1 IH]; intros [|b l2] d1 d2 H1 H2 H; simpl in H.
  - by injection H.
  - injection H as <- ->. exfalso. apply H1. apply elem_of_app. right. by left.
  - injection H as -> <-. exfalso. apply H2. apply elem_of_app. right. by left.
  - injection H as _ H. by eapply IH.
Qed.

Lemma filename_of_inj p t t' i j :
  filename_of p t i = filename_of p t' j → i = j.
Proof.
  unfold filename_of. intros H. apply String.app_inj in H.
  apply (f_equal list_ascii_of_string) in H.
  rewrite !list_ascii_app in H. simpl in H. injection H as H.
  apply pivot_inj in H.
  - apply app_inv_tail in H. by apply format_04d_inj, list_ascii_inj.
  - apply not_elem_of_app. split; [apply format_04d_no_underscore|].
    simpl. repeat (apply not_elem_of_cons; split; [done|]).
    apply not_elem_of_nil.
  - apply not_elem_of_app. split; [apply format_04d_no_underscore|].
    simpl. repeat (apply not_elem_of_cons; split; [done|]).
    apply not_elem_of_nil.
Qed.

Lemma save_loop_ok h prefix out prompt extra metadata : ∀ pils i results,
  png_plugin h = None →
  build_metadata h prompt extra = inr metadata →
  (∀ j img, pils !! j = Some img →
     img_save h (i + j)
       (path_join h out (filename_of prefix (now h (i + j)) (i + j)))
       img metadata = None) →
  save_loop h prefix out prompt extra i pils results
  = (imap (λ j img,
             SaveImage (path_join h out
                          (filename_of prefix (now h (i + j)) (i + j)))
                       img metadata) pils,
     inr (results
          ++ imap (λ j _, Saved (filename_of prefix (now h (i + j)) (i + j))
                                "" "output") pils)).
Proof.
  induction pils as [|img pils IH]; intros i results Hp Hm Hs.
  - simpl. by rewrite app_nil_r.
  - simpl. rewrite Hp, Hm.
    pose proof (Hs 0 img eq_refl) as H0. rewrite Nat.add_0_r in *.
    rewrite H0, IH; [|done..|].
    + rewrite <-(assoc_L (++)). simpl. f_equal; [f_equal|do 3 f_equal];
        apply imap_ext; intros j x _; simpl; by rewrite ?Nat.add_succ_r.
    + intros j x Hj. replace (S i + j) with (i + S j) by lia.
      by apply (Hs (S j)).
Qed.

(** X18.  [save_images] when every call succeeds: the output directory is
    created first, then one file per image is written, in the order of the
    batch, under [out_dir] joined with the name built from the prefix, the
    timestamp of the turn and the index on four digits, each with the same
    metadata; the list returned names these files in the same order, with an
    empty subfolder and the type [output]. *)
Theorem save_images_writes_every_image (h : host) (images : Gemini.tensor)
    (filename_prefix output_dir : string) (prompt : option pyobj)
    (extra_pnginfo : option (list (string * pyobj)))
    (pil_images : list Gemini.pil) (metadata : list (string * string)) :
  let out_dir := out_dir_of h output_dir in
  let name i := filename_of filename_prefix (now h i) i in
  makedirs h out_dir = None →
  tensor_to_pil h images = inr pil_images →
  png_plugin h = None →
  build_metadata h prompt extra_pnginfo = inr metadata →
  (∀ i img, pil_images !! i = Some img →
     img_save h i (path_join h out_dir (name i)) img metadata = None) →
  save_images h images filename_prefix output_dir prompt extra_pnginfo
  = (MakeDirs out_dir
       :: imap (λ i img, SaveImage (path_join h out_dir (name i)) img metadata)
               pil_images,
     inr (imap (λ i _, Saved (name i) "" "output") pil_images)).
Proof.
  intros out_dir name Hmk Ht Hp Hm Hs. unfold save_images. fold out_dir.
  rewrite Hmk, Ht.
  by rewrite (save_loop_ok h filename_prefix out_dir prompt extra_pnginfo
                metadata pil_images 0 [] Hp Hm Hs).
Qed.

Lemma save_loop_results h prefix out prompt extra : ∀ pils i results tr res,
  save_loop h prefix out prompt extra i pils results = (tr, inr res) →
  res = results
        ++ imap (λ j _, Saved (filename_of prefix (now h (i + j)) (i + j))
                              "" "output") pils.
Proof.
  induction pils as [|img pils IH]; intros i results tr res H.
  - simpl in H. injection H as _ <-. by rewrite app_nil_r.
  - simpl in H. destruct (png_plugin h); [done|].
    destruct (build_metadata h prompt extra) as [e|md]; [done|].
    destruct (img_save h i _ img md); [done|].
    destruct (save_loop h prefix out prompt extra (S i) pils _)
      as [tr' r'] eqn:Hl.
    injection H as _ ->. apply IH in Hl. rewrite Hl.
    rewrite <-(assoc_L (++)). simpl. rewrite Nat.add_0_r. do 2 f_equal.
    apply imap_ext; intros j x _; simpl. by rewrite ?Nat.add_succ_r.
Qed.

(** X19.  The file names of one call are pairwise distinct, whatever the
    prefix and whatever the clock gives: two images of one batch never
    share a name.  The list returned has one element per image, the one of
    index [i] built from the index [i]. *)
Theorem saved_filenames_are_distinct (h : host) (images : Gemini.tensor)
    (filename_prefix output_dir : string) (prompt : option pyobj)
    (extra_pnginfo : option (list (string * pyobj)))
    (tr : list event) (results : list saved) :
  save_images h images filename_prefix output_dir prompt extra_pnginfo
    = (tr, inr results) →
  NoDup (filename <$> results)
  ∧ ∃ pil_images,
      tensor_to_pil h images = inr pil_images
      ∧ length results = length pil_images
      ∧ ∀ i r, results !! i = Some r →
          r = Saved (filename_of filename_prefix (now h i) i) "" "output".
Proof.
  unfold save_images. destruct (makedirs h _); [done|].
  destruct (tensor_to_pil h images) as [e|pils]; [done|].
  destruct (save_loop h _ _ _ _ 0 pils []) as [tr' res] eqn:Hl.
  intros [= _ ->]. apply save_loop_results in Hl. simpl in Hl. subst results.
  split.
  - apply NoDup_alt. intros i j x.
    rewrite !list_lookup_fmap, !list_lookup_imap.
    destruct (pils !! i), (pils !! j); simpl; try done.
    intros [= <-] [= H]. by apply filename_of_inj in H.
  - exists pils. split; [done|]. split; [by rewrite length_imap|].
    intros i r. rewrite list_lookup_imap.
    destruct (pils !! i); simpl; [|done]. by intros [= <-].
Qed.

(** X20.  A failed write ends [save_images] with that exception and no
    result: when the image of index [k] is the first whose [img.save]
    raises, the files of the images before it have been written and stay,
    the images after it are never attempted. *)
Theorem save_images_stops_at_failed_write (h : host) (images : Gemini.tensor)
    (filename_prefix output_dir : string) (prompt : option pyobj)
    (extra_pnginfo : option (list (string * pyobj)))
    (pil_images : list Gemini.pil) (metadata : list (string * string))
    (k : nat) (img_k : Gemini.pil) (e : string) :
  let out_dir := out_dir_of h output_dir in
  let name i := filename_of filename_prefix (now h i) i in
  makedirs h out_dir = None →
  tensor_to_pil h images = inr pil_images →
  png_plugin h = None →
  build_metadata h prompt extra_pnginfo = inr metadata →
  (∀ i img, i < k → pil_images !! i = Some img →
     img_save h i (path_join h out_dir (name i)) img metadata = None) →
  pil_images !! k = Some img_k →
  img_save h k (path_join h out_dir (name k)) img_k metadata = Some e →
  save_images h images filename_prefix output_dir prompt extra_pnginfo
  = (MakeDirs out_dir
       :: imap (λ i img, SaveImage (path_join h out_dir (name i)) img metadata)
               (take (S k) pil_images),
     inl (SaveRaised e)).
Proof.
  intros out_dir name Hmk Ht Hp Hm Hs Hk He. unfold save_images.
  fold out_dir. rewrite Hmk, Ht.
  assert (Hloop : ∀ pils i results k,
    (∀ j img, j < k → pils !! j = Some img →
       img_save h (i + j) (path_join h out_dir (name (i + j))) img metadata
       = None) →
    pils !! k = Some img_k →
    img_save h (i + k) (path_join h out_dir (name (i + k))) img_k metadata
      = Some e →
    save_loop h filename_prefix out_dir prompt extra_pnginfo i pils results
    = (imap (λ j img, SaveImage (path_join h out_dir (name (i + j))) img
                                metadata) (take (S k) pils),
       inl (SaveRaised e))).
  { clear Hs Hk He k. induction pils as [|img pils IH];
      intros i results k Hs Hk He; [done|].
    simpl. rewrite Hp, Hm. destruct k as [|k].
    - simpl in Hk. injection Hk as ->. rewrite Nat.add_0_r in He.
      fold (name i). rewrite He. simpl. by rewrite Nat.add_0_r.
    - pose proof (Hs 0 img ltac:(lia) eq_refl) as H0.
      rewrite Nat.add_0_r in H0. fold (name i). rewrite H0.
      rewrite (IH (S i) _ k).
      + simpl. rewrite Nat.add_0_r. do 2 f_equal.
        apply imap_ext; intros j x _; simpl. by rewrite ?Nat.add_succ_r.
      + intros j x Hj Hx. replace (S i + j) with (i + S j) by lia.
        apply (Hs (S j)); [lia|done].
      + done.
      + by replace (S i + k) with (i + S k) by lia. }
  by rewrite (Hloop pil_images 0 [] k Hs Hk He).
Qed.

(** X18 at [plain_host], for a batch of two. *)
Lemma save_images_writes_every_image_witness :
  save_images plain_host ["img-a"; "img-b"] "APIImage" "  " None None
  = ([MakeDirs "/comfy/output";
      SaveImage "/comfy/output/APIImage_20260101_120000_0000.png" "img-a" [];
      SaveImage "/comfy/output/APIImage_20260101_120000_0001.png" "img-b" []],
     inr [Saved "APIImage_20260101_120000_0000.png" "" "output";
          Saved "APIImage_20260101_120000_0001.png" "" "output"]).
Proof.
  etrans.
  - apply (save_images_writes_every_image plain_host ["img-a"; "img-b"]
             "APIImage" "  " None None ["img-a"; "img-b"] []);
      reflexivity.
  - vm_compute. reflexivity.
Defined.

(** X19 at [plain_host], for a batch of two. *)
Lemma saved_filenames_are_distinct_witness :
  NoDup ["APIImage_20260101_120000_0000.png";
         "APIImage_20260101_120000_0001.png"].
Proof.
  apply (saved_filenames_are_distinct plain_host ["img-a"; "img-b"]
           "APIImage" "" None None
           [MakeDirs "/comfy/output";
            SaveImage "/comfy/output/APIImage_20260101_120000_0000.png"
                      "img-a" [];
            SaveImage "/comfy/output/APIImage_20260101_120000_0001.png"
                      "img-b" []]
           [Saved "APIImage_20260101_120000_0000.png" "" "output";
            Saved "APIImage_20260101_120000_0001.png" "" "output"]).
  vm_compute. reflexivity.
Defined.

(** X20 at [disk_fills_up], for a batch of three. *)
Lemma save_images_stops_at_failed_write_witness :
  save_images disk_fills_up ["img-a"; "img-b"; "img-c"] "APIImage" "" None None
  = ([MakeDirs "/comfy/output";
      SaveImage "/comfy/output/APIImage_20260101_120000_0000.png" "img-a" [];
      SaveImage "/comfy/output/APIImage_20260101_120000_0001.png" "img-b" []],
     inl (SaveRaised "No space left on device")).
Proof.
  etrans.
  - apply (save_images_stops_at_failed_write disk_fills_up
             ["img-a"; "img-b"; "img-c"] "APIImage" "" None None
             ["img-a"; "img-b"; "img-c"] [] 1 "img-b"
             "No space left on device"); try reflexivity.
    intros [|i] img Hi Himg; [reflexivity|lia].
  - vm_compute. reflexivity.
Defined.

End SaveProperties.

(** ** __init__.py *)

Section InitProperties.
Import Init.
Context {St : Type} (sys : system St).

Lemma ensure_loop_pips pkgs : ∀ s,
  pip_runs (ensure_loop sys pkgs s).1.1 `sublist_of` (snd <$> pkgs)
  ∧ (length (install_warnings (ensure_loop sys pkgs s).1.1)
     ≤ length (pip_runs (ensure_loop sys pkgs s).1.1))%nat.
Proof.
  induction pkgs as [|[imp pip] pkgs IH]; intros s; simpl; [done|].
  destruct (import_module sys s imp) as [[| |e] s1].
  - destruct (IH s1) as [H1 H2]. split; [by apply sublist_cons|done].
  - destruct (check_call sys s1 pip) as [[e|] s2];
      destruct (IH s2) as [H1 H2];
      destruct (ensure_loop sys pkgs s2) as [[tr r] s3]; simpl in *;
      (split; [by apply sublist_skip|lia]).
  - simpl. split; [apply sublist_nil_l|done].
Qed.

Lemma ensure_loop_returns pkgs : ∀ s,
  (∀ s n e, (import_module sys s n).1 ≠ OtherRaised e) →
  (ensure_loop sys pkgs s).1.2 = None.
Proof.
  induction pkgs as [|[imp pip] pkgs IH]; intros s Hno; simpl; [done|].
  pose proof (Hno s imp) as H.
  destruct (import_module sys s imp) as [[| |e] s1]; simpl in H.
  - by apply IH.
  - destruct (check_call sys s1 pip) as [[e|] s2];
      pose proof (IH s2 Hno) as H2;
      by destruct (ensure_loop sys pkgs s2) as [[tr r] s3].
  - by destruct (H e).
Qed.

Lemma ensure_loop_quiet pkgs : ∀ s,
  (∀ s n, (import_module sys s n).1 = Imported) →
  (ensure_loop sys pkgs s).1 = ([], None).
Proof.
  induction pkgs as [|[imp pip] pkgs IH]; intros s Hok; simpl; [done|].
  pose proof (Hok s imp) as H.
  destruct (import_module sys s imp) as [[| |e] s1]; simpl in H; try done.
  by apply IH.
Qed.

Lemma ensure_loop_all_missing pkgs : ∀ s,
  (∀ s n, (import_module sys s n).1 = ImportErrorRaised) →
  pip_runs (ensure_loop sys pkgs s).1.1 = snd <$> pkgs
  ∧ (ensure_loop sys pkgs s).1.2 = None.
Proof.
  induction pkgs as [|[imp pip] pkgs IH]; intros s Hall; simpl; [done|].
  pose proof (Hall s imp) as H.
  destruct (import_module sys s imp) as [[| |e] s1]; simpl in H; try done.
  destruct (check_call sys s1 pip) as [[e|] s2];
    destruct (IH s2 Hall) as [H1 H2];
    destruct (ensure_loop sys pkgs s2) as [[tr r] s3]; simpl in *;
    by rewrite H1.
Qed.

(** X21.  [_ensure_packages] runs [pip] only for packages of
    [_REQUIRED_PACKAGES], at most once each and in the order of the list; an
    install that fails is logged and the loop goes on (no more warnings than
    installs).  It raises only when an import raises something else than
    [ImportError]; it does nothing when every import succeeds; and when
    every import fails all five installs are attempted, whatever becomes of
    them. *)
Theorem ensure_packages_installs_only_required (s : St) :
  let r := _ensure_packages sys s in
  pip_runs r.1.1 `sublist_of` (snd <$> _REQUIRED_PACKAGES)
  ∧ (length (install_warnings r.1.1) ≤ length (pip_runs r.1.1))%nat
  ∧ ((∀ s n e, (import_module sys s n).1 ≠ OtherRaised e) → r.1.2 = None)
  ∧ ((∀ s n, (import_module sys s n).1 = Imported) → r.1 = ([], None))
  ∧ ((∀ s n, (import_module sys s n).1 = ImportErrorRaised) →
     pip_runs r.1.1 = snd <$> _REQUIRED_PACKAGES ∧ r.1.2 = None).
Proof.
  intros r. subst r. unfold _ensure_packages.
  destruct (ensure_loop_pips _REQUIRED_PACKAGES s) as [H1 H2].
  split; [done|]. split; [done|].
  split; [apply ensure_loop_returns|].
  split; [apply ensure_loop_quiet|apply ensure_loop_all_missing].
Qed.

End InitProperties.
